(** * Solana trade tracker and copy-trading engine: model and properties

    A shallow embedding of the TypeScript sources:
    - [utils/binary.ts], [utils/solana-tx.ts], [utils/entries.ts]
      (shred-stream entry decoding and wire-form measurement);
    - [services/position-manager.ts] (position ledger and risk gate);
    - [services/exit-manager.ts] (take-profit / stop / trailing exits);
    - [services/trade-filter.ts] (token quality filter);
    - [services/trade-analyzer.ts] (watch list, aggregator classifier,
      balance-delta reconstruction);
    - [services/jupiter-executor.ts] (pre-built transaction cache in the
      buy path) and [services/copy-trade-engine.ts] (ledger update).

    Conventions.  A JavaScript [bigint] is a [Z].  A JavaScript [number]
    that holds an offset, a length or a count is a [Z]; a [number] that
    holds a price, a USDC amount or a percentage is an exact rational
    [Qc], so the arithmetic below is the arithmetic the source writes
    down, without binary rounding.  Where the rounding of a sum decides
    the outcome, in the risk gate of the position manager, the same
    code is modelled over IEEE 754 binary64 values ([double], module
    [PositionManager64]), with the map of positions in insertion order.
    A [Map] whose iteration order is observed is an insertion-ordered
    association list; the other maps are [gmap]s.  A [Uint8Array] is a
    [list byte].  Calls to the outside world (RPC, HTTP) are arguments
    that carry the outcome of the call. *)

From Stdlib Require Import ZArith QArith Qcanon Strings.String Strings.Ascii Strings.Byte Bool Floats.
From stdpp Require Import base numbers option list strings gmap fin_maps fin_sets.

Local Open Scope Z_scope.
#[local] Set Warnings "-inexact-float".

(** ** JavaScript values used throughout *)

(** A price, an amount in USDC or a percentage. *)
Definition number : Type := Qc.

(** [Number(b)] for a bigint [b]. *)
Definition Number (b : Z) : number := Qc_of_Z b.

(** A JavaScript [number] as the IEEE 754 binary64 value it is; [+],
    [-], [*], [/], [<] and [<=] on it are the operations of the
    standard, rounding to nearest, ties to even. *)
Definition double : Type := float.

(** [Number(b)] for a bigint [b] in double precision: the nearest
    double, ties to even. *)
Definition Number64 (b : Z) : double :=
  SF2Prim (binary_normalize prec emax b 0 false).

Definition Uint8Array : Type := list byte.

#[global] Instance byte_eq_decision : EqDecision byte := Byte.byte_eq_dec.

Definition byteValue (b : byte) : Z := Z.of_N (Byte.to_N b).

(** [buffer.length] *)
Definition bufLength (buffer : Uint8Array) : Z := Z.of_nat (length buffer).

(** [buffer[i]]: [None] is [undefined] (index out of range). *)
Definition bufGet (buffer : Uint8Array) (i : Z) : option Z :=
  if i <? 0 then None else byteValue <$> buffer !! Z.to_nat i.

(** Operand conversion of the bitwise operators: [undefined] becomes 0. *)
Definition toInt32Operand (v : option Z) : Z := default 0 v.

(** [buffer.slice(start, end)] for [0 <= start]: both ends are clamped to
    the length. *)
Definition bufSlice (buffer : Uint8Array) (start end_ : Z) : Uint8Array :=
  take (Z.to_nat (end_ - start)) (drop (Z.to_nat start) buffer).

(** [buffer.slice(start)] *)
Definition bufSliceFrom (buffer : Uint8Array) (start : Z) : Uint8Array :=
  drop (Z.to_nat start) buffer.

(** ** utils/binary.ts *)
Module Binary.

(** [readU32]: four bytes, little endian; [>>> 0] makes the 32-bit
    result unsigned. *)
Definition readU32 (buffer : Uint8Array) (offset : Z) : Z :=
  let b0 := toInt32Operand (bufGet buffer offset) in
  let b1 := toInt32Operand (bufGet buffer (offset + 1)) in
  let b2 := toInt32Operand (bufGet buffer (offset + 2)) in
  let b3 := toInt32Operand (bufGet buffer (offset + 3)) in
  (Z.lor (Z.lor (Z.lor b0 (Z.shiftl b1 8)) (Z.shiftl b2 16)) (Z.shiftl b3 24))
    mod 2 ^ 32.

Definition readU64 (buffer : Uint8Array) (offset : Z) : Z :=
  let low := readU32 buffer offset in
  let high := readU32 buffer (offset + 4) in
  Z.lor low (Z.shiftl high 32).

(** [readCompactU16]: returns [(value, bytesConsumed)]. *)
Definition readCompactU16 (buffer : Uint8Array) (offset : Z) : Z * Z :=
  if offset >=? bufLength buffer then (0, 0) else
  let byte1 := toInt32Operand (bufGet buffer offset) in
  if byte1 <? 128 then (byte1, 1) else
  if offset + 1 >=? bufLength buffer then (0, 0) else
  let byte2 := toInt32Operand (bufGet buffer (offset + 1)) in
  if byte2 <? 128 then (Z.lor (Z.land byte1 127) (Z.shiftl byte2 7), 2) else
  if offset + 2 >=? bufLength buffer then (0, 0) else
  let byte3 := toInt32Operand (bufGet buffer (offset + 2)) in
  (Z.lor (Z.lor (Z.land byte1 127) (Z.shiftl (Z.land byte2 127) 7))
         (Z.shiftl byte3 14), 3).

End Binary.

(** ** utils/solana-tx.ts *)
Module SolanaTx.
Import Binary.

(** The body of the two instruction loops
    [for (let i = 0; i < numInstructions; i++)]; [None] is the early
    [return 0]. *)
Fixpoint skipInstructions (buffer : Uint8Array) (n : nat) (offset : Z)
  : option Z :=
  match n with
  | O => Some offset
  | S n' =>
      if offset >=? bufLength buffer then None else
      let offset := offset + 1 in
      let '(numAccounts, accBytes) := readCompactU16 buffer offset in
      let offset := offset + accBytes in
      let offset := offset + numAccounts in
      let '(dataLen, dataLenBytes) := readCompactU16 buffer offset in
      let offset := offset + dataLenBytes in
      let offset := offset + dataLen in
      skipInstructions buffer n' offset
  end.

(** The loop over the address table lookups of a versioned message. *)
Fixpoint skipLookups (buffer : Uint8Array) (n : nat) (offset : Z)
  : option Z :=
  match n with
  | O => Some offset
  | S n' =>
      if offset + 32 >? bufLength buffer then None else
      let offset := offset + 32 in
      let '(numWritable, wBytes) := readCompactU16 buffer offset in
      let offset := offset + wBytes in
      let offset := offset + numWritable in
      let '(numReadonly, rBytes) := readCompactU16 buffer offset in
      let offset := offset + rBytes in
      let offset := offset + numReadonly in
      skipLookups buffer n' offset
  end.

(** [measureTransactionSize].  No statement of the body can throw (an
    out-of-range read is [undefined]), so the [catch] is never taken. *)
Definition measureTransactionSize (buffer : Uint8Array) : Z :=
  let offset := 0 in
  let '(numSigs, sigBytes) := readCompactU16 buffer offset in
  let offset := offset + sigBytes in
  if (numSigs =? 0) || (numSigs >? 64) then 0 else
  let offset := offset + numSigs * 64 in
  if offset >=? bufLength buffer then 0 else
  let firstByte := bufGet buffer offset in
  if bool_decide (firstByte = Some 128) then
    (* versioned (v0) *)
    let offset := offset + 1 in
    if offset + 3 >? bufLength buffer then 0 else
    let offset := offset + 3 in
    let '(numStaticKeys, staticKeyBytes) := readCompactU16 buffer offset in
    let offset := offset + staticKeyBytes in
    let offset := offset + numStaticKeys * 32 in
    if offset + 32 >? bufLength buffer then 0 else
    let offset := offset + 32 in
    let '(numInstructions, instrBytes) := readCompactU16 buffer offset in
    let offset := offset + instrBytes in
    match skipInstructions buffer (Z.to_nat numInstructions) offset with
    | None => 0
    | Some offset =>
        let '(numLookups, lookupBytes) := readCompactU16 buffer offset in
        let offset := offset + lookupBytes in
        match skipLookups buffer (Z.to_nat numLookups) offset with
        | None => 0
        | Some offset => offset
        end
    end
  else
    (* legacy *)
    if offset + 3 >? bufLength buffer then 0 else
    let offset := offset + 3 in
    let '(numKeys, keyBytes) := readCompactU16 buffer offset in
    let offset := offset + keyBytes in
    let offset := offset + numKeys * 32 in
    if offset + 32 >? bufLength buffer then 0 else
    let offset := offset + 32 in
    let '(numInstructions, instrBytes) := readCompactU16 buffer offset in
    let offset := offset + instrBytes in
    match skipInstructions buffer (Z.to_nat numInstructions) offset with
    | None => 0
    | Some offset => offset
    end.

End SolanaTx.

(** ** utils/entries.ts *)
Module Entries.
Import Binary SolanaTx.

Record SolanaEntry := mkSolanaEntry {
  numHashes : Z;
  hash : Uint8Array;
  transactions : list Uint8Array;
}.

(** The only [throw] of [deserializeEntries]; the [catch] rethrows it
    as [Failed to deserialize entries: ...]. *)
Inductive DeserializeResult :=
| Entries_ (entries : list SolanaEntry)
| CannotReadTxVecLength (offset : Z).

(** The loop [for (let t = 0; t < txCount; t++)].  It leaves through
    the loop condition or through one of its two [break]s and returns
    the transactions collected so far with the offset reached.  Every
    iteration that continues moves [offset] forward inside the buffer,
    so [fuel] above the number of remaining bytes is never used up. *)
Fixpoint readTransactions (fuel : nat) (entriesBytes : Uint8Array)
    (txCount t offset : Z) (transactions : list Uint8Array)
  : option (list Uint8Array * Z) :=
  match fuel with
  | O => None
  | S fuel' =>
      if t <? txCount then
        if offset >=? bufLength entriesBytes then Some (transactions, offset)
        else
          let remaining := bufSliceFrom entriesBytes offset in
          let txSize := measureTransactionSize remaining in
          if txSize =? 0 then Some (transactions, offset)
          else
            let txBytes := bufSlice entriesBytes offset (offset + txSize) in
            readTransactions fuel' entriesBytes txCount (t + 1)
              (offset + txSize) (transactions ++ [txBytes])
      else Some (transactions, offset)
  end.

(** The loop [for (let i = 0; i < length; i++)].  The conversion
    [Number(...)] of the two counts is the identity here: a count is
    only compared with 0 and with loop counters, which stay far below
    [2^53]. *)
Fixpoint readEntries (fuel : nat) (entriesBytes : Uint8Array)
    (length_ i offset : Z) (entries : list SolanaEntry)
  : option DeserializeResult :=
  match fuel with
  | O => None
  | S fuel' =>
      if i <? length_ then
        let numHashes := readU64 entriesBytes offset in
        let offset := offset + 8 in
        let hash := bufSlice entriesBytes offset (offset + 32) in
        let offset := offset + 32 in
        if offset + 8 >? bufLength entriesBytes
        then Some (CannotReadTxVecLength offset)
        else
          let txCount := readU64 entriesBytes offset in
          let offset := offset + 8 in
          match
            (if txCount >? 0
             then readTransactions (S (length entriesBytes)) entriesBytes
                    txCount 0 offset []
             else Some ([], offset))
          with
          | None => None
          | Some (transactions, offset) =>
              readEntries fuel' entriesBytes length_ (i + 1) offset
                (entries ++ [mkSolanaEntry numHashes hash transactions])
          end
      else Some (Entries_ entries)
  end.

(** [deserializeEntries].  [None] would mean that the fuel of the model
    ran out; [deserializeEntries_returns] shows that it never does. *)
Definition deserializeEntries (entriesBytes : Uint8Array)
  : option DeserializeResult :=
  let offset := 0 in
  let length_ := readU64 entriesBytes offset in
  let offset := offset + 8 in
  readEntries (S (length entriesBytes)) entriesBytes length_ 0 offset [].

End Entries.

(** Byte buffers written as lists of integers. *)
Definition u8 (z : Z) : byte :=
  default Byte.x00 (Byte.of_N (Z.to_N (z mod 256))).

Definition bytesOf (l : list Z) : Uint8Array := u8 <$> l.

Definition u64le (z : Z) : Uint8Array :=
  bytesOf ((λ k : nat, Z.shiftr z (8 * Z.of_nat k)) <$> seq 0 8).

(** ** Arithmetic and comparisons on [number] *)

Definition ofZ (z : Z) : number := Qc_of_Z z.
Definition ofFrac (a : Z) (b : positive) : number := Q2Qc (a # b).

Definition ltb (x y : number) : bool := bool_decide (x < y)%Qc.
Definition leb (x y : number) : bool := bool_decide (x ≤ y)%Qc.
Definition gtb (x y : number) : bool := ltb y x.
Definition geb (x y : number) : bool := leb y x.
Definition eqb (x y : number) : bool := bool_decide (x = y).

(** [Math.abs], [Math.min], [Math.max], [Math.floor] *)
Definition Math_abs (x : number) : number := if ltb x 0%Qc then (- x)%Qc else x.
Definition Math_min (x y : number) : number := if ltb y x then y else x.
Definition Math_max (x y : number) : number := if ltb x y then y else x.
Definition Math_floor (x : number) : Z := (Qnum (this x) / Zpos (Qden (this x)))%Z.

(** ** types/trade.ts and constants *)

Inductive TradeDirection := buy | sell.

Inductive Aggregator := okx | dflow | unknown.

Definition USDC_MINT : string := "EPjFWdd5AufqSSqeM2qN1xzybapC8G4wEGGkZwyTDt1v".
Definition OKX_PROGRAM_ID : string := "6m2CDdhRgxpH4WjvdzxAYbGxwdGUz5MziiL5jek2kBma".
Definition DFLOW_PROGRAM_ID : string := "DF1ow4tspfHX9JwWJsAb9epbkA8hmpSEAtxXy1V27QBH".

(** Modelled from the spec: [constants/programs.ts] is not among the
    sources.  The spec identifies vote transactions "by presence of the
    vote program in account keys"; this is the address of that program. *)
Definition VOTE_PROGRAM_ID : string := "Vote111111111111111111111111111111111111111".

(** ** services/position-manager.ts *)
Module PositionManager.

Record Position := mkPosition {
  tokenMint : string;
  symbol : option string;
  amount : Z;                 (* bigint, smallest units *)
  entryPrice : number;
  totalCostUsdc : number;
  entryTime : Z;              (* Date, in ms *)
  trades : list string;
  buyCount : Z;
  sellCount : Z;
}.

Record RiskLimits := mkRiskLimits {
  maxPositionSizeUsdc : number;
  maxTotalExposureUsdc : number;
  maxOpenPositions : number;
  minUsdcReserve : number;
}.

(** The [reason] strings of [canTrade], with the values they
    interpolate. *)
Inductive RejectReason :=
| WouldLeaveUsdcBelowMinimumReserve (minReserve : number)
| PositionSizeLimitReached (newPositionSize maxPositionSize : number)
| TotalExposureLimitReached (newTotalExposure maxExposure : number)
| MaxOpenPositionsReached (openPositions : Z) (maxPositions : number)
| NoPositionToSell.

Record LimitsInfo := mkLimitsInfo {
  li_currentPositionSize : number;
  li_maxPositionSize : number;
  li_currentExposure : number;
  li_maxExposure : number;
  li_currentPositions : Z;
  li_maxPositions : number;
}.

Record TradeCheckResult := mkTradeCheckResult {
  allowed : bool;
  reason : option RejectReason;
  limits : option LimitsInfo;
}.

Inductive LimitWarningType := position_size | total_exposure.

Inductive PositionEvent :=
| POSITION_OPENED (p : Position)
| POSITION_UPDATED (p : Position)
| POSITION_CLOSED (p : Position) (realizedPnlUsdc realizedPnlPercent : number)
| LIMIT_WARNING (type : LimitWarningType) (token : option string)
    (current max percent : number).

(** [getTotalExposure]: the sum of the costs of all positions. *)
Definition getTotalExposure (positions : gmap string Position) : number :=
  map_fold (λ _ pos sum, (sum + totalCostUsdc pos)%Qc) 0%Qc positions.

Definition positionsSize (positions : gmap string Position) : Z :=
  Z.of_nat (size positions).

(** [canTrade]: the decision and the [limit_warning] events emitted. *)
Definition canTrade (limits : RiskLimits) (positions : gmap string Position)
    (tokenMint : string) (direction : TradeDirection)
    (amountUsdc currentUsdcBalance : number)
  : TradeCheckResult * list PositionEvent :=
  let position := positions !! tokenMint in
  let totalExposure := getTotalExposure positions in
  let info currentPositionSize :=
    mkLimitsInfo currentPositionSize (maxPositionSizeUsdc limits)
      totalExposure (maxTotalExposureUsdc limits)
      (positionsSize positions) (maxOpenPositions limits) in
  match direction with
  | buy =>
      (* Check 1: USDC reserve *)
      if ltb (currentUsdcBalance - amountUsdc)%Qc (minUsdcReserve limits) then
        (mkTradeCheckResult false
           (Some (WouldLeaveUsdcBelowMinimumReserve (minUsdcReserve limits)))
           None, [])
      else
      (* Check 2: per-position size limit *)
      let currentPositionSize :=
        match position with Some p => totalCostUsdc p | None => 0%Qc end in
      let newPositionSize := (currentPositionSize + amountUsdc)%Qc in
      if gtb newPositionSize (maxPositionSizeUsdc limits) then
        (mkTradeCheckResult false
           (Some (PositionSizeLimitReached newPositionSize
                    (maxPositionSizeUsdc limits)))
           (Some (info currentPositionSize)), [])
      else
      (* Check 3: total exposure limit *)
      let newTotalExposure := (totalExposure + amountUsdc)%Qc in
      if gtb newTotalExposure (maxTotalExposureUsdc limits) then
        (mkTradeCheckResult false
           (Some (TotalExposureLimitReached newTotalExposure
                    (maxTotalExposureUsdc limits)))
           (Some (info currentPositionSize)), [])
      else
      (* Check 4: max positions, only when a new position is opened *)
      if bool_decide (position = None)
         && geb (ofZ (positionsSize positions)) (maxOpenPositions limits) then
        (mkTradeCheckResult false
           (Some (MaxOpenPositionsReached (positionsSize positions)
                    (maxOpenPositions limits)))
           (Some (info 0%Qc)), [])
      else
      (* Check 5: warnings at 80% *)
      let w1 :=
        if gtb newPositionSize (maxPositionSizeUsdc limits * ofFrac 4 5)%Qc
        then [LIMIT_WARNING position_size (Some tokenMint) newPositionSize
                (maxPositionSizeUsdc limits)
                (newPositionSize / maxPositionSizeUsdc limits * ofZ 100)%Qc]
        else [] in
      let w2 :=
        if gtb newTotalExposure (maxTotalExposureUsdc limits * ofFrac 4 5)%Qc
        then [LIMIT_WARNING total_exposure None newTotalExposure
                (maxTotalExposureUsdc limits)
                (newTotalExposure / maxTotalExposureUsdc limits * ofZ 100)%Qc]
        else [] in
      (mkTradeCheckResult true None None, w1 ++ w2)
  | sell =>
      match position with
      | Some p =>
          if amount p =? 0
          then (mkTradeCheckResult false (Some NoPositionToSell) None, [])
          else (mkTradeCheckResult true None None, [])
      | None => (mkTradeCheckResult false (Some NoPositionToSell) None, [])
      end
  end.

(** [recordBuy] at time [now]: the new ledger and the event emitted. *)
Definition recordBuy (positions : gmap string Position) (now : Z)
    (tokenMint : string) (tokenAmount : Z) (usdcSpent pricePerToken : number)
    (signature : string) (symbol : option string)
  : gmap string Position * list PositionEvent :=
  match positions !! tokenMint with
  | Some existing =>
      let newAmount := existing.(amount) + tokenAmount in
      let newCost := (existing.(totalCostUsdc) + usdcSpent)%Qc in
      let existing' :=
        {| tokenMint := existing.(PositionManager.tokenMint);
           symbol := existing.(PositionManager.symbol);
           amount := newAmount;
           entryPrice := (newCost / Number newAmount)%Qc;
           totalCostUsdc := newCost;
           entryTime := existing.(entryTime);
           trades := existing.(trades) ++ [signature];
           buyCount := existing.(buyCount) + 1;
           sellCount := existing.(sellCount) |} in
      (<[tokenMint := existing']> positions, [POSITION_UPDATED existing'])
  | None =>
      let position :=
        {| tokenMint := tokenMint;
           symbol := symbol;
           amount := tokenAmount;
           entryPrice := pricePerToken;
           totalCostUsdc := usdcSpent;
           entryTime := now;
           trades := [signature];
           buyCount := 1;
           sellCount := 0 |} in
      (<[tokenMint := position]> positions, [POSITION_OPENED position])
  end.

(** [recordSell]: the returned P&L ([None] is [null]), the new ledger
    and the event emitted. *)
Definition recordSell (positions : gmap string Position)
    (tokenMint : string) (tokenAmount : Z) (usdcReceived : number)
    (signature : string)
  : option (number * number) * gmap string Position * list PositionEvent :=
  match positions !! tokenMint with
  | None => (None, positions, [])
  | Some position =>
      let newAmount := position.(amount) - tokenAmount in
      if newAmount <? 0 then (None, positions, []) else
      let sellPercent := (Number tokenAmount / Number position.(amount))%Qc in
      let costBasis := (position.(totalCostUsdc) * sellPercent)%Qc in
      let realizedPnlUsdc := (usdcReceived - costBasis)%Qc in
      let realizedPnlPercent := (realizedPnlUsdc / costBasis * ofZ 100)%Qc in
      let position' :=
        {| tokenMint := position.(PositionManager.tokenMint);
           symbol := position.(symbol);
           amount := newAmount;
           entryPrice := position.(entryPrice);
           totalCostUsdc := (position.(totalCostUsdc) * (1 - sellPercent))%Qc;
           entryTime := position.(entryTime);
           trades := position.(trades) ++ [signature];
           buyCount := position.(buyCount);
           sellCount := position.(sellCount) + 1 |} in
      if newAmount =? 0 then
        (Some (realizedPnlUsdc, realizedPnlPercent),
         delete tokenMint positions,
         [POSITION_CLOSED position' realizedPnlUsdc realizedPnlPercent])
      else
        (Some (realizedPnlUsdc, realizedPnlPercent),
         <[tokenMint := position']> positions,
         [POSITION_UPDATED position'])
  end.

(** [getPositions] *)
Definition getPositions (positions : gmap string Position) : list Position :=
  snd <$> map_to_list positions.

End PositionManager.

(** ** services/copy-trade-engine.ts: the ledger update of [processTrade] *)
Module CopyTradeEngine.
Import PositionManager.

(** The block [if (this.positionManager) { ... }] after a copy was
    sent: [outAmount] is [copyResult.outAmount]. *)
Definition recordCopy (positions : gmap string Position) (now : Z)
    (direction : TradeDirection) (tokenMint : string) (outAmount : Z)
    (tradeAmountUsdc : number) (copySignature : string)
  : gmap string Position * list PositionEvent :=
  let tokenAmount := outAmount in
  let usdcAmount := tradeAmountUsdc in
  let pricePerToken := (usdcAmount / Number tokenAmount)%Qc in
  match direction with
  | buy =>
      recordBuy positions now tokenMint tokenAmount usdcAmount pricePerToken
        copySignature None
  | sell =>
      let '(_, positions', events) :=
        recordSell positions tokenMint tokenAmount usdcAmount copySignature in
      (positions', events)
  end.

End CopyTradeEngine.

(** ** services/exit-manager.ts *)
Module ExitManager.
Import PositionManager.

Record TakeProfitTarget := mkTarget {
  profitPercent : number;
  sellPercent : number;
}.

Record ExitStrategy := mkExitStrategy {
  takeProfitTargets : list TakeProfitTarget;
  stopLossPercent : number;
  maxHoldTimeHours : option number;
  trailingStopPercent : option number;
  trailingActivationPercent : option number;
}.

Inductive ExitType := take_profit | stop_loss | time_limit | trailing_stop.

(** The [reason] strings of the four checks. *)
Inductive ExitReason :=
| TPHit (target : number)
| StopLossHit (threshold : number)
| MaxHoldTimeReached (hours : number)
| TrailingStopFromHigh (percent : number).

Record ExitEvent := mkExitEvent {
  ev_position : Position;
  ev_exitType : ExitType;
  ev_sellPercent : number;
  ev_currentPrice : number;
  ev_profitPercent : number;
  ev_reason : ExitReason;
}.

Inductive ExitManagerEvent :=
| EXIT_TRIGGERED (e : ExitEvent)
| EXIT_EXECUTED (e : ExitEvent) (signature : string)
| EXIT_FAILED (e : ExitEvent).

(** [PositionExitState]: [tpHit] is a [Set<number>]. *)
Record PositionExitState := mkExitState {
  tpHit : gset number;
  highWaterMark : number;
}.

(** The sell path of the executor as seen from here:
    [sellToken mint tokensToSell] is the signature of the swap, or
    [None] when the result carries an error. *)
Definition SellToken : Type := string → Z → option string.

(** [BigInt(sellPercent)] throws for a number that is not an integer. *)
Definition BigInt_ofNumber (x : number) : option Z :=
  if bool_decide (Qden (this x) = 1%positive) then Some (Qnum (this x)) else None.

(** A JavaScript number used as a condition: [undefined] and 0 are
    false. *)
Definition truthy (x : option number) : bool :=
  match x with Some v => negb (eqb v 0%Qc) | None => false end.

(** [executeSell]: the events emitted.  The counters in [stats] are
    left out; nothing reads them back. *)
Definition executeSell (sellToken : SellToken) (position : Position)
    (currentPrice profitPercent sellPercent : number) (exitType : ExitType)
    (reason : ExitReason) : list ExitManagerEvent :=
  let exitEvent :=
    mkExitEvent position exitType sellPercent currentPrice profitPercent reason in
  EXIT_TRIGGERED exitEvent ::
  match BigInt_ofNumber sellPercent with
  | None => [EXIT_FAILED exitEvent]
  | Some pct =>
      let tokensToSell := Z.quot (position.(amount) * pct) 100 in
      match sellToken position.(tokenMint) tokensToSell with
      | Some signature => [EXIT_EXECUTED exitEvent signature]
      | None => [EXIT_FAILED exitEvent]
      end
  end.

(** [checkTakeProfits]: the loop over the ladder, threading the exit
    state that it mutates. *)
Fixpoint checkTakeProfitsLoop (sellToken : SellToken)
    (targets : list TakeProfitTarget) (position : Position)
    (currentPrice profitPercent_ : number) (exitState : PositionExitState)
  : PositionExitState * list ExitManagerEvent :=
  match targets with
  | [] => (exitState, [])
  | tp :: rest =>
      if geb profitPercent_ tp.(profitPercent)
         && negb (bool_decide (tp.(profitPercent) ∈ exitState.(tpHit)))
      then
        let events :=
          executeSell sellToken position currentPrice profitPercent_
            tp.(sellPercent) take_profit (TPHit tp.(profitPercent)) in
        let exitState :=
          mkExitState ({[ tp.(profitPercent) ]} ∪ exitState.(tpHit))
            exitState.(highWaterMark) in
        let '(exitState, events') :=
          checkTakeProfitsLoop sellToken rest position currentPrice
            profitPercent_ exitState in
        (exitState, events ++ events')
      else
        checkTakeProfitsLoop sellToken rest position currentPrice
          profitPercent_ exitState
  end.

Definition checkTakeProfits (strategy : ExitStrategy) (sellToken : SellToken)
    (position : Position) (currentPrice profitPercent_ : number)
    (exitState : PositionExitState) :=
  checkTakeProfitsLoop sellToken strategy.(takeProfitTargets) position
    currentPrice profitPercent_ exitState.

Definition checkStopLoss (strategy : ExitStrategy) (sellToken : SellToken)
    (position : Position) (currentPrice profitPercent_ : number)
  : list ExitManagerEvent :=
  if leb profitPercent_ strategy.(stopLossPercent) then
    executeSell sellToken position currentPrice profitPercent_ (ofZ 100)
      stop_loss (StopLossHit strategy.(stopLossPercent))
  else [].

Definition checkTimeLimit (strategy : ExitStrategy) (sellToken : SellToken)
    (now : Z) (position : Position) (currentPrice profitPercent_ : number)
  : list ExitManagerEvent :=
  if negb (truthy strategy.(maxHoldTimeHours)) then [] else
  let maxHold := default 0%Qc strategy.(maxHoldTimeHours) in
  let hoursHeld := (ofZ (now - position.(entryTime)) / ofZ 3600000)%Qc in
  if geb hoursHeld maxHold then
    executeSell sellToken position currentPrice profitPercent_ (ofZ 100)
      time_limit (MaxHoldTimeReached maxHold)
  else [].

Definition checkTrailingStop (strategy : ExitStrategy) (sellToken : SellToken)
    (position : Position) (currentPrice profitPercent_ : number)
    (exitState : PositionExitState) : list ExitManagerEvent :=
  if negb (truthy strategy.(trailingStopPercent))
     || negb (truthy strategy.(trailingActivationPercent)) then [] else
  let trailingStop := default 0%Qc strategy.(trailingStopPercent) in
  let activation := default 0%Qc strategy.(trailingActivationPercent) in
  if ltb profitPercent_ activation then [] else
  let drawdownPercent :=
    ((exitState.(highWaterMark) - currentPrice) / exitState.(highWaterMark)
     * ofZ 100)%Qc in
  if geb drawdownPercent trailingStop then
    executeSell sellToken position currentPrice profitPercent_ (ofZ 100)
      trailing_stop (TrailingStopFromHigh trailingStop)
  else [].

(** The exit state a position is checked against: the stored one, or a
    fresh one when the mint has none; then the high-water mark is
    raised to the current price. *)
Definition exitStateFor (exitStates : gmap string PositionExitState)
    (mint : string) (currentPrice : number) : PositionExitState :=
  let exitState :=
    match exitStates !! mint with
    | Some st => st
    | None => mkExitState ∅ currentPrice
    end in
  if gtb currentPrice exitState.(highWaterMark)
  then mkExitState exitState.(tpHit) currentPrice
  else exitState.

(** The body of the loop of [checkAllPositions] for one position of
    the snapshot.  [prices] is the map returned by [fetchPrices]. *)
Definition checkPosition (strategy : ExitStrategy) (sellToken : SellToken)
    (now : Z) (prices : gmap string number)
    (exitStates : gmap string PositionExitState) (position : Position)
  : gmap string PositionExitState * list ExitManagerEvent :=
  match prices !! position.(tokenMint) with
  | None => (exitStates, [])
  | Some currentPrice =>
      if eqb currentPrice 0%Qc then (exitStates, []) else
      let exitState :=
        exitStateFor exitStates position.(tokenMint) currentPrice in
      let profitPercent_ :=
        ((currentPrice / position.(entryPrice) - 1) * ofZ 100)%Qc in
      let '(exitState', ev1) :=
        checkTakeProfits strategy sellToken position currentPrice
          profitPercent_ exitState in
      let ev2 :=
        checkStopLoss strategy sellToken position currentPrice profitPercent_ in
      let ev3 :=
        checkTimeLimit strategy sellToken now position currentPrice
          profitPercent_ in
      let ev4 :=
        checkTrailingStop strategy sellToken position currentPrice
          profitPercent_ exitState' in
      (<[position.(tokenMint) := exitState']> exitStates,
       ev1 ++ ev2 ++ ev3 ++ ev4)
  end.

(** [checkAllPositions] over the snapshot [positions] returned by
    [getPositions]. *)
Fixpoint checkAllPositions (strategy : ExitStrategy) (sellToken : SellToken)
    (now : Z) (prices : gmap string number) (positions : list Position)
    (exitStates : gmap string PositionExitState)
  : gmap string PositionExitState * list ExitManagerEvent :=
  match positions with
  | [] => (exitStates, [])
  | position :: rest =>
      let '(exitStates, events) :=
        checkPosition strategy sellToken now prices exitStates position in
      let '(exitStates, events') :=
        checkAllPositions strategy sellToken now prices rest exitStates in
      (exitStates, events ++ events')
  end.

(** One entry [data.data[mint]] of the answer of the price API; a
    missing [price] is [None]. *)
Record PriceData := mkPriceData { pd_price : option number }.

(** What [fetch] of the price API and the decoding of its body can
    do. *)
Inductive PriceResponse :=
| PriceNetworkError                  (* [fetch] rejects *)
| PriceHttpStatus (status : Z)       (* [response.ok] is false *)
| PriceInvalidJson                   (* [response.json()] rejects *)
| PriceBody (data : option (gmap string PriceData)).   (* [data.data] *)

(** A price request fails when no body could be obtained. *)
Definition priceFetchFailed (response : PriceResponse) : Prop :=
  match response with PriceBody _ => False | _ => True end.

(** The loop [for (const mint of tokenMints)] of [fetchPrices]. *)
Definition collectPrices (data : option (gmap string PriceData))
    (tokenMints : list string) : gmap string number :=
  foldl
    (λ prices mint,
       match data ≫= (λ d, d !! mint) with
       | Some priceData =>
           if truthy priceData.(pd_price)
           then <[mint := default 0%Qc priceData.(pd_price)]> prices
           else prices
       | None => prices
       end)
    ∅ tokenMints.

(** [fetchPrices]: the [catch] returns the map as it is, and nothing
    has been stored in it when the request or its decoding fails. *)
Definition fetchPrices (response : PriceResponse) (tokenMints : list string)
  : gmap string number :=
  match tokenMints with
  | [] => ∅
  | _ =>
      match response with
      | PriceBody data => collectPrices data tokenMints
      | _ => ∅
      end
  end.

(** [checkAllPositions] from its first line: the snapshot of the
    ledger, the price request and the loop over the snapshot. *)
Definition checkAllPositions_tick (strategy : ExitStrategy)
    (sellToken : SellToken) (now : Z) (response : PriceResponse)
    (ledger : gmap string Position)
    (exitStates : gmap string PositionExitState)
  : gmap string PositionExitState * list ExitManagerEvent :=
  let positions := getPositions ledger in
  match positions with
  | [] => (exitStates, [])
  | _ =>
      let prices := fetchPrices response (tokenMint <$> positions) in
      checkAllPositions strategy sellToken now prices positions exitStates
  end.

End ExitManager.

(** ** Exceptions *)

(** The outcome of a call that may throw. *)
Inductive Outcome (A : Type) :=
| Returns (a : A)
| Throws (message : string).
Arguments Returns {A} a.
Arguments Throws {A} message.

Definition bindOutcome {A B} (o : Outcome A) (k : A → Outcome B) : Outcome B :=
  match o with
  | Returns a => k a
  | Throws m => Throws m
  end.

(** [try { body } catch { handler }] *)
Definition tryCatch {A} (body : Outcome A) (handler : string → Outcome A)
  : Outcome A :=
  match body with
  | Returns a => Returns a
  | Throws m => handler m
  end.

(** ** utils/__tests__/entries.test.ts: the encoder of the tests *)
Module EntriesTest.

(** The argument of [createEntryBytes]. *)
Record EntryInput := mkEntryInput {
  in_numHashes : Z;
  in_hash : Uint8Array;
  in_txCount : Z;
  in_transactions : list Uint8Array;
}.

(** The loop [for (const entry of entries)]: the parts pushed, or the
    [throw] for a hash that is not 32 bytes long.  [u64le] is
    [DataView.setBigUint64(0, v, true)] on a fresh 8-byte buffer. *)
Fixpoint writeEntries (entries : list EntryInput) (parts : list Uint8Array)
  : Outcome (list Uint8Array) :=
  match entries with
  | [] => Returns parts
  | entry :: rest =>
      let parts := parts ++ [u64le entry.(in_numHashes)] in
      if negb (bufLength entry.(in_hash) =? 32)
      then Throws "Hash must be 32 bytes"
      else
        let parts := parts ++ [entry.(in_hash)] in
        let parts := parts ++ [u64le entry.(in_txCount)] in
        let parts := parts ++ entry.(in_transactions) in
        writeEntries rest parts
  end.

(** [createEntryBytes]: the parts are concatenated in order. *)
Definition createEntryBytes (entries : list EntryInput) : Outcome Uint8Array :=
  bindOutcome
    (writeEntries entries [u64le (Z.of_nat (length entries))])
    (λ parts, Returns (concat parts)).

End EntriesTest.

(** ** services/trade-filter.ts *)
Module TradeFilter.

Record FilterConfig := mkFilterConfig {
  enabled : bool;
  minLiquidityUsdc : number;
  maxPriceImpactPercent : number;
  minTokenAgeSeconds : number;
  min24hVolumeUsdc : number;
  maxRecentPumpPercent : number;
  whitelist : list string;
}.

Inductive FilterReason :=
| whitelisted
| LowLiquidity (liquidity minLiquidity : number)
| TokenTooNew (ageMinutes minMinutes : Z)
| Low24hVolume (volume minVolume : number)
| HighPriceImpact (impact maxImpact : number)
| AlreadyPumped (pump maxPump : number)
| filter_error.

Record Check := mkCheck { value : number; passed : bool }.

Record Checks := mkChecks {
  c_liquidity : option Check;
  c_priceImpact : option Check;
  c_tokenAge : option Check;
  c_volume24h : option Check;
  c_recentPump : option Check;
}.

Record FilterResult := mkFilterResult {
  allowed : bool;
  reason : option FilterReason;
  checks : option Checks;
}.

Record PricePoint := mkPricePoint { price : number; timestamp : Z }.

Record TokenMetadata := mkTokenMetadata {
  mint : string;
  liquidity : number;
  volume24h : number;
  tokenAge : number;
  lastPriceCheck : Z;
  priceHistory : list PricePoint;
  lastUpdated : Z;
}.

Definition METADATA_CACHE_TTL : Z := 60000.
Definition PRICE_HISTORY_WINDOW : Z := 300000.

(** The first pair of the DexScreener answer; a missing field is
    [None]. *)
Record Pair := mkPair {
  liquidity_usd : option number;
  volume_h24 : option number;
  pairCreatedAt : Z;
  priceUsd : option number;
}.

(** What [fetch] of the metadata API and the decoding of its body can
    do. *)
Inductive FetchResponse :=
| NetworkError                       (* [fetch] rejects *)
| HttpStatus (status : Z)            (* [response.ok] is false *)
| InvalidJson                        (* [response.json()] rejects *)
| Body (pairs : option (list Pair)). (* [data.pairs] *)

(** A metadata fetch fails when no body could be obtained. *)
Definition fetchFailed (response : FetchResponse) : Prop :=
  match response with Body _ => False | _ => True end.

Record DexData := mkDexData {
  d_liquidity : number;
  d_volume24h : number;
  d_tokenAge : number;
  d_price : number;
}.

Definition noDexData : DexData := mkDexData 0%Qc 0%Qc 0%Qc 0%Qc.

(** The [try] block of [fetchDexScreenerData]. *)
Definition fetchDexScreenerData_body (response : FetchResponse) (now : Z)
  : Outcome DexData :=
  match response with
  | NetworkError => Throws "fetch failed"
  | HttpStatus _ => Throws "DexScreener API error"
  | InvalidJson => Throws "invalid json"
  | Body pairs =>
      match head (default [] pairs) with
      | None => Returns noDexData
      | Some pair0 =>
          let tokenAge := ((now - pair0.(pairCreatedAt)) / 1000)%Z in
          Returns
            (mkDexData (default 0%Qc pair0.(liquidity_usd))
               (default 0%Qc pair0.(volume_h24))
               (ofZ tokenAge)
               (default 0%Qc pair0.(priceUsd)))
      end
  end.

(** [fetchDexScreenerData]: the [catch] turns every failure into the
    "safe defaults". *)
Definition fetchDexScreenerData (response : FetchResponse) (now : Z)
  : Outcome DexData :=
  tryCatch (fetchDexScreenerData_body response now)
    (λ _, Returns noDexData).

(** [fetchTokenMetadata] *)
Definition fetchTokenMetadata (response : FetchResponse) (now : Z)
    (tokenMint : string) : Outcome TokenMetadata :=
  bindOutcome (fetchDexScreenerData response now) (λ dexData,
    Returns
      (mkTokenMetadata tokenMint dexData.(d_liquidity) dexData.(d_volume24h)
         dexData.(d_tokenAge) now [mkPricePoint dexData.(d_price) now] now)).

(** [getTokenMetadata]: the metadata and the cache after the call.
    [response] is consulted only on a miss or a stale entry. *)
Definition getTokenMetadata (cache : gmap string TokenMetadata)
    (response : FetchResponse) (now : Z) (tokenMint : string)
  : Outcome (TokenMetadata * gmap string TokenMetadata) :=
  match cache !! tokenMint with
  | Some cached =>
      if now - cached.(lastUpdated) <? METADATA_CACHE_TTL
      then Returns (cached, cache)
      else
        bindOutcome (fetchTokenMetadata response now tokenMint) (λ metadata,
          Returns (metadata, <[tokenMint := metadata]> cache))
  | None =>
      bindOutcome (fetchTokenMetadata response now tokenMint) (λ metadata,
        Returns (metadata, <[tokenMint := metadata]> cache))
  end.

(** [estimatePriceImpact] *)
Definition estimatePriceImpact (cache : gmap string TokenMetadata)
    (tokenMint : string) (amountUsdc : number) : number :=
  match cache !! tokenMint with
  | None => 0%Qc
  | Some metadata =>
      if eqb metadata.(liquidity) 0%Qc then 0%Qc else
      let estimatedImpact := (amountUsdc / metadata.(liquidity) * ofZ 100)%Qc in
      Math_min estimatedImpact (ofZ 100)
  end.

(** [detectRecentPump] *)
Definition detectRecentPump (metadata : TokenMetadata) (now : Z) : number :=
  let fiveMinutesAgo := now - PRICE_HISTORY_WINDOW in
  let recentPrices :=
    filter (λ p, fiveMinutesAgo ≤ p.(timestamp)) metadata.(priceHistory) in
  if (length recentPrices <? 2)%nat then 0%Qc else
  let oldestPrice := default 0%Qc (price <$> head recentPrices) in
  let newestPrice := default 0%Qc (price <$> last recentPrices) in
  if eqb oldestPrice 0%Qc then 0%Qc else
  let pumpPercent := ((newestPrice / oldestPrice - 1) * ofZ 100)%Qc in
  Math_max pumpPercent 0%Qc.

Definition noChecks : Checks := mkChecks None None None None None.

(** The [try] block of [shouldCopyTrade]. *)
Definition shouldCopyTrade_body (config : FilterConfig)
    (cache : gmap string TokenMetadata) (response : FetchResponse)
    (now : Z) (tokenMint : string) (tradeAmountUsdc : number)
  : Outcome (FilterResult * gmap string TokenMetadata) :=
  bindOutcome (getTokenMetadata cache response now tokenMint)
    (λ '(metadata, cache),
  let checks := noChecks in
  (* Check 1: liquidity *)
  if ltb metadata.(liquidity) config.(minLiquidityUsdc) then
    let checks :=
      mkChecks (Some (mkCheck metadata.(liquidity) false)) None None None None in
    Returns
      (mkFilterResult false
         (Some (LowLiquidity metadata.(liquidity) config.(minLiquidityUsdc)))
         (Some checks), cache)
  else
  let l := Some (mkCheck metadata.(liquidity) true) in
  (* Check 2: token age *)
  if ltb metadata.(tokenAge) config.(minTokenAgeSeconds) then
    let checks :=
      mkChecks l None (Some (mkCheck metadata.(tokenAge) false)) None None in
    Returns
      (mkFilterResult false
         (Some (TokenTooNew (Math_floor (metadata.(tokenAge) / ofZ 60)%Qc)
                  (Math_floor (config.(minTokenAgeSeconds) / ofZ 60)%Qc)))
         (Some checks), cache)
  else
  let a := Some (mkCheck metadata.(tokenAge) true) in
  (* Check 3: 24h volume *)
  if ltb metadata.(volume24h) config.(min24hVolumeUsdc) then
    let checks :=
      mkChecks l None a (Some (mkCheck metadata.(volume24h) false)) None in
    Returns
      (mkFilterResult false
         (Some (Low24hVolume metadata.(volume24h) config.(min24hVolumeUsdc)))
         (Some checks), cache)
  else
  let v := Some (mkCheck metadata.(volume24h) true) in
  (* Check 4: price impact *)
  let priceImpact := estimatePriceImpact cache tokenMint tradeAmountUsdc in
  if gtb priceImpact config.(maxPriceImpactPercent) then
    let checks := mkChecks l (Some (mkCheck priceImpact false)) a v None in
    Returns
      (mkFilterResult false
         (Some (HighPriceImpact priceImpact config.(maxPriceImpactPercent)))
         (Some checks), cache)
  else
  let i := Some (mkCheck priceImpact true) in
  (* Check 5: recent pump *)
  let recentPump := detectRecentPump metadata now in
  if gtb recentPump config.(maxRecentPumpPercent) then
    let checks := mkChecks l i a v (Some (mkCheck recentPump false)) in
    Returns
      (mkFilterResult false
         (Some (AlreadyPumped recentPump config.(maxRecentPumpPercent)))
         (Some checks), cache)
  else
  let checks := mkChecks l i a v (Some (mkCheck recentPump true)) in
  Returns (mkFilterResult true None (Some checks), cache)).

(** [shouldCopyTrade]: the decision and the metadata cache afterwards.
    [response] is the outcome of the metadata request, should one be
    made. *)
Definition shouldCopyTrade (config : FilterConfig)
    (cache : gmap string TokenMetadata) (response : FetchResponse)
    (now : Z) (tokenMint : string) (tradeAmountUsdc : number)
  : FilterResult * gmap string TokenMetadata :=
  if negb config.(enabled) then (mkFilterResult true None None, cache) else
  if bool_decide (tokenMint ∈ config.(whitelist))
  then (mkFilterResult true (Some whitelisted) None, cache) else
  match
    shouldCopyTrade_body config cache response now tokenMint tradeAmountUsdc
  with
  | Returns r => r
  | Throws _ =>
      (* catch: fail open *)
      (mkFilterResult true (Some filter_error) None, cache)
  end.

(** [updatePriceHistory] at time [now]: the metadata object of the
    cache is changed in place. *)
Definition updatePriceHistory (cache : gmap string TokenMetadata) (now : Z)
    (tokenMint : string) (price_ : number) : gmap string TokenMetadata :=
  match cache !! tokenMint with
  | None => cache
  | Some metadata =>
      let history := metadata.(priceHistory) ++ [mkPricePoint price_ now] in
      let cutoff := now - PRICE_HISTORY_WINDOW in
      <[tokenMint :=
          mkTokenMetadata metadata.(mint) metadata.(liquidity)
            metadata.(volume24h) metadata.(tokenAge) now
            (filter (λ p, cutoff ≤ p.(timestamp)) history)
            metadata.(lastUpdated)]> cache
  end.

End TradeFilter.


(** ** Strings of digits and insertion-ordered maps *)

(** The text handled by the balance-delta code, one character per
    element. *)
Definition Text : Type := list ascii.

Definition digitChar (d : Z) : ascii := ascii_of_nat (48 + Z.to_nat d).

Definition isDigit (c : ascii) : bool :=
  (48 <=? nat_of_ascii c)%nat && (nat_of_ascii c <=? 57)%nat.

Definition digitValue (c : ascii) : Z := Z.of_nat (nat_of_ascii c) - 48.

(** Decimal digits of [n >= 0], most significant first, in front of
    [acc]. *)
Fixpoint digitsOf (fuel : nat) (n : Z) (acc : Text) : Text :=
  match fuel with
  | O => acc
  | S fuel' =>
      let acc' := digitChar (n mod 10) :: acc in
      if n / 10 =? 0 then acc' else digitsOf fuel' (n / 10) acc'
  end.

(** [b.toString()] for a bigint [b]. *)
Definition bigintToString (b : Z) : Text :=
  let digits n := digitsOf (S (Z.to_nat (Z.log2 n))) n [] in
  if b <? 0 then "-"%char :: digits (- b) else digits b.

(** [s.padStart(targetLength, c)] *)
Definition padStart (s : Text) (targetLength : Z) (c : ascii) : Text :=
  replicate (Z.to_nat targetLength - length s) c ++ s.

(** The index conversion of [String.prototype.slice]: a negative index
    counts from the end, and the result is clamped to [0 .. len].  The
    number [-0] is not negative. *)
Definition sliceIndex (len i : Z) : Z :=
  if i <? 0 then Z.max (len + i) 0 else Z.min i len.

(** [s.slice(start, end)] *)
Definition strSlice (s : Text) (start end_ : Z) : Text :=
  let len := Z.of_nat (length s) in
  let from := sliceIndex len start in
  let to := sliceIndex len end_ in
  take (Z.to_nat (to - from)) (drop (Z.to_nat from) s).

(** [s.slice(start)] *)
Definition strSliceFrom (s : Text) (start : Z) : Text :=
  drop (Z.to_nat (sliceIndex (Z.of_nat (length s)) start)) s.

Definition digitsValue (l : Text) : Z :=
  fold_left (λ acc c, 10 * acc + digitValue c) l 0.

Fixpoint takeDigits (s : Text) : Text :=
  match s with
  | c :: r => if isDigit c then c :: takeDigits r else []
  | [] => []
  end.

Fixpoint dropDigits (s : Text) : Text :=
  match s with
  | c :: r => if isDigit c then dropDigits r else s
  | [] => []
  end.

(** [s.startsWith(c)] for a single character [c]. *)
Definition startsWith (s : Text) (c : ascii) : bool :=
  match s with
  | c' :: _ => bool_decide (c' = c)
  | [] => false
  end.

(** [parseFloat] on texts of the shape [-ddd.ddd]: an optional sign, the
    integer digits, and after a point the fraction digits; the value is
    exact.  [None] is [NaN] (no digit at all). *)
Definition parseFloat (s : Text) : option number :=
  let negative := startsWith s "-"%char in
  let s := if negative then tail s else s in
  let intDigits := takeDigits s in
  let fracDigits :=
    if startsWith (dropDigits s) "."%char
    then takeDigits (tail (dropDigits s)) else [] in
  if bool_decide (intDigits = []) && bool_decide (fracDigits = []) then None
  else
    let magnitude :=
      (ofZ (digitsValue intDigits)
       + ofZ (digitsValue fracDigits) / ofZ (10 ^ Z.of_nat (length fracDigits)))%Qc in
    Some (if negative then (- magnitude)%Qc else magnitude).

(** A [Map<string, V>] whose iteration order is observed: entries in
    insertion order; [set] on a present key keeps its place. *)
Definition OrderedMap (V : Type) : Type := list (string * V).

Fixpoint omapGet {V} (m : OrderedMap V) (k : string) : option V :=
  match m with
  | [] => None
  | (k', v) :: r => if bool_decide (k' = k) then Some v else omapGet r k
  end.

Fixpoint omapSet {V} (m : OrderedMap V) (k : string) (v : V) : OrderedMap V :=
  match m with
  | [] => [(k, v)]
  | (k', v') :: r =>
      if bool_decide (k' = k) then (k, v) :: r else (k', v') :: omapSet r k v
  end.

(** ** services/position-manager.ts: the risk gate in double precision *)

(** [canTrade], [getTotalExposure] and [recordBuy] once more, with every
    [number] a [double] and the map of positions in insertion order:
    [reduce] adds the costs in that order, and a sum of doubles depends
    on it. *)
Module PositionManager64.

Record Position := mkPosition {
  tokenMint : string;
  symbol : option string;
  amount : Z;                 (* bigint, smallest units *)
  entryPrice : double;
  totalCostUsdc : double;
  entryTime : Z;              (* Date, in ms *)
  trades : list string;
  buyCount : Z;
  sellCount : Z;
}.

Record RiskLimits := mkRiskLimits {
  maxPositionSizeUsdc : double;
  maxTotalExposureUsdc : double;
  maxOpenPositions : double;
  minUsdcReserve : double;
}.

Inductive RejectReason :=
| WouldLeaveUsdcBelowMinimumReserve (minReserve : double)
| PositionSizeLimitReached (newPositionSize maxPositionSize : double)
| TotalExposureLimitReached (newTotalExposure maxExposure : double)
| MaxOpenPositionsReached (openPositions : Z) (maxPositions : double)
| NoPositionToSell.

Record LimitsInfo := mkLimitsInfo {
  li_currentPositionSize : double;
  li_maxPositionSize : double;
  li_currentExposure : double;
  li_maxExposure : double;
  li_currentPositions : Z;
  li_maxPositions : double;
}.

Record TradeCheckResult := mkTradeCheckResult {
  allowed : bool;
  reason : option RejectReason;
  limits : option LimitsInfo;
}.

Inductive LimitWarningType := position_size | total_exposure.

Inductive PositionEvent :=
| POSITION_OPENED (p : Position)
| POSITION_UPDATED (p : Position)
| LIMIT_WARNING (type : LimitWarningType) (token : option string)
    (current max percent : double).

(** [this.positions.size] *)
Definition positionsSize (positions : OrderedMap Position) : Z :=
  Z.of_nat (length positions).

(** [getTotalExposure]: [reduce] adds the costs from 0 in the order of
    [positions.values()], the order in which the positions were
    opened. *)
Definition getTotalExposure (positions : OrderedMap Position) : double :=
  foldl (λ sum kv, (sum + totalCostUsdc kv.2)%float) 0%float positions.

(** [canTrade]: the decision and the [limit_warning] events emitted. *)
Definition canTrade (limits : RiskLimits) (positions : OrderedMap Position)
    (tokenMint : string) (direction : TradeDirection)
    (amountUsdc currentUsdcBalance : double)
  : TradeCheckResult * list PositionEvent :=
  let position := omapGet positions tokenMint in
  let totalExposure := getTotalExposure positions in
  let info currentPositionSize :=
    mkLimitsInfo currentPositionSize (maxPositionSizeUsdc limits)
      totalExposure (maxTotalExposureUsdc limits)
      (positionsSize positions) (maxOpenPositions limits) in
  match direction with
  | buy =>
      (* Check 1: USDC reserve *)
      if (currentUsdcBalance - amountUsdc <? minUsdcReserve limits)%float then
        (mkTradeCheckResult false
           (Some (WouldLeaveUsdcBelowMinimumReserve (minUsdcReserve limits)))
           None, [])
      else
      (* Check 2: per-position size limit *)
      let currentPositionSize :=
        match position with Some p => totalCostUsdc p | None => 0%float end in
      let newPositionSize := (currentPositionSize + amountUsdc)%float in
      if (maxPositionSizeUsdc limits <? newPositionSize)%float then
        (mkTradeCheckResult false
           (Some (PositionSizeLimitReached newPositionSize
                    (maxPositionSizeUsdc limits)))
           (Some (info currentPositionSize)), [])
      else
      (* Check 3: total exposure limit *)
      let newTotalExposure := (totalExposure + amountUsdc)%float in
      if (maxTotalExposureUsdc limits <? newTotalExposure)%float then
        (mkTradeCheckResult false
           (Some (TotalExposureLimitReached newTotalExposure
                    (maxTotalExposureUsdc limits)))
           (Some (info currentPositionSize)), [])
      else
      (* Check 4: max positions, only when a new position is opened *)
      if bool_decide (position = None)
         && (maxOpenPositions limits
             <=? Number64 (positionsSize positions))%float then
        (mkTradeCheckResult false
           (Some (MaxOpenPositionsReached (positionsSize positions)
                    (maxOpenPositions limits)))
           (Some (info 0%float)), [])
      else
      (* Check 5: warnings at 80% *)
      let w1 :=
        if (maxPositionSizeUsdc limits * 0.8 <? newPositionSize)%float
        then [LIMIT_WARNING position_size (Some tokenMint) newPositionSize
                (maxPositionSizeUsdc limits)
                (newPositionSize / maxPositionSizeUsdc limits * 100)%float]
        else [] in
      let w2 :=
        if (maxTotalExposureUsdc limits * 0.8 <? newTotalExposure)%float
        then [LIMIT_WARNING total_exposure None newTotalExposure
                (maxTotalExposureUsdc limits)
                (newTotalExposure / maxTotalExposureUsdc limits * 100)%float]
        else [] in
      (mkTradeCheckResult true None None, w1 ++ w2)
  | sell =>
      match position with
      | Some p =>
          if amount p =? 0
          then (mkTradeCheckResult false (Some NoPositionToSell) None, [])
          else (mkTradeCheckResult true None None, [])
      | None => (mkTradeCheckResult false (Some NoPositionToSell) None, [])
      end
  end.

(** [recordBuy] at time [now]: the new ledger and the event emitted.
    An existing position is updated in its place; a new one comes last
    in the iteration order of the map. *)
Definition recordBuy (positions : OrderedMap Position) (now : Z)
    (tokenMint : string) (tokenAmount : Z) (usdcSpent pricePerToken : double)
    (signature : string) (symbol : option string)
  : OrderedMap Position * list PositionEvent :=
  match omapGet positions tokenMint with
  | Some existing =>
      let newAmount := existing.(amount) + tokenAmount in
      let newCost := (existing.(totalCostUsdc) + usdcSpent)%float in
      let existing' :=
        {| tokenMint := existing.(PositionManager64.tokenMint);
           symbol := existing.(PositionManager64.symbol);
           amount := newAmount;
           entryPrice := (newCost / Number64 newAmount)%float;
           totalCostUsdc := newCost;
           entryTime := existing.(entryTime);
           trades := existing.(trades) ++ [signature];
           buyCount := existing.(buyCount) + 1;
           sellCount := existing.(sellCount) |} in
      (omapSet positions tokenMint existing', [POSITION_UPDATED existing'])
  | None =>
      let position :=
        {| tokenMint := tokenMint;
           symbol := symbol;
           amount := tokenAmount;
           entryPrice := pricePerToken;
           totalCostUsdc := usdcSpent;
           entryTime := now;
           trades := [signature];
           buyCount := 1;
           sellCount := 0 |} in
      (omapSet positions tokenMint position, [POSITION_OPENED position])
  end.

End PositionManager64.

(** ** services/trade-analyzer.ts *)
Module TradeAnalyzer.

Definition OKX_SWAP_DISCRIMINATORS : list Uint8Array :=
  bytesOf <$>
  [ [248; 198; 158; 145; 225; 117; 135; 200];
    [19; 44; 130; 148; 72; 56; 44; 238];
    [30; 33; 208; 91; 31; 157; 37; 18];
    [81; 128; 134; 73; 114; 73; 45; 94];
    [96; 67; 12; 151; 129; 164; 18; 71];
    [235; 71; 211; 196; 114; 199; 143; 92];
    [69; 200; 254; 247; 40; 52; 118; 202];
    [69; 164; 210; 89; 146; 214; 173; 67];
    [240; 224; 38; 33; 176; 31; 241; 175];
    [14; 191; 44; 246; 142; 225; 224; 157];
    [236; 71; 155; 68; 198; 98; 14; 118];
    [63; 114; 246; 131; 51; 2; 247; 29] ].

Definition DFLOW_SWAP_DISCRIMINATORS : list Uint8Array :=
  bytesOf <$>
  [ [248; 198; 158; 145; 225; 117; 135; 200];
    [168; 172; 24; 77; 197; 156; 135; 101];
    [205; 77; 127; 108; 241; 32; 196; 195];
    [65; 75; 63; 76; 235; 91; 91; 136];
    [95; 123; 213; 246; 122; 1; 86; 231];
    [222; 100; 184; 146; 186; 196; 105; 165] ].

Record DetectedTrade := mkDetectedTrade {
  signature : string;
  slot : Z;
  direction : TradeDirection;
  tokenMint : string;
  usdcAmount : number;
  tokenAmount : Z;
  userAddress : option string;
  aggregator : Aggregator;
  detectedAt : Z;
}.

Record CompiledInstruction := mkCompiledInstruction {
  programIdIndex : Z;
  accountKeyIndexes : list Z;
  ci_data : Uint8Array;
}.

Record AddressTableLookup := mkLookup {
  accountKey : string;
  writableIndexes : list Z;
  readonlyIndexes : list Z;
}.

Record LegacyInstruction := mkLegacyInstruction {
  li_programId : string;
  li_keys : list string;
  li_data : Uint8Array;
}.

(** [Transaction | VersionedTransaction] *)
Inductive TransactionObject :=
| VersionedTransaction (compiledInstructions : list CompiledInstruction)
    (addressTableLookups : list AddressTableLookup)
| LegacyTransaction (instructions : list LegacyInstruction).

Record DecodedTransaction := mkDecodedTransaction {
  dt_signature : string;
  dt_transaction : TransactionObject;
  accountKeys : list string;
  dt_slot : Z;
  isVersioned : bool;
}.

Record ParsedInstruction := mkParsedInstruction {
  programId : string;
  accounts : list string;
  data : Uint8Array;
}.

Record UiTokenAmount := mkUiTokenAmount {
  ui_amount : Z;        (* the decimal string [amount], read by [BigInt] *)
  ui_decimals : Z;
}.

Record TokenBalance := mkTokenBalance {
  tb_mint : string;
  tb_owner : option string;
  uiTokenAmount : option UiTokenAmount;
}.

Record TransactionMeta := mkMeta {
  preTokenBalances : option (list TokenBalance);
  postTokenBalances : option (list TokenBalance);
}.

(** [ParsedTransactionWithMeta]; only [meta] is read. *)
Record ParsedTransactionWithMeta := mkParsedTx {
  meta : option TransactionMeta;
}.

(** The RPC provider: a lookup table is its vector of addresses. *)
Record Rpc := mkRpc {
  getAddressLookupTable : string → Outcome (option (list string));
  getParsedTransaction : string → Outcome (option ParsedTransactionWithMeta);
}.

Inductive AnalyzerEvent :=
| TRADE (trade : DetectedTrade)
| ERROR (message : string).

(** [accountKeys[i]]: [None] is [undefined]. *)
Definition keyAt (keys : list string) (i : Z) : option string :=
  if i <? 0 then None else keys !! Z.to_nat i.

(** [x || ''] for a string or [undefined]. *)
Definition orEmpty (x : option string) : string := default ""%string x.

(** A string used as a condition: [null], [undefined] and [''] are
    false. *)
Definition truthyString (x : option string) : bool :=
  match x with
  | Some s => negb (bool_decide (s = ""%string))
  | None => false
  end.

(** The two [for (const idx of ...)] loops of [resolveAccountKeys]. *)
Definition pushAddresses (addresses : list string) (indexes : list Z)
    (fullKeys : list string) : list string :=
  fold_left
    (λ keys idx,
       match keyAt addresses idx with
       | Some addr => keys ++ [addr]
       | None => keys
       end)
    indexes fullKeys.

(** The loop [for (const lookup of lookups)]: the keys collected and
    the lookup-table cache.  The throttle before an RPC call only
    waits. *)
Fixpoint resolveLookups (rpc : Rpc) (lookups : list AddressTableLookup)
    (cache : gmap string (list string)) (fullKeys : list string)
  : list string * gmap string (list string) :=
  match lookups with
  | [] => (fullKeys, cache)
  | lookup :: rest =>
      let tableKey := lookup.(accountKey) in
      let add addresses keys :=
        pushAddresses addresses lookup.(readonlyIndexes)
          (pushAddresses addresses lookup.(writableIndexes) keys) in
      match cache !! tableKey with
      | Some tableAccount =>
          resolveLookups rpc rest cache (add tableAccount fullKeys)
      | None =>
          match rpc.(getAddressLookupTable) tableKey with
          | Throws _ => resolveLookups rpc rest cache fullKeys
          | Returns None => resolveLookups rpc rest cache fullKeys
          | Returns (Some tableAccount) =>
              resolveLookups rpc rest (<[tableKey := tableAccount]> cache)
                (add tableAccount fullKeys)
          end
      end
  end.

(** [resolveAccountKeys]; it throws when [isVersioned] is set on a
    transaction object that has no [message]. *)
Definition resolveAccountKeys (rpc : Rpc) (cache : gmap string (list string))
    (decodedTx : DecodedTransaction)
  : Outcome (list string) * gmap string (list string) :=
  if negb decodedTx.(isVersioned) then (Returns decodedTx.(accountKeys), cache)
  else
    match decodedTx.(dt_transaction) with
    | LegacyTransaction _ =>
        (Throws "Cannot read properties of undefined", cache)
    | VersionedTransaction _ lookups =>
        match lookups with
        | [] => (Returns decodedTx.(accountKeys), cache)
        | _ =>
            let '(fullKeys, cache) :=
              resolveLookups rpc lookups cache decodedTx.(accountKeys) in
            (Returns fullKeys, cache)
        end
    end.

(** [matchesDiscriminator] *)
Definition matchesDiscriminator (data : Uint8Array)
    (discriminators : list Uint8Array) : bool :=
  if (length data <? 8)%nat then false
  else
    existsb
      (λ discriminator,
         forallb (λ i, bool_decide (bufGet data i = bufGet discriminator i))
           (seqZ 0 8))
      discriminators.

Definition isDFlowSwapInstruction (data : Uint8Array) : bool :=
  matchesDiscriminator data DFLOW_SWAP_DISCRIMINATORS.

Definition isOkxSwapInstruction (data : Uint8Array) : bool :=
  matchesDiscriminator data OKX_SWAP_DISCRIMINATORS.

(** [identifyAggregatorFromInstructions] *)
Fixpoint identifyAggregatorFromInstructions
    (instructions : list ParsedInstruction) : Aggregator :=
  match instructions with
  | [] => unknown
  | ix :: rest =>
      if bool_decide (ix.(programId) = OKX_PROGRAM_ID)
         && (8 <=? length ix.(data))%nat && isOkxSwapInstruction ix.(data)
      then okx
      else if bool_decide (ix.(programId) = DFLOW_PROGRAM_ID)
              && (8 <=? length ix.(data))%nat
              && isDFlowSwapInstruction ix.(data)
      then dflow
      else identifyAggregatorFromInstructions rest
  end.

(** [findTrackedUserFromKeys] *)
Fixpoint findTrackedUserFromKeys (trackedUsers : gset string)
    (accountKeys : list string) : option string :=
  match accountKeys with
  | [] => None
  | address :: rest =>
      if bool_decide (address ∈ trackedUsers) then Some address
      else findTrackedUserFromKeys trackedUsers rest
  end.

(** [getInstructions] *)
Definition getInstructions (transaction : TransactionObject)
    (accountKeys : list string) : list ParsedInstruction :=
  match transaction with
  | VersionedTransaction compiledInstructions _ =>
      (λ ix,
         mkParsedInstruction (orEmpty (keyAt accountKeys ix.(programIdIndex)))
           ((λ idx, orEmpty (keyAt accountKeys idx)) <$> ix.(accountKeyIndexes))
           ix.(ci_data)) <$> compiledInstructions
  | LegacyTransaction instructions =>
      (λ ix, mkParsedInstruction ix.(li_programId) ix.(li_keys) ix.(li_data))
        <$> instructions
  end.

Record BalanceEntry := mkBalanceEntry { rawDelta : Z; be_decimals : Z }.

Record Delta := mkDelta {
  d_mint : string;
  delta : option number;     (* [None] is [NaN] *)
  deltaRaw : Z;
  decimals : Z;
}.

(** [x || 0] for a number. *)
Definition orZero (x : Z) (y : Z) : Z := if x =? 0 then y else x.

Definition amountOf (balance : TokenBalance) : Z :=
  match balance.(uiTokenAmount) with Some u => u.(ui_amount) | None => 0 end.

Definition decimalsOf (balance : TokenBalance) : Z :=
  match balance.(uiTokenAmount) with Some u => u.(ui_decimals) | None => 0 end.

(** The loop over [pre]: each entry of the user overwrites the entry
    of its mint. *)
Definition subtractPre (userAddress : option string)
    (pre : list TokenBalance) (balanceMap : OrderedMap BalanceEntry)
  : OrderedMap BalanceEntry :=
  fold_left
    (λ m balance,
       if bool_decide (balance.(tb_owner) = userAddress) then
         omapSet m balance.(tb_mint)
           (mkBalanceEntry (- amountOf balance) (decimalsOf balance))
       else m)
    pre balanceMap.

(** The loop over [post]. *)
Definition addPost (userAddress : option string)
    (post : list TokenBalance) (balanceMap : OrderedMap BalanceEntry)
  : OrderedMap BalanceEntry :=
  fold_left
    (λ m balance,
       if bool_decide (balance.(tb_owner) = userAddress) then
         let rawAmount := amountOf balance in
         let decimals := decimalsOf balance in
         let current :=
           default (mkBalanceEntry 0 decimals) (omapGet m balance.(tb_mint)) in
         omapSet m balance.(tb_mint)
           (mkBalanceEntry (current.(rawDelta) + rawAmount)
              (orZero decimals current.(be_decimals)))
       else m)
    post balanceMap.

(** The text [uiDeltaStr] built by digit placement. *)
Definition uiDeltaStr (rawDelta decimals : Z) : Text :=
  let rawDeltaStr := bigintToString rawDelta in
  let isNegative := startsWith rawDeltaStr "-"%char in
  let absRawDeltaStr :=
    if isNegative then strSliceFrom rawDeltaStr 1 else rawDeltaStr in
  let padded := padStart absRawDeltaStr (decimals + 1) "0"%char in
  let integerPart :=
    match strSlice padded 0 (- decimals) with
    | [] => ["0"%char]
    | s => s
    end in
  let decimalPart := strSliceFrom padded (- decimals) in
  (if isNegative then ["-"%char] else []) ++ integerPart ++ ["."%char]
    ++ decimalPart.

(** The UI delta of one map entry. *)
Definition uiDelta (rawDelta decimals : Z) : option number :=
  parseFloat (uiDeltaStr rawDelta decimals).

(** [Math.abs(x.delta) > 0.000001]; a comparison with [NaN] is false. *)
Definition notEffectivelyZero (d : Delta) : bool :=
  match d.(delta) with
  | Some x => gtb (Math_abs x) (ofFrac 1 1000000)
  | None => false
  end.

(** [extractTokenBalanceDeltas] *)
Definition extractTokenBalanceDeltas (tx : ParsedTransactionWithMeta)
    (userAddress : option string) : list Delta :=
  let pre := default [] (tx.(meta) ≫= preTokenBalances) in
  let post := default [] (tx.(meta) ≫= postTokenBalances) in
  let balanceMap := addPost userAddress post (subtractPre userAddress pre []) in
  filter (λ d, notEffectivelyZero d = true)
    ((λ '(mint, entry),
        mkDelta mint (uiDelta entry.(rawDelta) entry.(be_decimals))
          entry.(rawDelta) entry.(be_decimals)) <$> balanceMap).

(** [parseTradeDetailsFromBalanceDeltas] at time [now]; a failing RPC
    call is caught and gives [null]. *)
Definition parseTradeDetailsFromBalanceDeltas (rpc : Rpc) (now : Z)
    (decodedTx : DecodedTransaction) (aggregator : Aggregator)
    (userAddress : option string) : option DetectedTrade :=
  match rpc.(getParsedTransaction) decodedTx.(dt_signature) with
  | Throws _ => None
  | Returns None => None
  | Returns (Some tx) =>
      match tx.(meta) with
      | None => None
      | Some _ =>
          let deltas := extractTokenBalanceDeltas tx userAddress in
          let usdcDelta :=
            head (filter (λ d, d.(d_mint) = USDC_MINT) deltas) in
          let otherTokenDelta :=
            head (filter (λ d, d.(d_mint) ≠ USDC_MINT) deltas) in
          match usdcDelta, otherTokenDelta with
          | Some usdcDelta, Some otherTokenDelta =>
              let usdc := default 0%Qc usdcDelta.(delta) in
              let direction := if gtb usdc 0%Qc then sell else buy in
              let tokenDeltaRawValue := otherTokenDelta.(deltaRaw) in
              let tokenAmountRaw :=
                if tokenDeltaRawValue <? 0 then - tokenDeltaRawValue
                else tokenDeltaRawValue in
              Some
                (mkDetectedTrade decodedTx.(dt_signature) decodedTx.(dt_slot)
                   direction otherTokenDelta.(d_mint) (Math_abs usdc)
                   tokenAmountRaw userAddress aggregator now)
          | _, _ => None
          end
      end
  end.

(** [parseTradeDetails] *)
Definition parseTradeDetails (rpc : Rpc) (now : Z)
    (decodedTx : DecodedTransaction) (userAddress : option string)
    (fullAccountKeys : list string) : option DetectedTrade :=
  let keysToUse :=
    if (length decodedTx.(accountKeys) <? length fullAccountKeys)%nat
    then fullAccountKeys else decodedTx.(accountKeys) in
  let instructions := getInstructions decodedTx.(dt_transaction) keysToUse in
  let aggregator := identifyAggregatorFromInstructions instructions in
  match aggregator with
  | unknown => None
  | _ =>
      parseTradeDetailsFromBalanceDeltas rpc now decodedTx aggregator
        userAddress
  end.

(** The resolution step of [analyzeTransaction]: the full account
    keys, falling back to the static keys when the resolution
    throws. *)
Definition resolveFullAccountKeys (rpc : Rpc)
    (cache : gmap string (list string)) (decodedTx : DecodedTransaction)
  : list string * gmap string (list string) :=
  if decodedTx.(isVersioned) then
    match resolveAccountKeys rpc cache decodedTx with
    | (Returns keys, cache) => (keys, cache)
    | (Throws _, cache) => (decodedTx.(accountKeys), cache)
    end
  else (decodedTx.(accountKeys), cache).

(** [analyzeTransaction]: the events emitted and the lookup-table
    cache afterwards.  The two counters are left out. *)
Definition analyzeTransaction (rpc : Rpc) (now : Z)
    (trackedUsers : gset string) (cache : gmap string (list string))
    (decodedTx : DecodedTransaction)
  : list AnalyzerEvent * gmap string (list string) :=
  if bool_decide (VOTE_PROGRAM_ID ∈ decodedTx.(accountKeys)) then ([], cache)
  else
    let '(fullAccountKeys, cache) :=
      resolveFullAccountKeys rpc cache decodedTx in
    let userAddress := findTrackedUserFromKeys trackedUsers fullAccountKeys in
    if negb (truthyString userAddress) && (0 <? size trackedUsers)%nat
    then ([], cache)
    else
      let user :=
        if truthyString userAddress then userAddress
        else head decodedTx.(accountKeys) in
      match parseTradeDetails rpc now decodedTx user fullAccountKeys with
      | Some trade => ([TRADE trade], cache)
      | None => ([], cache)
      end.

End TradeAnalyzer.


(** ** services/jupiter-executor.ts: the pre-built cache in the buy path *)
Module JupiterExecutor.

Record QuoteResult := mkQuote {
  inputMint : string;
  outputMint : string;
  inAmount : Z;
  outAmount : Z;
}.

(** [PreBuiltTransaction]; the signed transaction is identified by its
    signature. *)
Record PreBuiltTransaction := mkPreBuilt {
  pb_signature : string;
  pb_quote : QuoteResult;
  blockhash : string;
  createdAt : Z;
  expiresAt : Z;
}.

#[global] Instance QuoteResult_eq_dec : EqDecision QuoteResult.
Proof. solve_decision. Defined.

#[global] Instance PreBuiltTransaction_eq_dec : EqDecision PreBuiltTransaction.
Proof. solve_decision. Defined.

Definition PREBUILT_TX_TTL : Z := 45000.

Record SwapResult := mkSwapResult {
  sr_signature : string;
  sr_inputMint : string;
  sr_outputMint : string;
  sr_inAmount : Z;
  sr_outAmount : Z;
  sr_confirmed : bool;
  sr_latencyMs : Z;
}.

(** One call of [buyToken], between two of its suspension points.  An
    [await] hands control back to the event loop, and any other call
    may run before this one is resumed. *)
Inductive BuyCall :=
| Called (tokenMint : string) (usdcAmount : number)
    (* invoked, body not yet run *)
| AwaitingSend (tokenMint : string) (usdcAmount : number) (startTime : Z)
    (cached : PreBuiltTransaction)
    (* suspended at [await this.sendPreBuiltTransaction(cached)] *)
| OnDemand (tokenMint : string) (usdcAmount : number)
    (* the fallback path: quote, build, sign and send on demand *)
| SentPreBuilt (cached : PreBuiltTransaction) (result : SwapResult).
    (* returned from the fast path *)

(** From the invocation to the first [await]: the cache is read, not
    changed. *)
Definition buyToken_start (now : Z)
    (txCache : gmap string PreBuiltTransaction)
    (tokenMint : string) (usdcAmount : number) : BuyCall :=
  match txCache !! tokenMint with
  | Some cached =>
      if now <? cached.(expiresAt)
      then AwaitingSend tokenMint usdcAmount now cached
      else OnDemand tokenMint usdcAmount
  | None => OnDemand tokenMint usdcAmount
  end.

(** From the settlement of [sendPreBuiltTransaction] to the [return],
    or to the fallback when the send was rejected.  The third
    component is the mint whose rebuild is started in the
    background. *)
Definition buyToken_afterSend (now : Z)
    (txCache : gmap string PreBuiltTransaction)
    (tokenMint : string) (usdcAmount : number) (startTime : Z)
    (cached : PreBuiltTransaction) (sent : Outcome string)
  : gmap string PreBuiltTransaction * BuyCall * option string :=
  match sent with
  | Returns signature =>
      (delete tokenMint txCache,
       SentPreBuilt cached
         (mkSwapResult signature cached.(pb_quote).(inputMint)
            cached.(pb_quote).(outputMint) cached.(pb_quote).(inAmount)
            cached.(pb_quote).(outAmount) false (now - startTime)),
       Some tokenMint)
  | Throws _ =>
      (delete tokenMint txCache, OnDemand tokenMint usdcAmount, None)
  end.

(** The executor with the calls of [buyToken] in flight. *)
Record Executor := mkExecutor {
  txCache : gmap string PreBuiltTransaction;
  calls : list BuyCall;
  rebuilding : list string;
}.

(** What the event loop may do next. *)
Inductive Action :=
| Start (call : nat) (now : Z)
    (* run the body of call number [call] up to its first [await] *)
| SendSettled (call : nat) (now : Z) (sent : Outcome string)
    (* the send that call number [call] awaits has settled with
       [sent]; run the call up to its [return] or its fallback *)
| RebuildDone (tokenMint : string) (entry : PreBuiltTransaction).
    (* a [preBuildTransaction] stores its entry *)

Definition step (ex : Executor) (a : Action) : Executor :=
  match a with
  | Start i now =>
      match ex.(calls) !! i with
      | Some (Called tokenMint usdcAmount) =>
          mkExecutor ex.(txCache)
            (<[i := buyToken_start now ex.(txCache) tokenMint usdcAmount]>
               ex.(calls))
            ex.(rebuilding)
      | _ => ex
      end
  | SendSettled i now sent =>
      match ex.(calls) !! i with
      | Some (AwaitingSend tokenMint usdcAmount startTime cached) =>
          let '(txCache, call, rebuild) :=
            buyToken_afterSend now ex.(txCache) tokenMint usdcAmount
              startTime cached sent in
          mkExecutor txCache (<[i := call]> ex.(calls))
            (ex.(rebuilding) ++ option_list rebuild)
      | _ => ex
      end
  | RebuildDone tokenMint entry =>
      mkExecutor (<[tokenMint := entry]> ex.(txCache)) ex.(calls)
        ex.(rebuilding)
  end.

Definition run (ex : Executor) (schedule : list Action) : Executor :=
  fold_left step schedule ex.

(** The pre-built entry a call has taken from the cache, if any. *)
Definition taken (c : BuyCall) : option PreBuiltTransaction :=
  match c with
  | AwaitingSend _ _ _ cached => Some cached
  | SentPreBuilt cached _ => Some cached
  | _ => None
  end.

(** The calls that took the pre-built entry [entry]. *)
Definition takers (entry : PreBuiltTransaction) (ex : Executor)
  : list BuyCall :=
  filter (λ c, taken c = Some entry) ex.(calls).

Definition PREBUILT_TX_REFRESH_INTERVAL : Z := 30000.

(** Step 5 of [preBuildTransaction] at time [now]: the entry stored for
    the transaction just signed. *)
Definition preBuiltEntry (now : Z) (signature : string) (quote : QuoteResult)
    (blockhash : string) : PreBuiltTransaction :=
  mkPreBuilt signature quote blockhash now (now + PREBUILT_TX_TTL).

(** The condition of [refreshPreBuiltTransactions] at time [now]: no
    entry, or an entry that has expired or expires within 15 s. *)
Definition needsRefresh (now : Z) (txCache : gmap string PreBuiltTransaction)
    (tokenMint : string) : bool :=
  match txCache !! tokenMint with
  | None => true
  | Some cached => cached.(expiresAt) - now <? 15000
  end.

(** The selection loop of [refreshPreBuiltTransactions]. *)
Definition tokensToRefresh (now : Z) (txCache : gmap string PreBuiltTransaction)
    (allowedTokens : list string) : list string :=
  List.filter (needsRefresh now txCache) allowedTokens.

End JupiterExecutor.

(** ** services/copy-trade-engine.ts: [processTrade] *)
Module CopyTradePipeline.
Import PositionManager TradeFilter TradeAnalyzer.

#[global] Instance TradeDirection_eq_dec : EqDecision TradeDirection.
Proof. solve_decision. Defined.

Record CopyTradeConfig := mkCopyTradeConfig {
  tradeAmountUsdc : number;
  allowedTokens : list string;
  copyBuysOnly : bool;
  minTradeUsdc : number;
}.

(** The [reason] of a [copy_skipped] event, with its [details]. *)
Inductive SkipReason :=
| sell_trade
| token_not_allowed
| below_minimum
| already_copying
| smart_filter (details : option FilterReason)
| risk_limit (details : option RejectReason).

(** What the engine reads of the [SwapResult] of the executor:
    [cr_outAmount] is [BigInt(copyResult.outAmount)], [None] when the
    text is not an integer literal and [BigInt] throws. *)
Record CopyResult := mkCopyResult {
  cr_error : option string;
  cr_signature : string;
  cr_outAmount : option Z;
}.

Inductive CopyTradeEvent :=
| COPY_INITIATED (trade : DetectedTrade)
| COPY_COMPLETE (originalTrade : DetectedTrade) (copyResult : CopyResult)
| COPY_SKIPPED (trade : DetectedTrade) (reason : SkipReason)
| COPY_FAILED (trade : DetectedTrade).

(** The counters of [stats]; the accumulated latency is left out. *)
Record Stats := mkStats {
  tradesDetected : Z;
  tradesFiltered : Z;
  tradesRiskRejected : Z;
  copyAttempts : Z;
  copySuccesses : Z;
  copyFailures : Z;
}.

(** The engine with the two optional services it was built with: the
    trade filter ([filterConfig], with its metadata cache) and the
    position manager ([riskLimits], with its ledger). *)
Record Engine := mkEngine {
  config : CopyTradeConfig;
  filterConfig : option FilterConfig;
  riskLimits : option RiskLimits;
  stats : Stats;
  pendingCopies : gset string;
  metadataCache : gmap string TokenMetadata;
  positions : gmap string Position;
}.

(** What the outside world answers during one call: the metadata
    request of the filter (at [filterNow]), the USDC balance of the
    wallet, and the outcome of [buyToken] or [sellTokenForUsdcAmount];
    [recordNow] is the time of the ledger update. *)
Record World := mkWorld {
  filterNow : Z;
  metadataResponse : FetchResponse;
  usdcBalance : number;
  copyOutcome : Outcome CopyResult;
  recordNow : Z;
}.

Definition withStats (e : Engine) (st : Stats) : Engine :=
  mkEngine e.(config) e.(filterConfig) e.(riskLimits) st e.(pendingCopies)
    e.(metadataCache) e.(positions).

Definition withPending (e : Engine) (pending : gset string) : Engine :=
  mkEngine e.(config) e.(filterConfig) e.(riskLimits) e.(stats) pending
    e.(metadataCache) e.(positions).

Definition withMetadataCache (e : Engine)
    (cache : gmap string TokenMetadata) : Engine :=
  mkEngine e.(config) e.(filterConfig) e.(riskLimits) e.(stats)
    e.(pendingCopies) cache e.(positions).

Definition withPositions (e : Engine) (ledger : gmap string Position)
  : Engine :=
  mkEngine e.(config) e.(filterConfig) e.(riskLimits) e.(stats)
    e.(pendingCopies) e.(metadataCache) ledger.

Definition detected (st : Stats) : Stats :=
  mkStats (st.(tradesDetected) + 1) st.(tradesFiltered)
    st.(tradesRiskRejected) st.(copyAttempts) st.(copySuccesses)
    st.(copyFailures).

Definition filtered (st : Stats) : Stats :=
  mkStats st.(tradesDetected) (st.(tradesFiltered) + 1)
    st.(tradesRiskRejected) st.(copyAttempts) st.(copySuccesses)
    st.(copyFailures).

Definition riskRejected (st : Stats) : Stats :=
  mkStats st.(tradesDetected) st.(tradesFiltered)
    (st.(tradesRiskRejected) + 1) st.(copyAttempts) st.(copySuccesses)
    st.(copyFailures).

Definition attempted (st : Stats) : Stats :=
  mkStats st.(tradesDetected) st.(tradesFiltered) st.(tradesRiskRejected)
    (st.(copyAttempts) + 1) st.(copySuccesses) st.(copyFailures).

Definition succeeded (st : Stats) : Stats :=
  mkStats st.(tradesDetected) st.(tradesFiltered) st.(tradesRiskRejected)
    st.(copyAttempts) (st.(copySuccesses) + 1) st.(copyFailures).

Definition failed (st : Stats) : Stats :=
  mkStats st.(tradesDetected) st.(tradesFiltered) st.(tradesRiskRejected)
    st.(copyAttempts) st.(copySuccesses) (st.(copyFailures) + 1).

(** The result of one call: the engine afterwards, the events of the
    engine and the events of the position manager. *)
Definition Processed : Type :=
  Engine * list CopyTradeEvent * list PositionEvent.

(** A [return] after [tradesFiltered++] and a [copy_skipped] event. *)
Definition skip (e : Engine) (trade : DetectedTrade) (reason : SkipReason)
  : Processed :=
  (withStats e (filtered e.(stats)), [COPY_SKIPPED trade reason], []).

(** The [try] / [catch] / [finally] around the copy; [e] is the engine
    after [copy_initiated], [warnings] the events of the risk check. *)
Definition executeCopy (e : Engine) (w : World) (trade : DetectedTrade)
    (warnings : list PositionEvent) : Processed :=
  let '(e, events, ledgerEvents) :=
    match w.(copyOutcome) with
    | Throws _ =>
        (* catch *)
        (withStats e (failed e.(stats)), [COPY_FAILED trade], [])
    | Returns copyResult =>
        if truthyString copyResult.(cr_error) then
          (withStats e (failed e.(stats)), [COPY_FAILED trade], [])
        else
          let e := withStats e (succeeded e.(stats)) in
          match e.(riskLimits) with
          | None => (e, [COPY_COMPLETE trade copyResult], [])
          | Some _ =>
              match copyResult.(cr_outAmount) with
              | None =>
                  (* [BigInt] throws: catch *)
                  (withStats e (failed e.(stats)), [COPY_FAILED trade], [])
              | Some tokenAmount =>
                  let '(ledger, ledgerEvents) :=
                    CopyTradeEngine.recordCopy e.(positions) w.(recordNow)
                      trade.(direction) trade.(tokenMint) tokenAmount
                      e.(config).(tradeAmountUsdc) copyResult.(cr_signature) in
                  (withPositions e ledger, [COPY_COMPLETE trade copyResult],
                   ledgerEvents)
              end
          end
    end in
  (* finally *)
  (withPending e (e.(pendingCopies) ∖ {[ trade.(signature) ]}),
   COPY_INITIATED trade :: events, warnings ++ ledgerEvents).

(** [processTrade], run from its first line to its last without another
    call in between. *)
Definition processTrade (e : Engine) (w : World) (trade : DetectedTrade)
  : Processed :=
  let e := withStats e (detected e.(stats)) in
  (* Filter 1: only copy buys *)
  if e.(config).(copyBuysOnly)
     && negb (bool_decide (trade.(direction) = buy))
  then skip e trade sell_trade else
  (* Filter 2: token allowlist *)
  if (0 <? length e.(config).(allowedTokens))%nat
     && negb (bool_decide (trade.(tokenMint) ∈ e.(config).(allowedTokens)))
  then skip e trade token_not_allowed else
  (* Filter 3: minimum trade size *)
  if ltb trade.(usdcAmount) e.(config).(minTradeUsdc)
  then skip e trade below_minimum else
  (* Filter 4: duplicate copies *)
  if bool_decide (trade.(signature) ∈ e.(pendingCopies))
  then skip e trade already_copying else
  (* Filter 5: smart trade filters *)
  let '(filterResult, cache) :=
    match e.(filterConfig) with
    | Some fc =>
        let '(r, cache) :=
          shouldCopyTrade fc e.(metadataCache) w.(metadataResponse)
            w.(filterNow) trade.(tokenMint) e.(config).(tradeAmountUsdc) in
        (Some r, cache)
    | None => (None, e.(metadataCache))
    end in
  let e := withMetadataCache e cache in
  match filterResult with
  | Some (mkFilterResult false reason _) =>
      skip e trade (smart_filter reason)
  | _ =>
  (* Filter 6: position risk limits *)
  let '(riskCheck, warnings) :=
    match e.(riskLimits) with
    | Some limits =>
        let '(r, warnings) :=
          canTrade limits e.(positions) trade.(tokenMint) trade.(direction)
            e.(config).(tradeAmountUsdc) w.(usdcBalance) in
        (Some r, warnings)
    | None => (None, [])
    end in
  match riskCheck with
  | Some (mkTradeCheckResult false reason _) =>
      (withStats e (riskRejected e.(stats)),
       [COPY_SKIPPED trade (risk_limit reason)], warnings)
  | _ =>
      let e := withPending e ({[ trade.(signature) ]} ∪ e.(pendingCopies)) in
      let e := withStats e (attempted e.(stats)) in
      executeCopy e w trade warnings
  end
  end.

End CopyTradePipeline.

(** ** The ledger and the exit manager side by side *)
Module Lifecycle.
Import PositionManager ExitManager.

Record System := mkSystem {
  ledger : gmap string Position;
  exitStates : gmap string PositionExitState;
}.

(** Everything that touches the ledger or the exit states.  A check of
    one position is a step of its own, for any position value: the
    snapshot of [checkAllPositions] is processed across [await]s, and
    the positions it holds may have been changed or closed in the
    meantime. *)
Inductive step : System → System → Prop :=
| step_recordBuy s now mint raw usdc price sig sym :
    step s
      (mkSystem (recordBuy s.(ledger) now mint raw usdc price sig sym).1
         s.(exitStates))
| step_recordSell s mint raw usdc sig :
    step s
      (mkSystem (recordSell s.(ledger) mint raw usdc sig).1.2 s.(exitStates))
| step_checkPosition s strategy sellToken now prices position :
    step s
      (mkSystem s.(ledger)
         (checkPosition strategy sellToken now prices s.(exitStates)
            position).1)
| step_checkAllPositions s strategy sellToken now prices :
    step s
      (mkSystem s.(ledger)
         (checkAllPositions strategy sellToken now prices
            (getPositions s.(ledger)) s.(exitStates)).1).

(** The exit event an emitted event carries. *)
Definition exitEventOf (e : ExitManagerEvent) : ExitEvent :=
  match e with
  | EXIT_TRIGGERED ev => ev
  | EXIT_EXECUTED ev _ => ev
  | EXIT_FAILED ev => ev
  end.

End Lifecycle.

(** ** Inputs and notions used in the statements *)

Section DecodingInputs.
Import Binary SolanaTx Entries.

(** A legacy transaction cut off inside its only instruction: one
    signature, an empty key table, a blockhash, and an instruction that
    announces 127 account indexes where the buffer ends. *)
Definition truncatedInstructionTx : Uint8Array :=
  bytesOf ([1] ++ replicate 64 0 ++ [1; 0; 0] ++ [0] ++ replicate 32 0
             ++ [1; 0; 127]).

(** A payload of one entry that announces one transaction and carries
    a single byte 0 (no signature) in its place. *)
Definition zeroScanPayload : Uint8Array :=
  u64le 1 ++ u64le 100 ++ bytesOf (replicate 32 170) ++ u64le 1 ++ bytesOf [0].

(** The transactions kept for one entry: [measuredFrom entriesBytes left
    offset transactions next] reads "with [left] transactions still
    announced and the read position at [offset], the decoder keeps
    [transactions] and goes on at [next]".  It stops when no transaction
    is left, at the end of the data, or at a scan that returns 0; what
    was measured before stays. *)
Inductive measuredFrom (entriesBytes : Uint8Array)
  : Z → Z → list Uint8Array → Z → Prop :=
| measured_all left offset :
    left ≤ 0 → measuredFrom entriesBytes left offset [] offset
| measured_end_of_data left offset :
    0 < left → bufLength entriesBytes ≤ offset →
    measuredFrom entriesBytes left offset [] offset
| measured_zero_scan left offset :
    0 < left → offset < bufLength entriesBytes →
    measureTransactionSize (bufSliceFrom entriesBytes offset) = 0 →
    measuredFrom entriesBytes left offset [] offset
| measured_transaction left offset txSize transactions next :
    0 < left → offset < bufLength entriesBytes →
    measureTransactionSize (bufSliceFrom entriesBytes offset) = txSize →
    txSize ≠ 0 →
    measuredFrom entriesBytes (left - 1) (offset + txSize) transactions next →
    measuredFrom entriesBytes left offset
      (bufSlice entriesBytes offset (offset + txSize) :: transactions) next.

(** An entry in front of the result of the entries after it. *)
Definition consEntry (entry : SolanaEntry) (rest : DeserializeResult)
  : DeserializeResult :=
  match rest with
  | Entries_ entries => Entries_ (entry :: entries)
  | CannotReadTxVecLength offset => CannotReadTxVecLength offset
  end.

(** The result of decoding [left] entries from [offset]: an error only
    where the 8-byte transaction count of an entry does not fit inside
    the buffer; otherwise the entry with its [measuredFrom] transactions,
    and the next entry read from where these stopped. *)
Inductive decodedFrom (entriesBytes : Uint8Array)
  : Z → Z → DeserializeResult → Prop :=
| decoded_all left offset :
    left ≤ 0 → decodedFrom entriesBytes left offset (Entries_ [])
| decoded_count_outside left offset :
    0 < left → bufLength entriesBytes < offset + 48 →
    decodedFrom entriesBytes left offset (CannotReadTxVecLength (offset + 40))
| decoded_entry left offset transactions next rest :
    0 < left → offset + 48 ≤ bufLength entriesBytes →
    measuredFrom entriesBytes (readU64 entriesBytes (offset + 40))
      (offset + 48) transactions next →
    decodedFrom entriesBytes (left - 1) next rest →
    decodedFrom entriesBytes left offset
      (consEntry
         (mkSolanaEntry (readU64 entriesBytes offset)
            (bufSlice entriesBytes (offset + 8) (offset + 40)) transactions)
         rest).

(** Two entries; the first announces one transaction and carries the
    byte 0 in its place, so the second is read one byte after the first
    and its transaction count lies outside the 96 bytes. *)
Definition zeroScanThenEntry : Uint8Array :=
  u64le 2 ++ u64le 100 ++ bytesOf (replicate 32 170) ++ u64le 1 ++ bytesOf [0]
    ++ bytesOf (replicate 39 0).

(** The entries read so far in front of the result of the rest. *)
Definition afterEntries (entries : list SolanaEntry) (rest : DeserializeResult)
  : DeserializeResult := foldr consEntry rest entries.

End DecodingInputs.

Section LedgerInputs.
Import PositionManager64.

(** The position the ledger holds for a mint. *)
Definition held (positions : OrderedMap Position) (mint : string)
  : option Position :=
  (list_to_map positions : gmap string Position) !! mint.

(** The cost already committed to a mint: the cost of its position, or
    0 without a position. *)
Definition committedCost (positions : OrderedMap Position) (mint : string)
  : double :=
  match held positions mint with
  | Some p => totalCostUsdc p
  | None => 0%float
  end.

(** The costs of the positions, oldest position first. *)
Definition costs (positions : OrderedMap Position) : list double :=
  (λ kv, totalCostUsdc kv.2) <$> positions.

(** Doubles added one after the other to [sum]. *)
Fixpoint addedTo (sum : double) (terms : list double) : double :=
  match terms with
  | [] => sum
  | term :: terms => addedTo (sum + term)%float terms
  end.

(** The total exposure: the costs of all positions added up from 0. *)
Definition totalExposure (positions : OrderedMap Position) : double :=
  addedTo 0%float (costs positions).

(** Every position within the per-position limit: none with a cost
    above it. *)
Definition sizesWithin (limits : RiskLimits) (positions : OrderedMap Position)
  : Prop :=
  Forall
    (λ kv : string * Position,
       (maxPositionSizeUsdc limits <? totalCostUsdc kv.2)%float = false)
    positions.

(** The limits of the scenario: $4 per position and $10 of reserve. *)
Definition scenarioLimits (maxExposure maxPositions : double) : RiskLimits :=
  mkRiskLimits 4%float maxExposure maxPositions 10%float.

(** A position of a given cost. *)
Definition positionOf (mint : string) (cost : double) : string * Position :=
  (mint, mkPosition mint None 1000 (cost / 1000)%float cost 0 ["buy"%string] 1 0).

(** The defaults of the configuration: $50 per position, $200 in
    total, 10 positions, $10 of reserve. *)
Definition defaultRiskLimits64 : RiskLimits :=
  mkRiskLimits 50%float 200%float 10%float 10%float.

End LedgerInputs.

Section FilterInputs.
Import TradeFilter.

(** The defaults of the configuration table. *)
Definition defaultFilterConfig : FilterConfig :=
  mkFilterConfig true (ofZ 50000) (ofZ 2) (ofZ 3600) (ofZ 10000) (ofZ 50)
    ["EKpQGSJtjMFqKZ9KQanSqYXRcF8fBopzLHYxdM65zcjm"%string].

End FilterInputs.

Section WatchlistInputs.
Import TradeAnalyzer.

(** The buy of the first end-to-end scenario: a legacy transaction of
    the user with one swap instruction of the second aggregator, and
    the executed-transaction metadata the RPC provider reports for it:
    USDC (6 decimals) from 10 to 7.95, the token (9 decimals) from 0
    to 46672314888 smallest units. *)
Definition scenarioUser : string := "8ZhZwcho7jy4Ssnv1EjaNDbEbHSQbFyzFGSCjhzBP7vt".
Definition scenarioMint : string := "9223LqDuoJXyhCtvi54DUQPGS8Xf29kUEQRr1444moon".

Definition scenarioTx : DecodedTransaction :=
  mkDecodedTransaction "5LUCV1q6" 
    (LegacyTransaction
       [mkLegacyInstruction DFLOW_PROGRAM_ID [scenarioUser]
          (bytesOf [65; 75; 63; 76; 235; 91; 91; 136; 1; 2; 3])])
    [scenarioUser; DFLOW_PROGRAM_ID] 377000000 false.

Definition scenarioMeta : ParsedTransactionWithMeta :=
  mkParsedTx
    (Some
       (mkMeta
          (Some [mkTokenBalance USDC_MINT (Some scenarioUser)
                   (Some (mkUiTokenAmount 10000000 6))])
          (Some [mkTokenBalance USDC_MINT (Some scenarioUser)
                   (Some (mkUiTokenAmount 7950000 6));
                 mkTokenBalance scenarioMint (Some scenarioUser)
                   (Some (mkUiTokenAmount 46672314888 9))]))).

Definition scenarioRpc : Rpc :=
  mkRpc (λ _, Returns None) (λ _, Returns (Some scenarioMeta)).

End WatchlistInputs.

Section PreBuiltInputs.
Import JupiterExecutor.

Definition WIF_MINT : string := "EKpQGSJtjMFqKZ9KQanSqYXRcF8fBopzLHYxdM65zcjm".

(** A pre-built buy of $2 of WIF, valid until 45 s after its build. *)
Definition preBuiltWif : PreBuiltTransaction :=
  mkPreBuilt "3dbfKjKZ" (mkQuote USDC_MINT WIF_MINT 2000000 6084613)
    "blockhash" 0 45000.

(** Two copies of trades in the same mint are started while the cache
    holds one pre-built entry for it. *)
Definition twoBuys : Executor :=
  mkExecutor {[ WIF_MINT := preBuiltWif ]}
    [Called WIF_MINT (ofZ 2); Called WIF_MINT (ofZ 2)] [].

(** The second call starts while the first awaits its send. *)
Definition overlapping : list Action :=
  [Start 0 33010; Start 1 33020;
   SendSettled 0 33267 (Returns "3dbfKjKZ");
   SendSettled 1 33280 (Returns "3dbfKjKZ")].

End PreBuiltInputs.

Section ExitStateInputs.
Import PositionManager ExitManager Lifecycle.

(** One exit state extends another: no target forgotten, the
    high-water mark not lowered. *)
Definition extends (st st' : PositionExitState) : Prop :=
  tpHit st ⊆ tpHit st' ∧ (highWaterMark st ≤ highWaterMark st')%Qc.

(** A closed position whose exit state stays behind: WIF bought at
    $0.001234 per unit, the 50% target already marked, the high-water
    mark at $0.001851. *)
Definition wifExitState : PositionExitState :=
  mkExitState {[ ofZ 50 ]} (ofFrac 1851 1000000).

Definition wifOpen : System :=
  mkSystem
    (recordBuy ∅ 0 WIF_MINT 1000 (ofFrac 1234 1000) (ofFrac 1234 1000000)
       "buy1" None).1
    {[ WIF_MINT := wifExitState ]}.

(** The position is sold in full and leaves the ledger. *)
Definition wifClosed : System :=
  mkSystem
    (recordSell (ledger wifOpen) WIF_MINT 1000 (ofFrac 1851 1000) "sell1").1.2
    (exitStates wifOpen).

(** Then a new position is opened in the same mint at $0.001000. *)
Definition wifReopened : System :=
  mkSystem
    (recordBuy (ledger wifClosed) 100 WIF_MINT 2000 (ofZ 2) (ofFrac 1 1000)
       "buy2" None).1
    (exitStates wifClosed).

End ExitStateInputs.

Section DigitsInputs.

(** A text of decimal digits. *)
Definition allDigits (s : Text) : Prop := Forall (λ c, isDigit c = true) s.

(** A text that does not begin with a digit. *)
Definition noLeadingDigit (s : Text) : Prop :=
  match s with
  | c :: _ => isDigit c = false
  | [] => True
  end.

End DigitsInputs.

Section EncodingNotions.
Import Entries EntriesTest.

(** An entry as the tests write it: a 32-byte hash and no
    transactions. *)
Definition emptyEntry (e : EntryInput) : Prop :=
  length e.(in_hash) = 32%nat ∧ e.(in_txCount) = 0 ∧ e.(in_transactions) = [].

(** The bytes [createEntryBytes] writes for one entry. *)
Definition encodeEntry (e : EntryInput) : Uint8Array :=
  u64le e.(in_numHashes) ++ e.(in_hash) ++ u64le e.(in_txCount)
    ++ concat e.(in_transactions).

(** The entry the decoder is expected to return for an [emptyEntry]. *)
Definition decoded (e : EntryInput) : SolanaEntry :=
  mkSolanaEntry (e.(in_numHashes) mod 2 ^ 64) e.(in_hash) [].

(** The smallest transaction the measurement accepts: one signature,
    the three header bytes, an empty key table and a block hash. *)
Definition minimalTx : Uint8Array :=
  bytesOf ([1] ++ replicate 64 0 ++ [1; 0; 0] ++ [0] ++ replicate 32 0).

(** A payload of one entry that carries [minimalTx]. *)
Definition oneTxPayload : Uint8Array :=
  u64le 1 ++ u64le 100 ++ bytesOf (replicate 32 170) ++ u64le 1 ++ minimalTx.

End EncodingNotions.

Section LedgerNotions.
Import PositionManager.

(** One call of [recordBuy] or of [recordSell]. *)
Inductive LedgerOp :=
| OpBuy (now : Z) (tokenMint : string) (tokenAmount : Z)
    (usdcSpent pricePerToken : number) (signature : string)
    (symbol : option string)
| OpSell (tokenMint : string) (tokenAmount : Z) (usdcReceived : number)
    (signature : string).

Definition applyOp (positions : gmap string Position) (op : LedgerOp)
  : gmap string Position :=
  match op with
  | OpBuy now mint raw usdc price sig sym =>
      (recordBuy positions now mint raw usdc price sig sym).1
  | OpSell mint raw usdc sig => (recordSell positions mint raw usdc sig).1.2
  end.

(** A buy of a positive amount; any sell. *)
Definition positiveBuy (op : LedgerOp) : Prop :=
  match op with
  | OpBuy _ _ raw _ _ _ _ => 0 < raw
  | OpSell _ _ _ _ => True
  end.

(** What every position of the ledger satisfies. *)
Definition wellFormed (positions : gmap string Position) : Prop :=
  ∀ mint p, positions !! mint = Some p →
    tokenMint p = mint
    ∧ 0 < amount p
    ∧ 1 ≤ buyCount p ∧ 0 ≤ sellCount p
    ∧ Z.of_nat (length (trades p)) = buyCount p + sellCount p.



Definition sumZ (l : list Z) : Z := foldr Z.add 0 l.

(** The defaults of the configuration: $50 per position, $200 in
    total, 10 positions, $10 of reserve. *)
Definition defaultRiskLimits : RiskLimits :=
  mkRiskLimits (ofZ 50) (ofZ 200) (ofZ 10) (ofZ 10).

(** A ledger of one position: 1000 units bought for $1.234. *)
Definition onePosition : Position :=
  mkPosition "EKpQGSJtjMFqKZ9KQanSqYXRcF8fBopzLHYxdM65zcjm" None 1000
    (ofFrac 1234 1000000) (ofFrac 1234 1000) 0 ["buy1"%string] 1 0.

Definition oneLedger : gmap string Position :=
  <["EKpQGSJtjMFqKZ9KQanSqYXRcF8fBopzLHYxdM65zcjm"%string := onePosition]> ∅.

(** A buy, a partial sell, another buy and a sell that exceeds the
    position. *)
Definition someOps : list LedgerOp :=
  [OpBuy 0 "EKpQGSJtjMFqKZ9KQanSqYXRcF8fBopzLHYxdM65zcjm" 1000 (ofZ 2)
     (ofFrac 2 1000) "buy1" None;
   OpSell "EKpQGSJtjMFqKZ9KQanSqYXRcF8fBopzLHYxdM65zcjm" 400 (ofZ 1) "sell1";
   OpBuy 5 "EKpQGSJtjMFqKZ9KQanSqYXRcF8fBopzLHYxdM65zcjm" 100 (ofZ 2)
     (ofFrac 2 100) "buy2" None;
   OpSell "EKpQGSJtjMFqKZ9KQanSqYXRcF8fBopzLHYxdM65zcjm" 5000 (ofZ 9) "sell2"].


End LedgerNotions.

Section ExitNotions.
Import PositionManager ExitManager.

(** The defaults of the configuration: the ladder [50:25,100:50,300:100],
    a stop loss at -30%, 24 h of hold time and no trailing stop. *)
Definition defaultExitStrategy : ExitStrategy :=
  mkExitStrategy
    [mkTarget (ofZ 50) (ofZ 25); mkTarget (ofZ 100) (ofZ 50);
     mkTarget (ofZ 300) (ofZ 100)]
    (ofZ (-30)) (Some (ofZ 24)) None None.

(** The same with the trailing stop of the interface's examples: 20%
    from the high once the profit has reached 50%. *)
Definition trailingExitStrategy : ExitStrategy :=
  mkExitStrategy (takeProfitTargets defaultExitStrategy)
    (stopLossPercent defaultExitStrategy)
    (maxHoldTimeHours defaultExitStrategy) (Some (ofZ 20)) (Some (ofZ 50)).

(** An executor whose sells all fail, and one that sells at most 1000
    units. *)
Definition failingSell : SellToken := λ _ _, None.

Definition cappedSell : SellToken :=
  λ _ quantity, if quantity <=? 1000 then Some "sig"%string else None.

Definition uncappedSell : SellToken := λ _ _, Some "sig"%string.

End ExitNotions.

Section FilterNotions.
Import TradeFilter.

(** A metadata cache whose entries hold the one price sample of their
    fetch. *)
Definition singleSample (cache : gmap string TokenMetadata) : Prop :=
  ∀ mint metadata, cache !! mint = Some metadata →
                   length (priceHistory metadata) = 1%nat.

(** The five thresholds, on the metadata the filter decides with. *)
Definition passesThresholds (config : FilterConfig)
    (metadata : TokenMetadata) (priceImpact recentPump : number) : Prop :=
  (minLiquidityUsdc config ≤ liquidity metadata)%Qc
  ∧ (minTokenAgeSeconds config ≤ tokenAge metadata)%Qc
  ∧ (min24hVolumeUsdc config ≤ volume24h metadata)%Qc
  ∧ (priceImpact ≤ maxPriceImpactPercent config)%Qc
  ∧ (recentPump ≤ maxRecentPumpPercent config)%Qc.

(** Metadata of a liquid, old, traded token, fetched at time 0 at a
    price of $1. *)
Definition sampleMetadata : TokenMetadata :=
  mkTokenMetadata "9223LqDuoJXyhCtvi54DUQPGS8Xf29kUEQRr1444moon"
    (ofZ 80000) (ofZ 20000) (ofZ 86400) 0 [mkPricePoint (ofZ 1) 0] 0.

Definition sampleCache : gmap string TokenMetadata :=
  <["9223LqDuoJXyhCtvi54DUQPGS8Xf29kUEQRr1444moon"%string := sampleMetadata]> ∅.

(** The answer of the metadata API for such a token. *)
Definition sampleResponse : FetchResponse :=
  Body (Some [mkPair (Some (ofZ 80000)) (Some (ofZ 20000)) 0 (Some (ofZ 1))]).

End FilterNotions.

Section AnalyzerNotions.
Import TradeAnalyzer.

(** An instruction of [program] whose first eight bytes are one of
    [discriminators]. *)
Definition swapOf (program : string) (discriminators : list Uint8Array)
    (ix : ParsedInstruction) : Prop :=
  programId ix = program
  ∧ (8 ≤ length (data ix))%nat
  ∧ take 8 (data ix) ∈ discriminators.

(** An instruction that the classifier recognises. *)
Definition recognised (ix : ParsedInstruction) : Prop :=
  swapOf OKX_PROGRAM_ID OKX_SWAP_DISCRIMINATORS ix
  ∨ swapOf DFLOW_PROGRAM_ID DFLOW_SWAP_DISCRIMINATORS ix.

(** The raw balance of [owner] in [mint] according to a list of token
    balances: the sum over the token accounts of the owner. *)
Definition balanceOf (owner : option string) (mint : string)
    (balances : list TokenBalance) : Z :=
  sumZ
    (amountOf
       <$> filter (λ b, tb_owner b = owner ∧ tb_mint b = mint) balances).

(** The mints of the token accounts of [owner], one per account. *)
Definition mintsOf (owner : option string) (balances : list TokenBalance)
  : list string :=
  tb_mint <$> filter (λ b, tb_owner b = owner) balances.

(** The raw delta a balance map holds for a mint, 0 without an
    entry. *)
Definition rawOf (m : OrderedMap BalanceEntry) (mint : string) : Z :=
  default 0 (rawDelta <$> omapGet m mint).

(** What a detected trade of [decodedTx] looks like. *)
Definition tradeShape (decodedTx : DecodedTransaction) (now : Z)
    (trackedUsers : gset string) (trade : DetectedTrade) : Prop :=
  signature trade = dt_signature decodedTx
  ∧ slot trade = dt_slot decodedTx
  ∧ detectedAt trade = now
  ∧ tokenMint trade ≠ USDC_MINT
  ∧ (ofFrac 1 1000000 < usdcAmount trade)%Qc
  ∧ 0 ≤ tokenAmount trade
  ∧ aggregator trade ≠ unknown
  ∧ (VOTE_PROGRAM_ID ∉ accountKeys decodedTx)
  ∧ (trackedUsers ≠ ∅ →
     ∃ user, userAddress trade = Some user ∧ user ∈ trackedUsers).

(** A user with two token accounts of one mint before the transaction
    (5 and 7 units) and one after it (12 units). *)
Definition twoAccountsMeta : ParsedTransactionWithMeta :=
  mkParsedTx
    (Some
       (mkMeta
          (Some [mkTokenBalance "9223LqDuoJXyhCtvi54DUQPGS8Xf29kUEQRr1444moon"
                   (Some "8ZhZwcho7jy4Ssnv1EjaNDbEbHSQbFyzFGSCjhzBP7vt"%string)
                   (Some (mkUiTokenAmount 5 1));
                 mkTokenBalance "9223LqDuoJXyhCtvi54DUQPGS8Xf29kUEQRr1444moon"
                   (Some "8ZhZwcho7jy4Ssnv1EjaNDbEbHSQbFyzFGSCjhzBP7vt"%string)
                   (Some (mkUiTokenAmount 7 1))])
          (Some [mkTokenBalance "9223LqDuoJXyhCtvi54DUQPGS8Xf29kUEQRr1444moon"
                   (Some "8ZhZwcho7jy4Ssnv1EjaNDbEbHSQbFyzFGSCjhzBP7vt"%string)
                   (Some (mkUiTokenAmount 12 1))]))).

(** A lookup table that is already cached, and two RPC providers that
    disagree about it. *)
Definition cachedTable : gmap string (list string) :=
  <["4Nd1mBQtrMJVYVfKf2PJy9NZUZdTAsp7D4xWLs4gDB4T"%string :=
      ["So11111111111111111111111111111111111111112"%string]]> ∅.

Definition tableLookups : list AddressTableLookup :=
  [mkLookup "4Nd1mBQtrMJVYVfKf2PJy9NZUZdTAsp7D4xWLs4gDB4T" [0] []].

Definition failingRpc : Rpc :=
  mkRpc (λ _, Throws "429") (λ _, Throws "429").

End AnalyzerNotions.

Section PipelineNotions.
Import PositionManager CopyTradePipeline.

(** The trades counted as filtered, rejected or attempted. *)
Definition disposed (st : Stats) : Z :=
  tradesFiltered st + tradesRiskRejected st + copyAttempts st.

(** The attempts counted as successes or failures. *)
Definition concluded (st : Stats) : Z := copySuccesses st + copyFailures st.

(** The executor answered with an amount that [BigInt] accepts. *)
Definition integerOutAmount (w : World) : Prop :=
  ∀ copyResult, copyOutcome w = Returns copyResult →
                is_Some (cr_outAmount copyResult).

(** An engine with the default configuration ($2 per copy, WIF only,
    buys and sells, no minimum), the default filter and the default
    risk limits, before its first trade. *)
Definition freshEngine : Engine :=
  mkEngine
    (mkCopyTradeConfig (ofZ 2)
       ["EKpQGSJtjMFqKZ9KQanSqYXRcF8fBopzLHYxdM65zcjm"%string] false 0%Qc)
    (Some defaultFilterConfig) (Some defaultRiskLimits)
    (mkStats 0 0 0 0 0 0) ∅ ∅ ∅.

(** A detected buy of WIF for $25. *)
Definition wifBuy : TradeAnalyzer.DetectedTrade :=
  TradeAnalyzer.mkDetectedTrade "5LUCV1q6" 377000000 buy
    "EKpQGSJtjMFqKZ9KQanSqYXRcF8fBopzLHYxdM65zcjm" (ofZ 25) 76000000
    (Some "8ZhZwcho7jy4Ssnv1EjaNDbEbHSQbFyzFGSCjhzBP7vt"%string) dflow 0.

(** The wallet holds $20 and the executor sends the copy. *)
Definition copySent : World :=
  mkWorld 10 TradeFilter.NetworkError (ofZ 20)
    (Returns (mkCopyResult None "3dbfKjKZ" (Some 6084613))) 260.

End PipelineNotions.

(** * Properties *)

(** ** Entry decoding and wire-form measurement *)
Section Decoding.
Import Binary SolanaTx Entries.

Lemma readTransactions_stops_at_zero fuel entriesBytes txCount t offset acc :
  measureTransactionSize (bufSliceFrom entriesBytes offset) = 0 →
  readTransactions (S fuel) entriesBytes txCount t offset acc
  = Some (acc, offset).
Proof.
  intros Hzero. cbn [readTransactions].
  destruct (t <? txCount); [|done].
  destruct (offset >=? bufLength entriesBytes); [done|].
  by rewrite Hzero.
Qed.

End Decoding.

Section Termination.
Import Binary SolanaTx Entries.

Lemma bufGet_nonneg buffer i : 0 ≤ toInt32Operand (bufGet buffer i).
Proof.
  unfold toInt32Operand, bufGet. destruct (i <? 0); [done|].
  destruct (buffer !! Z.to_nat i) as [b|]; [|done].
  cbn. unfold byteValue. lia.
Qed.

Lemma readCompactU16_nonneg buffer offset :
  0 ≤ (readCompactU16 buffer offset).1 ∧ 0 ≤ (readCompactU16 buffer offset).2.
Proof.
  unfold readCompactU16.
  pose proof (bufGet_nonneg buffer offset).
  pose proof (bufGet_nonneg buffer (offset + 1)).
  pose proof (bufGet_nonneg buffer (offset + 2)).
  repeat match goal with
         | |- context [if ?b then _ else _] => destruct b
         end; cbn [fst snd]; split; try lia;
    repeat first [apply Z.lor_nonneg; split | apply Z.shiftl_nonneg
                 | apply Z.land_nonneg; left]; done.
Qed.

Lemma skipInstructions_monotone buffer n offset offset' :
  skipInstructions buffer n offset = Some offset' → offset ≤ offset'.
Proof.
  revert offset. induction n as [|n IH]; intros offset; cbn [skipInstructions].
  { intros [= <-]. lia. }
  destruct (offset >=? bufLength buffer); [done|].
  pose proof (readCompactU16_nonneg buffer (offset + 1)) as [Hv1 Hn1].
  destruct (readCompactU16 buffer (offset + 1)) as [numAccounts accBytes].
  cbn [fst snd] in *.
  pose proof (readCompactU16_nonneg buffer (offset + 1 + accBytes + numAccounts))
    as [Hv2 Hn2].
  destruct (readCompactU16 buffer (offset + 1 + accBytes + numAccounts))
    as [dataLen dataLenBytes].
  cbn [fst snd] in *. intros Hrest. apply IH in Hrest. lia.
Qed.

Lemma skipLookups_monotone buffer n offset offset' :
  skipLookups buffer n offset = Some offset' → offset ≤ offset'.
Proof.
  revert offset. induction n as [|n IH]; intros offset; cbn [skipLookups].
  { intros [= <-]. lia. }
  destruct (offset + 32 >? bufLength buffer); [done|].
  pose proof (readCompactU16_nonneg buffer (offset + 32)) as [Hv1 Hn1].
  destruct (readCompactU16 buffer (offset + 32)) as [numWritable wBytes].
  cbn [fst snd] in *.
  pose proof (readCompactU16_nonneg buffer (offset + 32 + wBytes + numWritable))
    as [Hv2 Hn2].
  destruct (readCompactU16 buffer (offset + 32 + wBytes + numWritable))
    as [numReadonly rBytes].
  cbn [fst snd] in *. intros Hrest. apply IH in Hrest. lia.
Qed.

Lemma measureTransactionSize_nonneg buffer : 0 ≤ measureTransactionSize buffer.
Proof.
  unfold measureTransactionSize.
  pose proof (readCompactU16_nonneg buffer 0) as [Hv0 Hn0].
  destruct (readCompactU16 buffer 0) as [numSigs sigBytes]. cbn [fst snd] in *.
  destruct ((numSigs =? 0) || (numSigs >? 64)); [done|].
  destruct (_ >=? _); [done|].
  destruct (bool_decide _).
  - destruct (_ >? _); [done|].
    match goal with |- context [readCompactU16 buffer ?o] =>
      pose proof (readCompactU16_nonneg buffer o) as [Hv1 Hn1];
      destruct (readCompactU16 buffer o) as [numStaticKeys staticKeyBytes] end.
    cbn [fst snd] in *.
    destruct (_ >? _); [done|].
    match goal with |- context [readCompactU16 buffer ?o] =>
      pose proof (readCompactU16_nonneg buffer o) as [Hv2 Hn2];
      destruct (readCompactU16 buffer o) as [numInstructions instrBytes] end.
    cbn [fst snd] in *.
    destruct (skipInstructions _ _ _) as [offset1|] eqn:Hins; [|done].
    apply skipInstructions_monotone in Hins.
    pose proof (readCompactU16_nonneg buffer offset1) as [Hv3 Hn3].
    destruct (readCompactU16 buffer offset1) as [numLookups lookupBytes].
    cbn [fst snd] in *.
    destruct (skipLookups _ _ _) as [offset2|] eqn:Hlk; [|done].
    apply skipLookups_monotone in Hlk. lia.
  - destruct (_ >? _); [done|].
    match goal with |- context [readCompactU16 buffer ?o] =>
      pose proof (readCompactU16_nonneg buffer o) as [Hv1 Hn1];
      destruct (readCompactU16 buffer o) as [numKeys keyBytes] end.
    cbn [fst snd] in *.
    destruct (_ >? _); [done|].
    match goal with |- context [readCompactU16 buffer ?o] =>
      pose proof (readCompactU16_nonneg buffer o) as [Hv2 Hn2];
      destruct (readCompactU16 buffer o) as [numInstructions instrBytes] end.
    cbn [fst snd] in *.
    destruct (skipInstructions _ _ _) as [offset1|] eqn:Hins; [|done].
    apply skipInstructions_monotone in Hins. lia.
Qed.

Lemma readTransactions_returns fuel entriesBytes txCount t offset acc :
  (1 ≤ fuel)%nat →
  bufLength entriesBytes - offset < Z.of_nat fuel →
  ∃ transactions offset',
    readTransactions fuel entriesBytes txCount t offset acc
    = Some (transactions, offset')
    ∧ offset ≤ offset'.
Proof.
  revert t offset acc. induction fuel as [|fuel IH];
    intros t offset acc Hpos Hfuel; [lia|].
  cbn [readTransactions].
  destruct (t <? txCount); [|by exists acc, offset].
  destruct (offset >=? bufLength entriesBytes) eqn:Hend; [by exists acc, offset|].
  pose proof (measureTransactionSize_nonneg (bufSliceFrom entriesBytes offset))
    as Hsize.
  destruct (measureTransactionSize (bufSliceFrom entriesBytes offset) =? 0)
    eqn:Hzero; [by exists acc, offset|].
  apply Z.eqb_neq in Hzero.
  destruct (IH (t + 1)
              (offset + measureTransactionSize (bufSliceFrom entriesBytes offset))
              (acc ++ [bufSlice entriesBytes offset
                         (offset + measureTransactionSize
                                     (bufSliceFrom entriesBytes offset))]))
    as (transactions & offset' & Heq & Hle); [lia..|].
  exists transactions, offset'. split; [done|lia].
Qed.

Lemma readEntries_returns fuel entriesBytes length_ i offset entries :
  (1 ≤ fuel)%nat →
  0 ≤ offset →
  bufLength entriesBytes - offset < Z.of_nat fuel →
  ∃ result,
    readEntries fuel entriesBytes length_ i offset entries = Some result.
Proof.
  revert i offset entries. induction fuel as [|fuel IH];
    intros i offset entries Hpos Hoffset Hfuel; [lia|].
  cbn [readEntries].
  destruct (i <? length_); [|by eexists].
  destruct (offset + 8 + 32 + 8 >? bufLength entriesBytes) eqn:Hend;
    [by eexists|].
  assert (Hinner :
    ∃ transactions offset',
      (if readU64 entriesBytes (offset + 8 + 32) >? 0
       then readTransactions (S (length entriesBytes)) entriesBytes
              (readU64 entriesBytes (offset + 8 + 32)) 0 (offset + 8 + 32 + 8) []
       else Some ([], offset + 8 + 32 + 8))
      = Some (transactions, offset')
      ∧ offset + 8 + 32 + 8 ≤ offset').
  { destruct (_ >? 0); [|by eexists _, _].
    apply readTransactions_returns; unfold bufLength in *; lia. }
  destruct Hinner as (transactions & offset' & -> & Hle).
  apply IH; lia.
Qed.

(** X2.  The entry decoder always returns, with the list of entries or
    with the one error it can raise; the two loops of the model never
    run out of fuel. *)
Lemma deserializeEntries_returns entriesBytes :
  ∃ result, deserializeEntries entriesBytes = Some result.
Proof.
  unfold deserializeEntries. apply readEntries_returns; unfold bufLength; lia.
Qed.

Lemma readEntries_error fuel entriesBytes length_ i offset entries at_ :
  readEntries fuel entriesBytes length_ i offset entries
  = Some (CannotReadTxVecLength at_) →
  at_ + 8 > bufLength entriesBytes.
Proof.
  revert i offset entries. induction fuel as [|fuel IH];
    intros i offset entries; cbn [readEntries]; [done|].
  destruct (i <? length_); [|done].
  destruct (offset + 8 + 32 + 8 >? bufLength entriesBytes) eqn:Hend.
  { intros [= <-]. lia. }
  destruct (if readU64 entriesBytes (offset + 8 + 32) >? 0 then _ else _)
    as [[transactions offset']|]; [|done].
  apply IH.
Qed.

(** X3.  The entry decoder fails only where the 8-byte count of the
    transactions of an entry does not fit inside the buffer. *)
Lemma deserializeEntries_error entriesBytes at_ :
  deserializeEntries entriesBytes = Some (CannotReadTxVecLength at_) →
  at_ + 8 > bufLength entriesBytes.
Proof. apply readEntries_error. Qed.

End Termination.

Lemma deserializeEntries_error_witness : 48 + 8 > bufLength (bytesOf [255; 255]).
Proof.
  apply (deserializeEntries_error (bytesOf [255; 255]) 48).
  vm_compute. reflexivity.
Defined.

(** C9.  The measured size can exceed the buffer: on the 104 bytes of
    [truncatedInstructionTx] the instruction loop adds the announced 127
    account indexes without comparing against the length, and the
    function returns 231. *)
Theorem measureTransactionSize_exceeds_buffer :
  bufLength truncatedInstructionTx = 104
  ∧ SolanaTx.measureTransactionSize truncatedInstructionTx = 231.
Proof. split; vm_compute; reflexivity. Qed.

(** C4 as stated fails: on [zeroScanPayload] the scan of the announced
    transaction returns 0 while [tx_count] is 1, and the decoder returns
    an entry with no transaction instead of failing. *)
Lemma deserializeEntries_zero_scan_no_error :
  ¬ (∀ entriesBytes : Uint8Array,
       Binary.readU64 entriesBytes 0 = 1 →
       56 ≤ bufLength entriesBytes →
       0 < Binary.readU64 entriesBytes 48 →
       SolanaTx.measureTransactionSize (bufSliceFrom entriesBytes 56) = 0 →
       ∃ offset,
         Entries.deserializeEntries entriesBytes
         = Some (Entries.CannotReadTxVecLength offset)).
Proof.
  intros Hclaim.
  destruct (Hclaim zeroScanPayload) as [offset Hfail];
    [vm_compute; reflexivity | vm_compute; discriminate
    | vm_compute; reflexivity | vm_compute; reflexivity |].
  vm_compute in Hfail. discriminate.
Qed.

Section ZeroScan.
Import Binary SolanaTx Entries.

Lemma readTransactions_measured fuel entriesBytes txCount t offset acc :
  (1 ≤ fuel)%nat →
  bufLength entriesBytes - offset < Z.of_nat fuel →
  ∃ transactions next,
    readTransactions fuel entriesBytes txCount t offset acc
    = Some (acc ++ transactions, next)
    ∧ measuredFrom entriesBytes (txCount - t) offset transactions next
    ∧ offset ≤ next.
Proof.
  revert t offset acc. induction fuel as [|fuel IH];
    intros t offset acc Hpos Hfuel; [lia|].
  cbn [readTransactions].
  destruct (t <? txCount) eqn:Ht.
  2: { exists [], offset. rewrite app_nil_r. split; [done|]. split; [|lia].
       apply measured_all. lia. }
  destruct (offset >=? bufLength entriesBytes) eqn:Hend.
  { exists [], offset. rewrite app_nil_r. split; [done|]. split; [|lia].
    apply measured_end_of_data; lia. }
  pose proof (measureTransactionSize_nonneg (bufSliceFrom entriesBytes offset))
    as Hsize.
  destruct (measureTransactionSize (bufSliceFrom entriesBytes offset) =? 0)
    eqn:Hzero.
  { exists [], offset. rewrite app_nil_r. split; [done|]. split; [|lia].
    apply measured_zero_scan; lia. }
  apply Z.eqb_neq in Hzero.
  destruct (IH (t + 1)
              (offset + measureTransactionSize (bufSliceFrom entriesBytes offset))
              (acc ++ [bufSlice entriesBytes offset
                         (offset + measureTransactionSize
                                     (bufSliceFrom entriesBytes offset))]))
    as (transactions & next & Heq & Hm & Hle); [lia..|].
  eexists (_ :: transactions), next. split; [|split; [|lia]].
  - rewrite Heq. by rewrite <- app_assoc.
  - eapply measured_transaction; [lia | lia | reflexivity | done |].
    by replace (txCount - t - 1) with (txCount - (t + 1)) by lia.
Qed.

Lemma afterEntries_snoc entries entry rest :
  afterEntries (entries ++ [entry]) rest
  = afterEntries entries (consEntry entry rest).
Proof. unfold afterEntries. by rewrite foldr_app. Qed.

Lemma afterEntries_nil entries :
  afterEntries entries (Entries_ []) = Entries_ entries.
Proof.
  induction entries as [|e entries IH]; [done|].
  cbn. unfold afterEntries in IH. by rewrite IH.
Qed.

Lemma afterEntries_error entries offset :
  afterEntries entries (CannotReadTxVecLength offset)
  = CannotReadTxVecLength offset.
Proof.
  induction entries as [|e entries IH]; [done|].
  cbn. unfold afterEntries in IH. by rewrite IH.
Qed.

Lemma readEntries_decoded fuel entriesBytes length_ i offset entries :
  (1 ≤ fuel)%nat →
  0 ≤ offset →
  bufLength entriesBytes - offset < Z.of_nat fuel →
  ∃ rest,
    readEntries fuel entriesBytes length_ i offset entries
    = Some (afterEntries entries rest)
    ∧ decodedFrom entriesBytes (length_ - i) offset rest.
Proof.
  revert i offset entries. induction fuel as [|fuel IH];
    intros i offset entries Hpos Hoffset Hfuel; [lia|].
  cbn [readEntries].
  destruct (i <? length_) eqn:Hi.
  2: { exists (Entries_ []). rewrite afterEntries_nil. split; [done|].
       apply decoded_all. lia. }
  destruct (offset + 8 + 32 + 8 >? bufLength entriesBytes) eqn:Hend.
  { exists (CannotReadTxVecLength (offset + 40)).
    rewrite afterEntries_error. split.
    - by replace (offset + 8 + 32) with (offset + 40) by lia.
    - apply decoded_count_outside; lia. }
  assert (Hinner :
    ∃ transactions next,
      (if readU64 entriesBytes (offset + 8 + 32) >? 0
       then readTransactions (S (length entriesBytes)) entriesBytes
              (readU64 entriesBytes (offset + 8 + 32)) 0 (offset + 8 + 32 + 8) []
       else Some ([], offset + 8 + 32 + 8))
      = Some (transactions, next)
      ∧ measuredFrom entriesBytes (readU64 entriesBytes (offset + 40))
          (offset + 48) transactions next
      ∧ offset + 48 ≤ next).
  { replace (offset + 8 + 32 + 8) with (offset + 48) by lia.
    replace (offset + 8 + 32) with (offset + 40) by lia.
    destruct (_ >? 0) eqn:Hcount.
    - destruct (readTransactions_measured (S (length entriesBytes))
                  entriesBytes (readU64 entriesBytes (offset + 40)) 0
                  (offset + 48) [])
        as (transactions & next & Heq & Hm & Hle);
        [lia | unfold bufLength in *; lia |].
      exists transactions, next. rewrite Z.sub_0_r in Hm. done.
    - exists [], (offset + 48). split; [done|]. split; [|lia].
      apply measured_all. lia. }
  destruct Hinner as (transactions & next & -> & Hm & Hle).
  destruct (IH (i + 1) next
              (entries ++ [mkSolanaEntry (readU64 entriesBytes offset)
                             (bufSlice entriesBytes (offset + 8) (offset + 8 + 32))
                             transactions]))
    as (rest & Heq & Hd); [lia..|].
  eexists. split.
  - rewrite Heq, afterEntries_snoc. reflexivity.
  - replace (offset + 8 + 32) with (offset + 40) by lia.
    apply decoded_entry with (next := next); [lia | lia | done |].
    by replace (length_ - i - 1) with (length_ - (i + 1)) by lia.
Qed.

Lemma measuredFrom_functional entriesBytes left offset transactions next
    transactions' next' :
  measuredFrom entriesBytes left offset transactions next →
  measuredFrom entriesBytes left offset transactions' next' →
  transactions = transactions' ∧ next = next'.
Proof.
  intros Hm. revert transactions' next'.
  induction Hm as [left offset Hleft
                  |left offset Hleft Hend
                  |left offset Hleft Hin Hzero
                  |left offset txSize transactions next Hleft Hin Hsize Hnz Hm IH];
    intros transactions' next' Hm'; inversion Hm'; subst; try done; try lia.
  destruct (IH _ _ ltac:(eassumption)) as [-> ->]. done.
Qed.

Lemma decodedFrom_functional entriesBytes left offset result result' :
  decodedFrom entriesBytes left offset result →
  decodedFrom entriesBytes left offset result' →
  result = result'.
Proof.
  intros Hd. revert result'.
  induction Hd as [left offset Hleft
                  |left offset Hleft Hend
                  |left offset transactions next rest Hleft Hfits Hm Hd IH];
    intros result' Hd'; inversion Hd'; subst; try done; try lia.
  match goal with
  | H : measuredFrom _ _ _ _ _ |- _ =>
      destruct (measuredFrom_functional _ _ _ _ _ _ _ Hm H) as [-> ->]
  end.
  by rewrite (IH _ ltac:(eassumption)).
Qed.

(** C4, amended.  For every payload the decoder returns the result
    that [decodedFrom] describes, and [decodedFrom] admits no other: a
    scan that returns 0 while transactions are still announced raises
    no error; the decoder stops reading the transactions of that entry,
    keeps the entry with the transactions measured so far, and reads
    the next entry from the offset of the failed scan.  The result is
    an error only where the 8-byte transaction count of an entry lies
    outside the buffer. *)
Theorem deserializeEntries_zero_scan_keeps_measured
    (entriesBytes : Uint8Array) :
  ∃ result,
    deserializeEntries entriesBytes = Some result
    ∧ decodedFrom entriesBytes (readU64 entriesBytes 0) 8 result
    ∧ ∀ result',
        decodedFrom entriesBytes (readU64 entriesBytes 0) 8 result' →
        result' = result.
Proof.
  unfold deserializeEntries.
  destruct (readEntries_decoded (S (length entriesBytes)) entriesBytes
              (readU64 entriesBytes 0) 0 (0 + 8) [])
    as (rest & Heq & Hd); [lia | lia | unfold bufLength; lia |].
  rewrite Z.sub_0_r in Hd.
  exists rest. split; [exact Heq|]. split; [exact Hd|].
  intros result' Hd'. by apply (decodedFrom_functional _ _ _ _ _ Hd').
Qed.

(** After a scan that returned 0 the next entry is read from the
    wrong place, and its transaction count can lie outside the buffer:
    [zeroScanThenEntry] fails at offset 96. *)
Example zeroScanThenEntry_fails :
  bufLength zeroScanThenEntry = 96
  ∧ measureTransactionSize (bufSliceFrom zeroScanThenEntry 56) = 0
  ∧ deserializeEntries zeroScanThenEntry = Some (CannotReadTxVecLength 96).
Proof. repeat split; vm_compute; reflexivity. Qed.

End ZeroScan.

(** The case of a payload of one entry whose first scan returns 0: the
    decoder returns that entry without transactions. *)
Lemma deserializeEntries_zero_scan_truncates (entriesBytes : Uint8Array) :
  Binary.readU64 entriesBytes 0 = 1 →
  56 ≤ bufLength entriesBytes →
  0 < Binary.readU64 entriesBytes 48 →
  SolanaTx.measureTransactionSize (bufSliceFrom entriesBytes 56) = 0 →
  Entries.deserializeEntries entriesBytes
  = Some (Entries.Entries_
            [Entries.mkSolanaEntry (Binary.readU64 entriesBytes 8)
               (bufSlice entriesBytes 16 48) []]).
Proof.
  intros Hlen Hsize Hcount Hzero.
  unfold Entries.deserializeEntries. rewrite Hlen.
  cbn [Entries.readEntries]. change (0 <? 1) with true. cbv iota.
  change (0 + 8 + 8 + 32) with 48. change (0 + 8 + 8) with 16.
  change (0 + 8) with 8. change (16 + 32) with 48. change (48 + 8) with 56.
  destruct (56 >? bufLength entriesBytes) eqn:Hgt; [lia|].
  destruct (Binary.readU64 entriesBytes 48 >? 0) eqn:Hpos; [|lia].
  rewrite readTransactions_stops_at_zero by done.
  unfold bufLength in Hsize.
  destruct (length entriesBytes) as [|fuel] eqn:Hfuel; [lia|].
  cbn [Entries.readEntries]. change (0 + 1 <? 1) with false. done.
Qed.

Lemma deserializeEntries_zero_scan_truncates_witness :
  Entries.deserializeEntries zeroScanPayload
  = Some (Entries.Entries_
            [Entries.mkSolanaEntry (Binary.readU64 zeroScanPayload 8)
               (bufSlice zeroScanPayload 16 48) []]).
Proof.
  apply (deserializeEntries_zero_scan_truncates zeroScanPayload);
    vm_compute; first [reflexivity | discriminate].
Defined.

(** ** Comparisons on [number] *)
Section NumberFacts.

Lemma ltb_lt x y : ltb x y = true ↔ (x < y)%Qc.
Proof. apply bool_decide_eq_true. Qed.

Lemma leb_le x y : leb x y = true ↔ (x ≤ y)%Qc.
Proof. apply bool_decide_eq_true. Qed.

Lemma gtb_lt x y : gtb x y = true ↔ (y < x)%Qc.
Proof. apply ltb_lt. Qed.

Lemma geb_le x y : geb x y = true ↔ (y ≤ x)%Qc.
Proof. apply leb_le. Qed.

Lemma ltb_ge x y : ltb x y = false ↔ (y ≤ x)%Qc.
Proof. unfold ltb. rewrite bool_decide_eq_false. symmetry. apply Qcle_ngt. Qed.

Lemma Number_nonzero (b : Z) : b ≠ 0 → Number b ≠ 0%Qc.
Proof.
  intros Hb Heq. apply Hb, Z2Qc_inj. rewrite Z2Qc_inj_0. exact Heq.
Qed.

Lemma Number_div_diag (b : Z) : b ≠ 0 → (Number b / Number b)%Qc = 1%Qc.
Proof. intros Hb. apply Qcmult_inv_r, Number_nonzero, Hb. Qed.

End NumberFacts.

(** ** Position ledger *)
Section Ledger.
Import PositionManager.

Lemma recordBuy_existing_entryPrice positions now mint raw usdc price sig sym p :
  positions !! mint = Some p →
  (recordBuy positions now mint raw usdc price sig sym).1 !! mint
  = Some
      {| tokenMint := PositionManager.tokenMint p;
         symbol := PositionManager.symbol p;
         amount := amount p + raw;
         entryPrice := ((totalCostUsdc p + usdc) / Number (amount p + raw))%Qc;
         totalCostUsdc := (totalCostUsdc p + usdc)%Qc;
         entryTime := entryTime p;
         trades := trades p ++ [sig];
         buyCount := buyCount p + 1;
         sellCount := sellCount p |}.
Proof.
  intros Hp. unfold recordBuy. rewrite Hp. cbn [fst].
  by rewrite lookup_insert_eq.
Qed.

Lemma recordBuy_new_position positions now mint raw usdc price sig sym :
  positions !! mint = None →
  (recordBuy positions now mint raw usdc price sig sym).1 !! mint
  = Some (mkPosition mint sym raw price usdc now [sig] 1 0).
Proof.
  intros Hp. unfold recordBuy. rewrite Hp. cbn [fst].
  by rewrite lookup_insert_eq.
Qed.

(** What the code maintains instead of the per-token price: after a buy
    copy the entry price of the position is its cost divided by its raw
    amount. *)
Lemma recordCopy_buy_entryPrice_raw positions now mint outAmount usdc sig :
  ∃ p,
    (CopyTradeEngine.recordCopy positions now buy mint outAmount usdc sig).1
      !! mint = Some p
    ∧ entryPrice p = (totalCostUsdc p / Number (amount p))%Qc.
Proof.
  unfold CopyTradeEngine.recordCopy.
  destruct (positions !! mint) as [existing|] eqn:Hp.
  - rewrite (recordBuy_existing_entryPrice _ _ _ _ _ _ _ _ _ Hp).
    by eexists.
  - rewrite recordBuy_new_position by done. by eexists.
Qed.

End Ledger.

Section RiskGateDouble.
Import PositionManager64.

Lemma getTotalExposure_from sum positions :
  foldl (λ sum kv, (sum + totalCostUsdc kv.2)%float) sum positions
  = addedTo sum (costs positions).
Proof.
  revert sum. induction positions as [|kv positions IH]; intros sum; [done|].
  cbn. apply IH.
Qed.

Lemma getTotalExposure_costs positions :
  getTotalExposure positions = totalExposure positions.
Proof. apply getTotalExposure_from. Qed.

Lemma omapGet_held positions mint :
  omapGet positions mint = held positions mint.
Proof.
  unfold held. induction positions as [|[k p] positions IH]; cbn; [done|].
  destruct (bool_decide (k = mint)) eqn:Hk.
  - apply bool_decide_eq_true in Hk as ->. by rewrite lookup_insert_eq.
  - apply bool_decide_eq_false in Hk. by rewrite lookup_insert_ne.
Qed.

Lemma canTrade_reserve_first limits positions mint amountUsdc balance :
  (balance - amountUsdc <? minUsdcReserve limits)%float = true →
  (canTrade limits positions mint buy amountUsdc balance).1
  = mkTradeCheckResult false
      (Some (WouldLeaveUsdcBelowMinimumReserve (minUsdcReserve limits))) None.
Proof. intros Hreserve. unfold canTrade. by rewrite Hreserve. Qed.

Lemma omapGet_omapSet_eq {V} (m : OrderedMap V) k v :
  omapGet (omapSet m k v) k = Some v.
Proof.
  induction m as [|[k' v'] m IH]; cbn.
  - by rewrite bool_decide_eq_true_2.
  - destruct (bool_decide (k' = k)) eqn:Hk; cbn.
    + by rewrite bool_decide_eq_true_2.
    + by rewrite Hk.
Qed.

Lemma omapSet_absent {V} (m : OrderedMap V) k v :
  omapGet m k = None → omapSet m k v = m ++ [(k, v)].
Proof.
  induction m as [|[k' v'] m IH]; cbn; [done|].
  destruct (bool_decide (k' = k)); [done|].
  intros Hm. by rewrite IH.
Qed.

End RiskGateDouble.

(** C6.  For a buy, [canTrade] rejects exactly when, in the double
    arithmetic of the code, the balance left would be below the
    reserve, or the cost of the position plus the amount would exceed
    the per-position limit, or the total exposure (the costs of all
    positions added up from 0, oldest position first) plus the amount
    would exceed its limit, or a new mint would be opened with the
    number of open positions already at the maximum.  The reserve is
    checked first; in particular with a per-position limit of 4, a
    reserve of 10, two earlier buys of $2 on the mint and a balance of
    8, the reason returned is the minimum-reserve one. *)
Theorem canTrade_buy_rejects_iff :
  (∀ limits positions mint amountUsdc balance,
     let decision :=
       (PositionManager64.canTrade limits positions mint buy amountUsdc
          balance).1 in
     PositionManager64.allowed decision = false
     ↔ (balance - amountUsdc <? PositionManager64.minUsdcReserve limits)%float
       = true
       ∨ (PositionManager64.maxPositionSizeUsdc limits
          <? committedCost positions mint + amountUsdc)%float = true
       ∨ (PositionManager64.maxTotalExposureUsdc limits
          <? totalExposure positions + amountUsdc)%float = true
       ∨ (held positions mint = None
          ∧ (PositionManager64.maxOpenPositions limits
             <=? Number64 (Z.of_nat (length positions)))%float = true))
  ∧ (∀ limits positions mint amountUsdc balance,
       (balance - amountUsdc <? PositionManager64.minUsdcReserve limits)%float
       = true →
       PositionManager64.reason
         (PositionManager64.canTrade limits positions mint buy amountUsdc
            balance).1
       = Some (PositionManager64.WouldLeaveUsdcBelowMinimumReserve
                 (PositionManager64.minUsdcReserve limits)))
  ∧ (∀ maxExposure maxPositions mint now1 now2 raw1 raw2 price1 price2
       sig1 sig2 sym1 sym2,
       let ledger1 :=
         (PositionManager64.recordBuy [] now1 mint raw1 2%float price1 sig1
            sym1).1 in
       let ledger2 :=
         (PositionManager64.recordBuy ledger1 now2 mint raw2 2%float price2
            sig2 sym2).1 in
       committedCost ledger2 mint = 4%float
       ∧ (PositionManager64.canTrade (scenarioLimits maxExposure maxPositions)
            ledger2 mint buy 2%float 8%float).1
         = PositionManager64.mkTradeCheckResult false
             (Some (PositionManager64.WouldLeaveUsdcBelowMinimumReserve
                      10%float))
             None).
Proof.
  split; [|split].
  - intros limits positions mint amountUsdc balance decision.
    subst decision. unfold PositionManager64.canTrade, committedCost.
    rewrite getTotalExposure_costs, omapGet_held.
    destruct (_ <? PositionManager64.minUsdcReserve limits)%float eqn:H1.
    { cbn. tauto. }
    destruct (PositionManager64.maxPositionSizeUsdc limits <? _)%float eqn:H2.
    { cbn. tauto. }
    destruct (PositionManager64.maxTotalExposureUsdc limits <? _)%float eqn:H3.
    { cbn. tauto. }
    destruct (bool_decide (held positions mint = None) && _) eqn:H4.
    { apply andb_true_iff in H4 as [H4 H5].
      apply bool_decide_eq_true in H4. cbn.
      split; [intros _|done]. right; right; right. done. }
    cbn. split; [done|].
    intros [?|[?|[?|[H5 H6]]]]; [done..|].
    apply andb_false_iff in H4 as [H4|H4].
    + by apply bool_decide_eq_false in H4.
    + unfold PositionManager64.positionsSize in H4. congruence.
  - intros limits positions mint amountUsdc balance Hreserve.
    by rewrite canTrade_reserve_first.
  - intros. subst ledger1 ledger2. split.
    + unfold committedCost. rewrite <- omapGet_held.
      unfold PositionManager64.recordBuy. cbn.
      rewrite !bool_decide_eq_true_2 by done. cbn.
      rewrite !bool_decide_eq_true_2 by done. reflexivity.
    + apply canTrade_reserve_first. reflexivity.
Qed.

(** At a limit the rounding of the sum decides: with one position of
    $0.1 and a total limit of $0.3 a buy of $0.2 is rejected, since
    [0.1 + 0.2] is [0.30000000000000004] in double precision. *)
Example canTrade_sum_rounds_above_limit :
  let limits :=
    PositionManager64.mkRiskLimits 50%float 0.3%float 10%float 10%float in
  (PositionManager64.canTrade limits [positionOf "A" 0.1%float] "B" buy
     0.2%float 100%float).1
  = PositionManager64.mkTradeCheckResult false
      (Some (PositionManager64.TotalExposureLimitReached
               0.30000000000000004%float 0.3%float))
      (Some (PositionManager64.mkLimitsInfo 0%float 50%float 0.1%float
               0.3%float 1 10%float)).
Proof. vm_compute. reflexivity. Qed.

(** The total exposure runs over every position: with positions of
    $120 and $79 and a total limit of $200 a buy of $2 in a third mint
    is rejected for an exposure of $201. *)
Example canTrade_exposure_over_all_positions :
  let limits :=
    PositionManager64.mkRiskLimits 150%float 200%float 10%float 10%float in
  PositionManager64.reason
    (PositionManager64.canTrade limits
       [positionOf "A" 120%float; positionOf "B" 79%float] "C" buy 2%float
       100%float).1
  = Some (PositionManager64.TotalExposureLimitReached 201%float 200%float).
Proof. vm_compute. reflexivity. Qed.

(** C8.  From a ledger without a position for [x], a buy of [raw] for
    [cost] followed by a sell of [raw] for [cost] realizes a P&L of 0,
    removes the position of [x] and emits [position_closed]; the ledger
    is the one before the buy. *)
Theorem record_buy_then_sell_closes positions now x raw cost price sig1 sig2 symbol :
  positions !! x = None →
  0 < raw →
  (0 < cost)%Qc →
  let ledger := (PositionManager.recordBuy positions now x raw cost price sig1 symbol).1 in
  ∃ closed,
    PositionManager.recordSell ledger x raw cost sig2
    = (Some (0%Qc, 0%Qc), positions,
       [PositionManager.POSITION_CLOSED closed 0%Qc 0%Qc])
    ∧ PositionManager.amount closed = 0
    ∧ (PositionManager.recordSell ledger x raw cost sig2).1.2 !! x = None.
Proof.
  intros Hnone Hraw Hcost ledger. subst ledger.
  unfold PositionManager.recordSell.
  rewrite recordBuy_new_position by done. cbn -[Number].
  rewrite Z.sub_diag. cbn -[Number].
  rewrite Number_div_diag by lia.
  assert (Hbasis : (cost - cost * 1)%Qc = 0%Qc) by ring.
  rewrite Hbasis.
  assert (Hpct : (0 / (cost * 1) * ofZ 100)%Qc = 0%Qc).
  { unfold Qcdiv. by rewrite !Qcmult_0_l. }
  rewrite Hpct.
  assert (Hledger :
    delete x (PositionManager.recordBuy positions now x raw cost price sig1 symbol).1
    = positions).
  { unfold PositionManager.recordBuy. rewrite Hnone. cbn [fst].
    by apply delete_insert_id. }
  rewrite Hledger. eexists. split; [reflexivity|]. split; [reflexivity|].
  exact Hnone.
Qed.

Lemma record_buy_then_sell_closes_witness :
  ∃ closed,
    PositionManager.recordSell
      (PositionManager.recordBuy ∅ 0 "WIF" 6084613 (ofZ 2)
         (ofZ 2 / Number 6084613)%Qc "sig1" None).1
      "WIF" 6084613 (ofZ 2) "sig2"
    = (Some (0%Qc, 0%Qc), ∅, [PositionManager.POSITION_CLOSED closed 0%Qc 0%Qc])
    ∧ PositionManager.amount closed = 0
    ∧ (PositionManager.recordSell
         (PositionManager.recordBuy ∅ 0 "WIF" 6084613 (ofZ 2)
            (ofZ 2 / Number 6084613)%Qc "sig1" None).1
         "WIF" 6084613 (ofZ 2) "sig2").1.2 !! "WIF"%string = None.
Proof.
  apply (record_buy_then_sell_closes ∅ 0 "WIF" 6084613 (ofZ 2)
           (ofZ 2 / Number 6084613)%Qc "sig1" "sig2" None);
    [reflexivity | lia | by vm_compute].
Defined.

(** C1.  The stored entry price is the cost divided by the raw amount.
    The two copies of the recorded test session (two buys of $2 of a
    6-decimal token, 6084613 and then 6084120 smallest units) leave an
    average entry price of [4 / 12168733], not the
    [4 / (12168733 / 10^6)] per whole token that the claim requires. *)
Theorem recordBuy_entry_price_per_raw_unit :
  let WIF := "EKpQGSJtjMFqKZ9KQanSqYXRcF8fBopzLHYxdM65zcjm"%string in
  let ledger1 :=
    (CopyTradeEngine.recordCopy ∅ 0 buy WIF 6084613 (ofZ 2) "copy1").1 in
  let ledger2 :=
    (CopyTradeEngine.recordCopy ledger1 1 buy WIF 6084120 (ofZ 2) "copy2").1 in
  PositionManager.entryPrice <$> ledger1 !! WIF
  = Some (ofZ 2 / Number 6084613)%Qc
  ∧ PositionManager.entryPrice <$> ledger2 !! WIF
    = Some (ofZ 4 / Number 12168733)%Qc
  ∧ PositionManager.totalCostUsdc <$> ledger2 !! WIF = Some (ofZ 4)
  ∧ PositionManager.amount <$> ledger2 !! WIF = Some 12168733
  ∧ (ofZ 4 / Number 12168733)%Qc
    ≠ (ofZ 4 / (Number 12168733 / ofZ (10 ^ 6)))%Qc.
Proof.
  intros WIF ledger1 ledger2.
  assert (H1 : ledger1 !! WIF
               = Some (PositionManager.mkPosition WIF None 6084613
                         (ofZ 2 / Number 6084613)%Qc (ofZ 2) 0 ["copy1"%string] 1 0)).
  { subst ledger1. unfold CopyTradeEngine.recordCopy.
    by apply recordBuy_new_position. }
  assert (H2 : ledger2 !! WIF
               = Some (PositionManager.mkPosition WIF None (6084613 + 6084120)
                         ((ofZ 2 + ofZ 2) / Number (6084613 + 6084120))%Qc
                         (ofZ 2 + ofZ 2)%Qc 0
                         ["copy1"%string; "copy2"%string] (1 + 1) 0)).
  { subst ledger2. unfold CopyTradeEngine.recordCopy.
    by rewrite (recordBuy_existing_entryPrice _ _ _ _ _ _ _ _ _ H1). }
  rewrite H1, H2. cbn -[Number ofZ Qcdiv Qcplus].
  assert (Hcost : (ofZ 2 + ofZ 2)%Qc = ofZ 4) by (by apply Qc_is_canon).
  rewrite Hcost. repeat split.
  intros Heq. apply (f_equal this) in Heq. vm_compute in Heq. discriminate.
Qed.

(** ** Balance deltas *)
Section Digits.

Lemma digitChar_spec d :
  0 ≤ d ≤ 9 → isDigit (digitChar d) = true ∧ digitValue (digitChar d) = d.
Proof.
  intros Hd. unfold isDigit, digitValue, digitChar.
  rewrite nat_ascii_embedding by lia.
  split; [|lia].
  apply andb_true_iff. split; [apply Nat.leb_le|apply Nat.leb_le]; lia.
Qed.

Lemma digitsValue_from (l : Text) (a : Z) :
  fold_left (λ acc c, 10 * acc + digitValue c) l a
  = a * 10 ^ Z.of_nat (length l) + digitsValue l.
Proof.
  unfold digitsValue. revert a. induction l as [|c l IH]; intros a.
  { cbn. lia. }
  cbn [fold_left length]. rewrite IH, (IH (10 * 0 + digitValue c)).
  rewrite Nat2Z.inj_succ, Z.pow_succ_r by lia. lia.
Qed.

Lemma digitsValue_app (l1 l2 : Text) :
  digitsValue (l1 ++ l2)
  = digitsValue l1 * 10 ^ Z.of_nat (length l2) + digitsValue l2.
Proof.
  unfold digitsValue at 1. rewrite fold_left_app.
  fold (digitsValue l1). apply digitsValue_from.
Qed.

Lemma digitsValue_zeros k : digitsValue (replicate k "0"%char) = 0.
Proof.
  induction k as [|k IH]; [done|].
  change (replicate (S k) "0"%char) with (["0"%char] ++ replicate k "0"%char).
  rewrite digitsValue_app, IH.
  replace (digitsValue ["0"%char]) with 0 by (by vm_compute). lia.
Qed.

Lemma digitsOf_spec fuel n acc :
  (1 ≤ fuel)%nat → 0 ≤ n < 2 ^ Z.of_nat fuel →
  ∃ ds, digitsOf fuel n acc = ds ++ acc
        ∧ allDigits ds ∧ digitsValue ds = n ∧ ds ≠ [].
Proof.
  revert n acc. induction fuel as [|fuel IH]; intros n acc Hfuel Hn; [lia|].
  cbn [digitsOf].
  assert (Hmod : 0 ≤ n mod 10 ≤ 9) by (pose proof (Z.mod_pos_bound n 10); lia).
  destruct (digitChar_spec _ Hmod) as [Hdigit Hvalue].
  destruct (n / 10 =? 0) eqn:Hdiv.
  - apply Z.eqb_eq in Hdiv.
    exists [digitChar (n mod 10)]. split; [done|]. split; [by repeat constructor|].
    split; [|done].
    unfold digitsValue. cbn [fold_left]. rewrite Hvalue.
    pose proof (Z.div_mod n 10). lia.
  - apply Z.eqb_neq in Hdiv.
    assert (Hn10 : 10 ≤ n).
    { destruct (decide (n < 10)); [|lia]. rewrite Z.div_small in Hdiv; lia. }
    rewrite Nat2Z.inj_succ, Z.pow_succ_r in Hn by lia.
    assert (Hfuel' : (1 ≤ fuel)%nat).
    { destruct fuel; [cbn in Hn; lia|lia]. }
    assert (Hq : 0 ≤ n / 10 < 2 ^ Z.of_nat fuel).
    { split; [apply Z.div_pos; lia|].
      apply Z.div_lt_upper_bound; lia. }
    destruct (IH (n / 10) (digitChar (n mod 10) :: acc) Hfuel' Hq)
      as (ds & Heq & Hall & Hval & Hne).
    exists (ds ++ [digitChar (n mod 10)]).
    split; [by rewrite Heq, <- app_assoc|].
    split; [apply Forall_app; split; [done|by repeat constructor]|].
    split; [|by destruct ds].
    rewrite digitsValue_app, Hval. cbn [length].
    unfold digitsValue at 1. cbn [fold_left]. rewrite Hvalue.
    change (Z.of_nat 1) with 1. pose proof (Z.div_mod n 10). lia.
Qed.

Lemma bigint_digits n :
  0 ≤ n →
  ∃ ds, digitsOf (S (Z.to_nat (Z.log2 n))) n [] = ds
        ∧ allDigits ds ∧ digitsValue ds = n ∧ ds ≠ [].
Proof.
  intros Hn.
  destruct (digitsOf_spec (S (Z.to_nat (Z.log2 n))) n []) as (ds & Heq & H);
    [lia| |].
  - split; [done|]. rewrite Nat2Z.inj_succ, Z2Nat.id by apply Z.log2_nonneg.
    destruct (decide (n = 0)) as [->|]; [done|].
    apply Z.log2_spec. lia.
  - exists ds. by rewrite Heq, app_nil_r.
Qed.

Lemma takeDigits_app ds rest :
  allDigits ds → noLeadingDigit rest →
  takeDigits (ds ++ rest) = ds ∧ dropDigits (ds ++ rest) = rest.
Proof.
  intros Hall Hrest. induction Hall as [|c ds Hc _ IH].
  - destruct rest as [|c rest]; [done|]. cbn in *. by rewrite Hrest.
  - cbn. rewrite Hc. destruct IH as [-> ->]. done.
Qed.

Lemma startsWith_digit ds rest c :
  allDigits ds → ds ≠ [] → isDigit c = false →
  startsWith (ds ++ rest) c = false.
Proof.
  intros Hall Hne Hc. destruct Hall as [|c' ds Hc' _]; [done|].
  cbn. apply bool_decide_eq_false. intros ->. congruence.
Qed.

(** What [parseFloat] reads from a signed decimal text. *)
Lemma parseFloat_decimal (negative : bool) (int frac : Text) :
  allDigits int → int ≠ [] → allDigits frac →
  parseFloat ((if negative then ["-"%char] else []) ++ int ++ ["."%char] ++ frac)
  = Some
      (let magnitude :=
         (ofZ (digitsValue int)
          + ofZ (digitsValue frac) / ofZ (10 ^ Z.of_nat (length frac)))%Qc in
       if negative then (- magnitude)%Qc else magnitude).
Proof.
  intros Hint Hne Hfrac. unfold parseFloat.
  assert (Hsign :
    startsWith ((if negative then ["-"%char] else []) ++ int ++ ["."%char] ++ frac)
      "-"%char = negative).
  { destruct negative; [done|]. rewrite app_nil_l.
    by apply startsWith_digit. }
  rewrite Hsign.
  assert (Hbody :
    (if negative
     then tail ((if negative then ["-"%char] else []) ++ int ++ ["."%char] ++ frac)
     else (if negative then ["-"%char] else []) ++ int ++ ["."%char] ++ frac)
    = int ++ ["."%char] ++ frac) by (by destruct negative).
  rewrite Hbody.
  destruct (takeDigits_app int (["."%char] ++ frac) Hint eq_refl) as [-> ->].
  change (startsWith (["."%char] ++ frac) "."%char) with true.
  change (tail (["."%char] ++ frac)) with frac. cbv iota.
  destruct (takeDigits_app frac [] Hfrac I) as [Htake _].
  rewrite app_nil_r in Htake. rewrite Htake.
  rewrite (bool_decide_eq_false_2 (int = [])) by done. done.
Qed.

Lemma padStart_digits ds target :
  allDigits ds →
  allDigits (padStart ds target "0"%char)
  ∧ digitsValue (padStart ds target "0"%char) = digitsValue ds
  ∧ Z.of_nat (length (padStart ds target "0"%char))
    = Z.max target (Z.of_nat (length ds)).
Proof.
  intros Hall. unfold padStart. split; [|split].
  - apply Forall_app. split; [|done]. by apply Forall_replicate.
  - by rewrite digitsValue_app, digitsValue_zeros.
  - rewrite length_app, length_replicate. lia.
Qed.

(** The placement of the point for [decimals >= 1]. *)
Lemma placement_exact (padded : Text) (decimals : Z) :
  1 ≤ decimals → decimals + 1 ≤ Z.of_nat (length padded) → allDigits padded →
  let integerPart :=
    match strSlice padded 0 (- decimals) with [] => ["0"%char] | s => s end in
  let decimalPart := strSliceFrom padded (- decimals) in
  allDigits integerPart ∧ integerPart ≠ [] ∧ allDigits decimalPart
  ∧ Z.of_nat (length decimalPart) = decimals
  ∧ digitsValue integerPart * 10 ^ decimals + digitsValue decimalPart
    = digitsValue padded.
Proof.
  intros Hd Hlen Hall. cbn zeta.
  unfold strSlice, strSliceFrom, sliceIndex.
  change (0 <? 0) with false. cbv iota.
  destruct (- decimals <? 0) eqn:Hneg; [|lia].
  rewrite Z.min_l, Z.max_l by lia.
  change (Z.to_nat 0) with 0%nat. rewrite drop_0, Z.sub_0_r.
  set (m := Z.to_nat (Z.of_nat (length padded) + - decimals)).
  assert (Hm : (1 ≤ m ≤ length padded)%nat) by lia.
  assert (Htake : length (take m padded) = m) by (rewrite length_take; lia).
  assert (Hne : take m padded ≠ []).
  { intros Hnil. rewrite Hnil in Htake. cbn in Htake. lia. }
  assert (Hint : match take m padded with [] => ["0"%char] | s => s end
                 = take m padded).
  { by destruct (take m padded). }
  rewrite Hint.
  assert (Hdrop : Z.of_nat (length (drop m padded)) = decimals).
  { rewrite length_drop. lia. }
  split; [by apply Forall_take|]. split; [done|].
  split; [by apply Forall_drop|]. split; [done|].
  rewrite <- (take_drop m padded) at 3. rewrite digitsValue_app, Hdrop. done.
Qed.

Lemma decimal_value (vi vf p : Z) :
  p ≠ 0 → (ofZ vi + ofZ vf / ofZ p)%Qc = (ofZ (vi * p + vf) / ofZ p)%Qc.
Proof.
  intros Hp. assert (Hpow : Qc_of_Z p ≠ 0%Qc) by (by apply Number_nonzero).
  unfold ofZ. rewrite Z2Qc_inj_add, Z2Qc_inj_mul. field. exact Hpow.
Qed.

(** X1.  For a token with at least one decimal the UI delta is exactly
    the raw delta divided by [10^decimals]: the text built by digit
    placement has the point [decimals] digits from the right. *)
Lemma uiDelta_exact (rawDelta decimals : Z) :
  1 ≤ decimals →
  TradeAnalyzer.uiDelta rawDelta decimals
  = Some (Number rawDelta / ofZ (10 ^ decimals))%Qc.
Proof.
  intros Hd. unfold TradeAnalyzer.uiDelta, TradeAnalyzer.uiDeltaStr.
  set (negative := rawDelta <? 0).
  destruct (bigint_digits (Z.abs rawDelta) (Z.abs_nonneg _))
    as (ds & Hds & Hall & Hval & Hne).
  assert (Hstr : bigintToString rawDelta
                 = (if negative then ["-"%char] else []) ++ ds).
  { unfold bigintToString. fold negative. subst negative.
    destruct (rawDelta <? 0) eqn:Hneg.
    - rewrite <- Hds. replace (Z.abs rawDelta) with (- rawDelta) by lia. done.
    - rewrite <- Hds. replace (Z.abs rawDelta) with rawDelta by lia. done. }
  rewrite Hstr.
  assert (Hsign : startsWith ((if negative then ["-"%char] else []) ++ ds)
                    "-"%char = negative).
  { destruct negative; [done|]. rewrite app_nil_l, <- (app_nil_r ds).
    by apply startsWith_digit. }
  rewrite Hsign.
  assert (Habs :
    (if negative
     then strSliceFrom ((if negative then ["-"%char] else []) ++ ds) 1
     else (if negative then ["-"%char] else []) ++ ds) = ds).
  { destruct negative; [|done]. unfold strSliceFrom, sliceIndex.
    change (1 <? 0) with false. cbv iota.
    rewrite Z.min_l by (cbn [app length]; lia). done. }
  rewrite Habs.
  destruct (padStart_digits ds (decimals + 1) Hall) as (Hpall & Hpval & Hplen).
  destruct (placement_exact (padStart ds (decimals + 1) "0"%char) decimals Hd
              ltac:(lia) Hpall) as (Hiall & Hine & Hfall & Hflen & Hsum).
  rewrite (parseFloat_decimal negative _ _ Hiall Hine Hfall).
  f_equal. cbn zeta. rewrite Hflen.
  assert (Hpow : ofZ (10 ^ decimals) ≠ 0%Qc).
  { apply Number_nonzero. apply Z.pow_nonzero; lia. }
  rewrite Hpval, Hval in Hsum.
  rewrite decimal_value, Hsum by (apply Z.pow_nonzero; lia).
  subst negative. destruct (rawDelta <? 0) eqn:Hneg.
  - replace (Z.abs rawDelta) with (- rawDelta) by lia.
    unfold Number, ofZ in *. rewrite Z2Qc_inj_opp. field. exact Hpow.
  - replace (Z.abs rawDelta) with rawDelta by lia. done.
Qed.

End Digits.

Lemma uiDelta_exact_witness :
  TradeAnalyzer.uiDelta (-2050000) 6
  = Some (Number (-2050000) / ofZ (10 ^ 6))%Qc.
Proof. apply (uiDelta_exact (-2050000) 6). lia. Defined.


(** C5.  For a token with 0 decimals the digit placement goes wrong:
    [slice(0, -0)] is empty and [slice(-0)] is the whole text, so a raw
    delta of 5 becomes the text [0.5] and the UI delta 1/2 instead of
    5. *)
Theorem uiDelta_zero_decimals_misplaced :
  let user := "8ZhZwcho7jy4Ssnv1EjaNDbEbHSQbFyzFGSCjhzBP7vt"%string in
  let mint := "9223LqDuoJXyhCtvi54DUQPGS8Xf29kUEQRr1444moon"%string in
  let tx :=
    TradeAnalyzer.mkParsedTx
      (Some (TradeAnalyzer.mkMeta (Some [])
               (Some [TradeAnalyzer.mkTokenBalance mint (Some user)
                        (Some (TradeAnalyzer.mkUiTokenAmount 5 0))]))) in
  TradeAnalyzer.uiDeltaStr 5 0 = ["0"; "."; "5"]%char
  ∧ (λ d, (TradeAnalyzer.d_mint d, TradeAnalyzer.deltaRaw d,
           TradeAnalyzer.decimals d, this <$> TradeAnalyzer.delta d))
      <$> TradeAnalyzer.extractTokenBalanceDeltas tx (Some user)
    = [(mint, 5, 0, Some (1 # 2)%Q)]
  ∧ TradeAnalyzer.uiDelta 5 0 ≠ Some (Number 5 / ofZ (10 ^ 0))%Qc.
Proof.
  intros user mint tx. split; [|split].
  - vm_compute. reflexivity.
  - vm_compute. reflexivity.
  - intros Heq. apply (f_equal (fmap this)) in Heq. vm_compute in Heq.
    discriminate.
Qed.

(** ** Quality filter *)
Section Filter.
Import TradeFilter.

Lemma fetchDexScreenerData_failure response now :
  fetchFailed response →
  fetchDexScreenerData response now = Returns noDexData.
Proof. by destruct response. Qed.

Lemma fetchDexScreenerData_never_throws response now :
  ∃ dexData, fetchDexScreenerData response now = Returns dexData.
Proof.
  destruct response as [| | |pairs]; try (by eexists).
  unfold fetchDexScreenerData, fetchDexScreenerData_body.
  destruct (head (default [] pairs)); by eexists.
Qed.

Lemma getTokenMetadata_failure cache response now tokenMint :
  fetchFailed response →
  (∀ cached, cache !! tokenMint = Some cached →
             METADATA_CACHE_TTL ≤ now - lastUpdated cached) →
  ∃ cache',
    getTokenMetadata cache response now tokenMint
    = Returns (mkTokenMetadata tokenMint 0%Qc 0%Qc 0%Qc now
                 [mkPricePoint 0%Qc now] now, cache').
Proof.
  intros Hfail Hstale. unfold getTokenMetadata, fetchTokenMetadata.
  rewrite fetchDexScreenerData_failure by done. cbn.
  destruct (cache !! tokenMint) as [cached|] eqn:Hcache; [|by eexists].
  specialize (Hstale cached eq_refl).
  destruct (now - lastUpdated cached <? METADATA_CACHE_TTL) eqn:Hfresh; [lia|].
  by eexists.
Qed.

(** The filter never takes its fail-open branch: no step of the check
    throws. *)
Lemma shouldCopyTrade_never_filter_error config cache response now tokenMint amt :
  reason (shouldCopyTrade config cache response now tokenMint amt).1
  ≠ Some filter_error.
Proof.
  unfold shouldCopyTrade.
  destruct (negb (enabled config)); [done|].
  destruct (bool_decide _); [done|].
  unfold shouldCopyTrade_body.
  assert (Hmeta : ∃ r, getTokenMetadata cache response now tokenMint = Returns r).
  { unfold getTokenMetadata, fetchTokenMetadata.
    destruct (fetchDexScreenerData_never_throws response now) as [d ->]. cbn.
    destruct (cache !! tokenMint) as [cached|]; [|by eexists].
    destruct (_ <? _); by eexists. }
  destruct Hmeta as [[metadata cache'] ->]. cbn [bindOutcome].
  repeat (match goal with
          | |- context [if ?b then _ else _] => destruct b
          end; [done|]).
  done.
Qed.

End Filter.

(** The fail-open reading does not hold of the code: with the default
    thresholds and no cached metadata, a metadata request that fails
    leads to a rejection for low liquidity, not to an allow flagged
    [filter_error]. *)
Lemma shouldCopyTrade_fetch_failure_not_fail_open :
  ¬ (∀ config cache response now tokenMint amt,
       TradeFilter.enabled config = true →
       tokenMint ∉ TradeFilter.whitelist config →
       TradeFilter.fetchFailed response →
       cache !! tokenMint = None →
       (TradeFilter.shouldCopyTrade config cache response now tokenMint amt).1
       = TradeFilter.mkFilterResult true (Some TradeFilter.filter_error) None).
Proof.
  intros Hclaim.
  specialize (Hclaim defaultFilterConfig ∅ TradeFilter.NetworkError 1000
                "9223LqDuoJXyhCtvi54DUQPGS8Xf29kUEQRr1444moon"%string (ofZ 2)).
  assert (Hallowed :
    TradeFilter.allowed
      (TradeFilter.shouldCopyTrade defaultFilterConfig ∅ TradeFilter.NetworkError
         1000 "9223LqDuoJXyhCtvi54DUQPGS8Xf29kUEQRr1444moon" (ofZ 2)).1 = false)
    by (vm_compute; reflexivity).
  rewrite Hclaim in Hallowed; [discriminate|reflexivity| |exact I|reflexivity].
  apply (bool_decide_unpack _). vm_compute. exact I.
Qed.

(** C2.  The filter does not fail open on a failed metadata request.
    When the request fails and the mint has no fresh cached metadata,
    the metadata is all zeros and the thresholds are applied to it: with
    a positive minimum liquidity the trade is rejected for low liquidity
    (liquidity 0), and the result is never the allow flagged
    [filter_error] that the claim and the project notes promise. *)
Theorem shouldCopyTrade_fetch_failure_rejects config cache response now tokenMint amt :
  TradeFilter.enabled config = true →
  tokenMint ∉ TradeFilter.whitelist config →
  TradeFilter.fetchFailed response →
  (∀ cached, cache !! tokenMint = Some cached →
             TradeFilter.METADATA_CACHE_TTL ≤ now - TradeFilter.lastUpdated cached) →
  (0 < TradeFilter.minLiquidityUsdc config)%Qc →
  (TradeFilter.shouldCopyTrade config cache response now tokenMint amt).1
  = TradeFilter.mkFilterResult false
      (Some (TradeFilter.LowLiquidity 0%Qc (TradeFilter.minLiquidityUsdc config)))
      (Some (TradeFilter.mkChecks (Some (TradeFilter.mkCheck 0%Qc false))
               None None None None))
  ∧ TradeFilter.reason
      (TradeFilter.shouldCopyTrade config cache response now tokenMint amt).1
    ≠ Some TradeFilter.filter_error.
Proof.
  intros Henabled Hwl Hfail Hstale Hmin.
  split; [|apply shouldCopyTrade_never_filter_error].
  unfold TradeFilter.shouldCopyTrade. rewrite Henabled. cbn [negb].
  rewrite bool_decide_eq_false_2 by done.
  unfold TradeFilter.shouldCopyTrade_body.
  destruct (getTokenMetadata_failure cache response now tokenMint Hfail Hstale)
    as [cache' ->].
  cbn. apply ltb_lt in Hmin. by rewrite Hmin.
Qed.

Lemma shouldCopyTrade_fetch_failure_rejects_witness :
  (TradeFilter.shouldCopyTrade defaultFilterConfig ∅ TradeFilter.NetworkError
     1000 "9223LqDuoJXyhCtvi54DUQPGS8Xf29kUEQRr1444moon" (ofZ 2)).1
  = TradeFilter.mkFilterResult false
      (Some (TradeFilter.LowLiquidity 0%Qc
               (TradeFilter.minLiquidityUsdc defaultFilterConfig)))
      (Some (TradeFilter.mkChecks (Some (TradeFilter.mkCheck 0%Qc false))
               None None None None))
  ∧ TradeFilter.reason
      (TradeFilter.shouldCopyTrade defaultFilterConfig ∅ TradeFilter.NetworkError
         1000 "9223LqDuoJXyhCtvi54DUQPGS8Xf29kUEQRr1444moon" (ofZ 2)).1
    ≠ Some TradeFilter.filter_error.
Proof.
  apply (shouldCopyTrade_fetch_failure_rejects defaultFilterConfig ∅
           TradeFilter.NetworkError 1000
           "9223LqDuoJXyhCtvi54DUQPGS8Xf29kUEQRr1444moon" (ofZ 2)).
  - reflexivity.
  - apply (bool_decide_unpack _). vm_compute. exact I.
  - exact I.
  - intros cached Hcached. rewrite lookup_empty in Hcached. discriminate.
  - vm_compute. reflexivity.
Defined.

(** ** Watch list *)
Section Watchlist.
Import TradeAnalyzer.

Lemma findTrackedUserFromKeys_none trackedUsers keys :
  (∀ k, k ∈ keys → k ∉ trackedUsers) →
  findTrackedUserFromKeys trackedUsers keys = None.
Proof.
  induction keys as [|k keys IH]; intros Hnone; [done|].
  cbn. rewrite bool_decide_eq_false_2.
  - apply IH. intros k' Hk'. apply Hnone. by right.
  - apply Hnone. by left.
Qed.

Lemma findTrackedUserFromKeys_some trackedUsers keys user :
  findTrackedUserFromKeys trackedUsers keys = Some user →
  user ∈ keys ∧ user ∈ trackedUsers.
Proof.
  induction keys as [|k keys IH]; [done|]. cbn.
  case_bool_decide as Hk.
  - intros [= <-]. split; [by left|done].
  - intros Hfound. destruct (IH Hfound). split; [by right|done].
Qed.

End Watchlist.

(** C7 as stated fails: with an empty watched set no key of the
    transaction is watched, yet [scenarioTx] is analysed and a trade
    event is emitted for it. *)
Lemma analyzeTransaction_empty_watchlist_emits :
  ¬ (∀ rpc now trackedUsers cache decodedTx,
       (∀ k, k ∈ (TradeAnalyzer.resolveFullAccountKeys rpc cache decodedTx).1 →
             k ∉ trackedUsers) →
       ∀ trade,
         TradeAnalyzer.TRADE trade
         ∉ (TradeAnalyzer.analyzeTransaction rpc now trackedUsers cache
              decodedTx).1).
Proof.
  intros Hclaim.
  pose (events :=
    (TradeAnalyzer.analyzeTransaction scenarioRpc 1700000000000 ∅ ∅ scenarioTx).1).
  assert (Hev : ∃ trade, head events = Some (TradeAnalyzer.TRADE trade)
                         ∧ TradeAnalyzer.direction trade = buy
                         ∧ TradeAnalyzer.tokenMint trade = scenarioMint
                         ∧ TradeAnalyzer.tokenAmount trade = 46672314888
                         ∧ TradeAnalyzer.userAddress trade = Some scenarioUser
                         ∧ TradeAnalyzer.aggregator trade = dflow).
  { vm_compute. eexists. split; [reflexivity|]. repeat split. }
  destruct Hev as (trade & Hhead & _).
  apply (Hclaim scenarioRpc 1700000000000 ∅ ∅ scenarioTx
           (λ k _, not_elem_of_empty k) trade).
  apply head_Some_elem_of. exact Hhead.
Qed.

(** C7, amended.  For a transaction whose resolved account keys contain
    no watched address: when the watched set is not empty, nothing is
    emitted; when the watched set is empty, a transaction without the
    vote program is analysed on behalf of its first static account key,
    and a trade event is emitted if that analysis finds a trade. *)
Theorem analyzeTransaction_unwatched rpc now trackedUsers cache decodedTx :
  (∀ k, k ∈ (TradeAnalyzer.resolveFullAccountKeys rpc cache decodedTx).1 →
        k ∉ trackedUsers) →
  (TradeAnalyzer.analyzeTransaction rpc now trackedUsers cache decodedTx).1
  = if decide (trackedUsers = ∅) then
      if decide (VOTE_PROGRAM_ID ∈ TradeAnalyzer.accountKeys decodedTx) then []
      else
        match
          TradeAnalyzer.parseTradeDetails rpc now decodedTx
            (head (TradeAnalyzer.accountKeys decodedTx))
            (TradeAnalyzer.resolveFullAccountKeys rpc cache decodedTx).1
        with
        | Some trade => [TradeAnalyzer.TRADE trade]
        | None => []
        end
    else [].
Proof.
  intros Hnone. unfold TradeAnalyzer.analyzeTransaction.
  destruct (TradeAnalyzer.resolveFullAccountKeys rpc cache decodedTx)
    as [keys cache'] eqn:Hkeys.
  cbn [fst] in *.
  rewrite (findTrackedUserFromKeys_none _ _ Hnone). cbn [TradeAnalyzer.truthyString negb andb].
  case_bool_decide as Hvote.
  - cbn [fst]. destruct (decide (trackedUsers = ∅)); [|done].
    by rewrite decide_True.
  - destruct (decide (trackedUsers = ∅)) as [->|Hne].
    + rewrite decide_False by done. rewrite size_empty.
      change (0 <? 0)%nat with false. cbv iota.
      by destruct (TradeAnalyzer.parseTradeDetails _ _ _ _ _).
    + assert (Hsize : (0 <? size trackedUsers)%nat = true).
      { apply Nat.ltb_lt. assert (size trackedUsers ≠ 0%nat); [|lia].
        intros Hzero. apply size_empty_inv in Hzero.
        by apply leibniz_equiv in Hzero. }
      by rewrite Hsize.
Qed.

Lemma analyzeTransaction_unwatched_witness :
  (TradeAnalyzer.analyzeTransaction scenarioRpc 1700000000000
     {[ "6isQHCmrVqnXju22ej2PraPLYgJhryM11xMRo6GhgNSr"%string ]} ∅ scenarioTx).1
  = if decide (({[ "6isQHCmrVqnXju22ej2PraPLYgJhryM11xMRo6GhgNSr"%string ]}
                  : gset string) = ∅) then
      if decide (VOTE_PROGRAM_ID ∈ TradeAnalyzer.accountKeys scenarioTx) then []
      else
        match
          TradeAnalyzer.parseTradeDetails scenarioRpc 1700000000000 scenarioTx
            (head (TradeAnalyzer.accountKeys scenarioTx))
            (TradeAnalyzer.resolveFullAccountKeys scenarioRpc ∅ scenarioTx).1
        with
        | Some trade => [TradeAnalyzer.TRADE trade]
        | None => []
        end
    else [].
Proof.
  apply (analyzeTransaction_unwatched scenarioRpc 1700000000000
           {[ "6isQHCmrVqnXju22ej2PraPLYgJhryM11xMRo6GhgNSr"%string ]} ∅
           scenarioTx).
  intros k Hk. apply (bool_decide_unpack _).
  vm_compute in Hk.
  apply elem_of_cons in Hk as [->|Hk]; [vm_compute; exact I|].
  apply elem_of_cons in Hk as [->|Hk]; [vm_compute; exact I|].
  by apply elem_of_nil in Hk.
Defined.

(** ** Pre-built transaction cache *)
Section PreBuilt.
Import JupiterExecutor.

(** Without another call in between, the entry a call was served from
    is gone when the call returns. *)
Lemma buyToken_afterSend_removes now txCache tokenMint usdcAmount startTime
      cached sent :
  (buyToken_afterSend now txCache tokenMint usdcAmount startTime cached
     sent).1.1 !! tokenMint = None.
Proof. destruct sent; cbn; apply lookup_delete_eq. Qed.

Lemma buyToken_start_miss now txCache tokenMint usdcAmount :
  txCache !! tokenMint = None →
  buyToken_start now txCache tokenMint usdcAmount
  = OnDemand tokenMint usdcAmount.
Proof. intros Hmiss. unfold buyToken_start. by rewrite Hmiss. Qed.

End PreBuilt.

(** C3.  The entry is read when a call starts and deleted only after the
    awaited send: when a second call for the mint starts in between,
    both calls are served from the same pre-built entry and both send
    the transaction with signature [3dbfKjKZ]. *)
Theorem buyToken_overlapping_calls_share_prebuilt :
  let final := JupiterExecutor.run twoBuys overlapping in
  JupiterExecutor.taken <$> JupiterExecutor.calls final
  = [Some preBuiltWif; Some preBuiltWif]
  ∧ length (JupiterExecutor.takers preBuiltWif final) = 2%nat
  ∧ (λ c, match c with
          | JupiterExecutor.SentPreBuilt _ r => Some (JupiterExecutor.sr_signature r)
          | _ => None
          end) <$> JupiterExecutor.calls final
    = [Some "3dbfKjKZ"%string; Some "3dbfKjKZ"%string].
Proof. vm_compute. repeat split. Qed.

(** ** Exit state *)
Section ExitState.
Import PositionManager ExitManager Lifecycle.

Lemma extends_refl st : extends st st.
Proof. split; [done|apply Qcle_refl]. Qed.

Lemma extends_trans st1 st2 st3 :
  extends st1 st2 → extends st2 st3 → extends st1 st3.
Proof.
  intros [Hs1 Hh1] [Hs2 Hh2]. split; [set_solver|].
  by apply Qcle_trans with (highWaterMark st2).
Qed.

Lemma Math_max_ge_l x y : (x ≤ Math_max x y)%Qc.
Proof.
  unfold Math_max. destruct (ltb x y) eqn:Hlt; [|apply Qcle_refl].
  apply ltb_lt in Hlt. by apply Qclt_le_weak.
Qed.

Lemma exitStateFor_stored exitStates mint price st :
  exitStates !! mint = Some st →
  exitStateFor exitStates mint price
  = mkExitState (tpHit st) (Math_max (highWaterMark st) price).
Proof.
  intros Hst. unfold exitStateFor, Math_max, gtb. rewrite Hst.
  destruct (ltb (highWaterMark st) price); [done|by destruct st].
Qed.

Lemma executeSell_reason sellToken position price profit pct type reason e :
  e ∈ executeSell sellToken position price profit pct type reason →
  ev_reason (exitEventOf e) = reason.
Proof.
  unfold executeSell. intros He.
  apply elem_of_cons in He as [->|He]; [done|].
  destruct (BigInt_ofNumber pct) as [n|].
  - destruct (sellToken _ _).
    + apply list_elem_of_singleton in He as ->. done.
    + apply list_elem_of_singleton in He as ->. done.
  - apply list_elem_of_singleton in He as ->. done.
Qed.

(** The ladder only adds targets, leaves the high-water mark alone, and
    never sells for a target that is already marked. *)
Lemma checkTakeProfitsLoop_spec sellToken targets position price profit st :
  let result := checkTakeProfitsLoop sellToken targets position price profit st in
  tpHit st ⊆ tpHit result.1
  ∧ highWaterMark result.1 = highWaterMark st
  ∧ ∀ target e, target ∈ tpHit st → e ∈ result.2 →
                ev_reason (exitEventOf e) ≠ TPHit target.
Proof.
  revert st. induction targets as [|tp rest IH]; intros st; cbn zeta.
  { cbn. split; [done|]. split; [done|]. intros ?? _ He. by apply elem_of_nil in He. }
  cbn [checkTakeProfitsLoop].
  destruct (geb profit (profitPercent tp)
            && negb (bool_decide (profitPercent tp ∈ tpHit st))) eqn:Hhit.
  - apply andb_true_iff in Hhit as [_ Hnew].
    apply negb_true_iff, bool_decide_eq_false in Hnew.
    specialize (IH (mkExitState ({[profitPercent tp]} ∪ tpHit st)
                      (highWaterMark st))).
    cbn zeta in IH.
    destruct (checkTakeProfitsLoop sellToken rest position price profit _)
      as [st' events'] eqn:Hrest.
    cbn [fst snd] in *. destruct IH as (Hsub & Hhwm & Hno).
    split; [set_solver|]. split; [done|].
    intros target e Htarget He. apply elem_of_app in He as [He|He].
    + apply executeSell_reason in He. rewrite He.
      intros [= Heq]. apply Hnew. by rewrite Heq.
    + apply (Hno target e); [set_solver|done].
  - apply IH.
Qed.

Lemma checkStopLoss_reason strategy sellToken position price profit target e :
  e ∈ checkStopLoss strategy sellToken position price profit →
  ev_reason (exitEventOf e) ≠ TPHit target.
Proof.
  unfold checkStopLoss. destruct (leb _ _).
  - intros He. apply executeSell_reason in He. by rewrite He.
  - intros He. by apply elem_of_nil in He.
Qed.

Lemma checkTimeLimit_reason strategy sellToken now position price profit target e :
  e ∈ checkTimeLimit strategy sellToken now position price profit →
  ev_reason (exitEventOf e) ≠ TPHit target.
Proof.
  unfold checkTimeLimit. destruct (negb _).
  { intros He. by apply elem_of_nil in He. }
  destruct (geb _ _).
  - intros He. apply executeSell_reason in He. by rewrite He.
  - intros He. by apply elem_of_nil in He.
Qed.

Lemma checkTrailingStop_reason strategy sellToken position price profit st target e :
  e ∈ checkTrailingStop strategy sellToken position price profit st →
  ev_reason (exitEventOf e) ≠ TPHit target.
Proof.
  unfold checkTrailingStop. destruct (_ || _).
  { intros He. by apply elem_of_nil in He. }
  destruct (ltb _ _).
  { intros He. by apply elem_of_nil in He. }
  destruct (geb _ _).
  - intros He. apply executeSell_reason in He. by rewrite He.
  - intros He. by apply elem_of_nil in He.
Qed.

(** A check of a position of [mint] against a stored exit state. *)
Lemma checkPosition_stored strategy sellToken now (prices : gmap string number)
      exitStates position (price : number) st :
  exitStates !! tokenMint position = Some st →
  prices !! tokenMint position = Some price →
  price ≠ 0%Qc →
  let profit := ((price / entryPrice position - 1) * ofZ 100)%Qc in
  let result :=
    checkPosition strategy sellToken now prices exitStates position in
  ∃ st' earlier,
    result.1 !! tokenMint position = Some st'
    ∧ tpHit st ⊆ tpHit st'
    ∧ highWaterMark st' = Math_max (highWaterMark st) price
    ∧ result.2
      = earlier
        ++ checkTrailingStop strategy sellToken position price profit st'
    ∧ ∀ target e, target ∈ tpHit st → e ∈ result.2 →
                  ev_reason (exitEventOf e) ≠ TPHit target.
Proof.
  intros Hst Hprice Hnonzero profit result. subst result.
  unfold checkPosition. rewrite Hprice.
  unfold eqb. rewrite bool_decide_eq_false_2 by done.
  rewrite (exitStateFor_stored _ _ _ _ Hst).
  unfold checkTakeProfits. fold profit.
  pose proof (checkTakeProfitsLoop_spec sellToken (takeProfitTargets strategy)
                position price profit
                (mkExitState (tpHit st) (Math_max (highWaterMark st) price)))
    as Hloop.
  cbn zeta in Hloop.
  destruct (checkTakeProfitsLoop _ _ _ _ _ _) as [st' ev1].
  cbn [fst snd tpHit highWaterMark] in *.
  destruct Hloop as (Hsub & Hhwm & Hno).
  exists st', (ev1 ++ checkStopLoss strategy sellToken position price profit
                ++ checkTimeLimit strategy sellToken now position price profit).
  split; [apply lookup_insert_eq|]. split; [done|]. split; [done|].
  split; [by rewrite <- !app_assoc|].
  intros target e Htarget He.
  apply elem_of_app in He as [He|He]; [by apply (Hno target e)|].
  apply elem_of_app in He as [He|He]; [by eapply checkStopLoss_reason|].
  apply elem_of_app in He as [He|He]; [by eapply checkTimeLimit_reason|].
  by eapply checkTrailingStop_reason.
Qed.

(** No check forgets an exit state. *)
Lemma checkPosition_extends strategy sellToken now prices exitStates position
      mint st :
  exitStates !! mint = Some st →
  ∃ st',
    (checkPosition strategy sellToken now prices exitStates position).1 !! mint
    = Some st'
    ∧ extends st st'.
Proof.
  intros Hst.
  destruct (decide (tokenMint position = mint)) as [<-|Hother].
  - destruct (prices !! tokenMint position) as [price|] eqn:Hprice.
    + destruct (decide (price = 0%Qc)) as [->|Hnonzero].
      * unfold checkPosition. rewrite Hprice. cbn.
        exists st. split; [done|apply extends_refl].
      * destruct (checkPosition_stored strategy sellToken now prices
                    exitStates position price st Hst Hprice Hnonzero)
          as (st' & _ & Hlookup & Hsub & Hhwm & _).
        exists st'. split; [done|]. split; [done|].
        rewrite Hhwm. apply Math_max_ge_l.
    + unfold checkPosition. rewrite Hprice.
      exists st. split; [done|apply extends_refl].
  - exists st. split; [|apply extends_refl].
    unfold checkPosition.
    destruct (prices !! tokenMint position) as [price|]; [|done].
    destruct (eqb price 0%Qc); [done|].
    destruct (checkTakeProfits _ _ _ _ _ _) as [st' ev1]. cbn [fst].
    by rewrite lookup_insert_ne.
Qed.

Lemma checkAllPositions_extends strategy sellToken now prices positions
      exitStates mint st :
  exitStates !! mint = Some st →
  ∃ st',
    (checkAllPositions strategy sellToken now prices positions exitStates).1
      !! mint = Some st'
    ∧ extends st st'.
Proof.
  revert exitStates st. induction positions as [|position rest IH];
    intros exitStates st Hst.
  { exists st. split; [done|apply extends_refl]. }
  cbn [checkAllPositions].
  destruct (checkPosition_extends strategy sellToken now prices exitStates
              position mint st Hst) as (st1 & Hst1 & Hext1).
  destruct (checkPosition _ _ _ _ _ _) as [exitStates1 events1].
  cbn [fst] in Hst1.
  destruct (IH exitStates1 st1 Hst1) as (st2 & Hst2 & Hext2).
  destruct (checkAllPositions _ _ _ _ _ _) as [exitStates2 events2].
  cbn [fst] in *. exists st2. split; [done|].
  by apply extends_trans with st1.
Qed.

Lemma step_extends s s' mint st :
  step s s' →
  exitStates s !! mint = Some st →
  ∃ st', exitStates s' !! mint = Some st' ∧ extends st st'.
Proof.
  intros Hstep Hst. destruct Hstep; cbn [exitStates].
  - exists st. split; [done|apply extends_refl].
  - exists st. split; [done|apply extends_refl].
  - by apply checkPosition_extends.
  - by apply checkAllPositions_extends.
Qed.

Lemma steps_extend s s' mint st :
  rtc step s s' →
  exitStates s !! mint = Some st →
  ∃ st', exitStates s' !! mint = Some st' ∧ extends st st'.
Proof.
  intros Hsteps. revert st.
  induction Hsteps as [s|s1 s2 s3 Hstep _ IH]; intros st Hst.
  { exists st. split; [done|apply extends_refl]. }
  destruct (step_extends _ _ _ _ Hstep Hst) as (st2 & Hst2 & Hext2).
  destruct (IH st2 Hst2) as (st3 & Hst3 & Hext3).
  exists st3. split; [done|]. by apply extends_trans with st2.
Qed.

Lemma wifOpen_to_wifReopened :
  ledger wifClosed !! WIF_MINT = None ∧ rtc step wifOpen wifReopened.
Proof.
  split; [by vm_compute|].
  apply (rtc_l _ wifOpen wifClosed wifReopened).
  { exact (step_recordSell wifOpen WIF_MINT 1000 (ofFrac 1851 1000) "sell1"). }
  apply rtc_once.
  exact (step_recordBuy wifClosed 100 WIF_MINT 2000 (ofZ 2) (ofFrac 1 1000)
           "buy2" None).
Qed.

End ExitState.

(** C10.  Once a mint has an exit state it keeps one through every
    later buy, sell (also the sell that closes and removes the
    position) and check, with every marked take-profit target still
    marked and a high-water mark that is not lower.  Hence a later check
    of any position in that mint, in particular of a newly opened one,
    triggers no take-profit for a target marked before, and computes
    the trailing stop against the maximum of the old high-water mark and
    the current price. *)
Theorem exit_state_never_deleted s s' mint st :
  rtc Lifecycle.step s s' →
  Lifecycle.exitStates s !! mint = Some st →
  ∃ st',
    Lifecycle.exitStates s' !! mint = Some st'
    ∧ ExitManager.tpHit st ⊆ ExitManager.tpHit st'
    ∧ (ExitManager.highWaterMark st ≤ ExitManager.highWaterMark st')%Qc
    ∧ ∀ strategy sellToken now (prices : gmap string number) position
        (price : number),
        PositionManager.tokenMint position = mint →
        prices !! mint = Some price →
        price ≠ 0%Qc →
        let profit :=
          ((price / PositionManager.entryPrice position - 1) * ofZ 100)%Qc in
        let result :=
          ExitManager.checkPosition strategy sellToken now prices
            (Lifecycle.exitStates s') position in
        (∀ target e,
           target ∈ ExitManager.tpHit st → e ∈ result.2 →
           ExitManager.ev_reason (Lifecycle.exitEventOf e)
           ≠ ExitManager.TPHit target)
        ∧ ∃ st'' earlier,
            result.1 !! mint = Some st''
            ∧ ExitManager.tpHit st ⊆ ExitManager.tpHit st''
            ∧ ExitManager.highWaterMark st''
              = Math_max (ExitManager.highWaterMark st') price
            ∧ result.2
              = earlier
                ++ ExitManager.checkTrailingStop strategy sellToken position
                     price profit st''.
Proof.
  intros Hsteps Hst.
  destruct (steps_extend s s' mint st Hsteps Hst) as (st' & Hst' & Hsub & Hhwm).
  exists st'. split; [done|]. split; [done|]. split; [done|].
  intros strategy sellToken now prices position price <- Hprice Hnonzero
    profit result.
  destruct (checkPosition_stored strategy sellToken now prices
              (Lifecycle.exitStates s') position price st' Hst' Hprice Hnonzero)
    as (st'' & earlier & Hlookup & Hsub' & Hhwm' & Hevents & Hno).
  split.
  - intros target e Htarget He. apply (Hno target e); [set_solver|done].
  - exists st'', earlier. split; [done|]. split; [set_solver|]. done.
Qed.

Lemma exit_state_never_deleted_witness :
  ∃ st',
    Lifecycle.exitStates wifReopened !! WIF_MINT = Some st'
    ∧ ExitManager.tpHit wifExitState ⊆ ExitManager.tpHit st'
    ∧ (ExitManager.highWaterMark wifExitState ≤ ExitManager.highWaterMark st')%Qc
    ∧ ∀ strategy sellToken now (prices : gmap string number) position
        (price : number),
        PositionManager.tokenMint position = WIF_MINT →
        prices !! WIF_MINT = Some price →
        price ≠ 0%Qc →
        let profit :=
          ((price / PositionManager.entryPrice position - 1) * ofZ 100)%Qc in
        let result :=
          ExitManager.checkPosition strategy sellToken now prices
            (Lifecycle.exitStates wifReopened) position in
        (∀ target e,
           target ∈ ExitManager.tpHit wifExitState → e ∈ result.2 →
           ExitManager.ev_reason (Lifecycle.exitEventOf e)
           ≠ ExitManager.TPHit target)
        ∧ ∃ st'' earlier,
            result.1 !! WIF_MINT = Some st''
            ∧ ExitManager.tpHit wifExitState ⊆ ExitManager.tpHit st''
            ∧ ExitManager.highWaterMark st''
              = Math_max (ExitManager.highWaterMark st') price
            ∧ result.2
              = earlier
                ++ ExitManager.checkTrailingStop strategy sellToken position
                     price profit st''.
Proof.
  apply (exit_state_never_deleted wifOpen wifReopened WIF_MINT wifExitState).
  - apply (rtc_l _ wifOpen wifClosed wifReopened).
    + exact (Lifecycle.step_recordSell wifOpen WIF_MINT 1000 (ofFrac 1851 1000)
               "sell1").
    + apply rtc_once.
      exact (Lifecycle.step_recordBuy wifClosed 100 WIF_MINT 2000 (ofZ 2)
               (ofFrac 1 1000) "buy2" None).
  - reflexivity.
Defined.

(** The same on numbers: the new position, bought at $0.001000, is
    checked at $0.001600 with the ladder (50, 25), (100, 50), (300, 100)
    and a 10% trailing stop active from +50%.  It is 60% up, yet the 50%
    target does not trigger, and the trailing stop fires against the
    old high-water mark of $0.001851. *)
Example reopened_position_inherits_exit_state :
  let strategy :=
    ExitManager.mkExitStrategy
      [ExitManager.mkTarget (ofZ 50) (ofZ 25);
       ExitManager.mkTarget (ofZ 100) (ofZ 50);
       ExitManager.mkTarget (ofZ 300) (ofZ 100)]
      (ofZ (-30)) (Some (ofZ 24)) (Some (ofZ 10)) (Some (ofZ 50)) in
  let result :=
    ExitManager.checkAllPositions strategy (λ _ _, Some "exit1"%string) 200
      {[ WIF_MINT := ofFrac 16 10000 ]}
      (PositionManager.getPositions (Lifecycle.ledger wifReopened))
      (Lifecycle.exitStates wifReopened) in
  (λ e, (ExitManager.ev_exitType (Lifecycle.exitEventOf e),
         this (ExitManager.ev_profitPercent (Lifecycle.exitEventOf e))))
    <$> result.2
  = [(ExitManager.trailing_stop, 60%Q); (ExitManager.trailing_stop, 60%Q)]
  ∧ (this ∘ ExitManager.highWaterMark) <$> result.1 !! WIF_MINT
    = Some (1851 # 1000000)%Q.
Proof. vm_compute. split; reflexivity. Qed.

(** * Further properties *)

(** ** Byte readers *)
Section BinaryFacts.
Import Binary.

Lemma byteValue_range b : 0 ≤ byteValue b < 256.
Proof.
  unfold byteValue. pose proof (Byte.to_N_bounded b). lia.
Qed.

Lemma bufGet_range buffer i : 0 ≤ toInt32Operand (bufGet buffer i) < 256.
Proof.
  unfold toInt32Operand, bufGet. destruct (i <? 0); [cbn; lia|].
  destruct (buffer !! Z.to_nat i) as [b|]; [|cbn; lia].
  cbn. apply byteValue_range.
Qed.

Lemma lor_lt_pow2 a b n :
  0 ≤ n → 0 ≤ a < 2 ^ n → 0 ≤ b < 2 ^ n → 0 ≤ Z.lor a b < 2 ^ n.
Proof.
  intros Hn Ha Hb. split; [apply Z.lor_nonneg; lia|].
  destruct (Z.eq_dec (Z.lor a b) 0) as [->|Hne]; [lia|].
  apply Z.log2_lt_pow2; [pose proof (Z.lor_nonneg a b); lia|].
  rewrite Z.log2_lor by lia.
  destruct (Z.eq_dec a 0) as [->|Ha0]; destruct (Z.eq_dec b 0) as [->|Hb0].
  - done.
  - rewrite Z.max_r by (apply Z.log2_nonneg). apply Z.log2_lt_pow2; lia.
  - rewrite Z.max_l by (apply Z.log2_nonneg). apply Z.log2_lt_pow2; lia.
  - apply Z.max_lub_lt; apply Z.log2_lt_pow2; lia.
Qed.

Lemma shiftl_lt_pow2 a k n :
  0 ≤ k → 0 ≤ n → 0 ≤ a < 2 ^ n → 0 ≤ Z.shiftl a k < 2 ^ (n + k).
Proof.
  intros Hk Hn Ha. rewrite Z.shiftl_mul_pow2 by done.
  rewrite Z.pow_add_r by done. nia.
Qed.

Lemma pow2_mono_lt a n m : 0 ≤ n ≤ m → 0 ≤ a < 2 ^ n → 0 ≤ a < 2 ^ m.
Proof.
  intros Hnm Ha. split; [lia|].
  apply Z.lt_le_trans with (2 ^ n); [lia|]. apply Z.pow_le_mono_r; lia.
Qed.

Lemma land127_range a : 0 ≤ a → 0 ≤ Z.land a 127 < 2 ^ 7.
Proof.
  intros Ha. change 127 with (Z.ones 7). rewrite Z.land_ones by lia.
  apply Z.mod_pos_bound. lia.
Qed.

Lemma readCompactU16_range buffer offset :
  0 ≤ offset →
  let '(value, consumed) := readCompactU16 buffer offset in
  0 ≤ value < 2 ^ 22
  ∧ (consumed = 0 ∧ value = 0 ∧ bufLength buffer ≤ offset + 2
     ∨ 1 ≤ consumed ≤ 3 ∧ offset + consumed ≤ bufLength buffer).
Proof.
  intros Hoff. unfold readCompactU16.
  pose proof (bufGet_range buffer offset) as H1.
  pose proof (bufGet_range buffer (offset + 1)) as H2.
  pose proof (bufGet_range buffer (offset + 2)) as H3.
  destruct (offset >=? bufLength buffer) eqn:E0; [split; [done|left; lia]|].
  destruct (_ <? 128) eqn:E1; [split; [lia|right; lia]|].
  destruct (offset + 1 >=? bufLength buffer) eqn:E2; [split; [done|left; lia]|].
  destruct (toInt32Operand (bufGet buffer (offset + 1)) <? 128) eqn:E3.
  - split; [|right; lia].
    apply (pow2_mono_lt _ 14); [lia|].
    apply lor_lt_pow2; [lia| |].
    + apply (pow2_mono_lt _ 7); [lia|]. apply land127_range; lia.
    + apply (shiftl_lt_pow2 _ 7 7); lia.
  - destruct (offset + 2 >=? bufLength buffer) eqn:E4; [split; [done|left; lia]|].
    split; [|right; lia].
    apply lor_lt_pow2; [lia| |].
    + apply (pow2_mono_lt _ 14); [lia|]. apply lor_lt_pow2; [lia| |].
      * apply (pow2_mono_lt _ 7); [lia|]. apply land127_range; lia.
      * apply (shiftl_lt_pow2 _ 7 7); [lia|lia|]. apply land127_range; lia.
    + apply (shiftl_lt_pow2 _ 14 8); [lia|lia|]. change (2^8) with 256. lia.
Qed.

(** X4.  Read at an offset that is not negative, [readCompactU16]
    returns a value below [2^22] and consumes at most three bytes, all
    of them inside the buffer; when it consumes nothing the value is 0
    and the buffer ends within two bytes of the offset. *)
Theorem readCompactU16_bounds buffer offset :
  0 ≤ offset →
  0 ≤ (readCompactU16 buffer offset).1 < 2 ^ 22
  ∧ ((readCompactU16 buffer offset).2 = 0
     ∧ (readCompactU16 buffer offset).1 = 0
     ∧ bufLength buffer ≤ offset + 2
     ∨ 1 ≤ (readCompactU16 buffer offset).2 ≤ 3
       ∧ offset + (readCompactU16 buffer offset).2 ≤ bufLength buffer).
Proof.
  intros Hoff. pose proof (readCompactU16_range buffer offset Hoff) as H.
  by destruct (readCompactU16 buffer offset).
Qed.

Lemma readCompactU16_bounds_witness :
  0 ≤ (readCompactU16 (bytesOf [255; 255; 255]) 0).1 < 2 ^ 22
  ∧ ((readCompactU16 (bytesOf [255; 255; 255]) 0).2 = 0
     ∧ (readCompactU16 (bytesOf [255; 255; 255]) 0).1 = 0
     ∧ bufLength (bytesOf [255; 255; 255]) ≤ 0 + 2
     ∨ 1 ≤ (readCompactU16 (bytesOf [255; 255; 255]) 0).2 ≤ 3
       ∧ 0 + (readCompactU16 (bytesOf [255; 255; 255]) 0).2
         ≤ bufLength (bytesOf [255; 255; 255])).
Proof. apply (readCompactU16_bounds (bytesOf [255; 255; 255]) 0). lia. Defined.

Lemma byteValue_u8 z : byteValue (u8 z) = z mod 256.
Proof.
  unfold byteValue, u8.
  pose proof (Z.mod_pos_bound z 256 ltac:(lia)) as Hr.
  destruct (Byte.of_N (Z.to_N (z mod 256))) as [b|] eqn:Hb.
  - apply Byte.to_of_N in Hb. cbn. rewrite Hb. lia.
  - apply Byte.of_N_None_iff in Hb. lia.
Qed.

Lemma bufGet_app_r pre l i :
  0 ≤ i → bufGet (pre ++ l) (bufLength pre + i) = bufGet l i.
Proof.
  intros Hi. unfold bufGet, bufLength.
  rewrite (proj2 (Z.ltb_ge _ _)) by lia. rewrite (proj2 (Z.ltb_ge _ _)) by lia.
  replace (Z.to_nat (Z.of_nat (length pre) + i))
    with (length pre + Z.to_nat i)%nat by lia.
  unfold Uint8Array. rewrite lookup_app_r by lia. do 2 f_equal. lia.
Qed.

Lemma bufGet_u64le z post (k : nat) :
  (k < 8)%nat →
  toInt32Operand (bufGet (u64le z ++ post) (Z.of_nat k))
  = Z.shiftr z (8 * Z.of_nat k) mod 256.
Proof.
  intros Hk. unfold bufGet. rewrite (proj2 (Z.ltb_ge _ _)) by lia.
  rewrite Nat2Z.id.
  do 8 (destruct k as [|k]; [cbn; by rewrite byteValue_u8|]). lia.
Qed.

Lemma testbit_byte z k n :
  0 ≤ k → 0 ≤ n →
  Z.testbit (Z.shiftl (Z.shiftr z k mod 256) k) n
  = (k <=? n) && (n <? k + 8) && Z.testbit z n.
Proof.
  intros Hk Hn. rewrite Z.shiftl_spec by done.
  destruct (k <=? n) eqn:E.
  - change 256 with (2 ^ 8). rewrite Z.testbit_mod_pow2 by lia.
    rewrite Z.shiftr_spec by lia. cbn [andb].
    replace (n - k + k) with n by lia.
    f_equal. apply eq_true_iff_eq. rewrite !Z.ltb_lt. lia.
  - cbn [andb]. apply Z.testbit_neg_r. lia.
Qed.

Lemma readU32_u64le_low pre z post :
  readU32 (pre ++ u64le z ++ post) (bufLength pre) = z mod 2 ^ 32.
Proof.
  unfold readU32.
  replace (bufLength pre) with (bufLength pre + Z.of_nat 0) at 1 by lia.
  change 1 with (Z.of_nat 1). change 2 with (Z.of_nat 2) at 1.
  change 3 with (Z.of_nat 3).
  rewrite !bufGet_app_r by lia. rewrite !bufGet_u64le by lia.
  apply Z.bits_inj'. intros n Hn.
  rewrite !Z.testbit_mod_pow2 by lia. rewrite !Z.lor_spec.
  rewrite <- (Z.shiftl_0_r (Z.shiftr z (8 * Z.of_nat 0) mod 256)) at 1.
  change (8 * Z.of_nat 0) with 0. change (8 * Z.of_nat 1) with 8.
  change (8 * Z.of_nat 2) with 16. change (8 * Z.of_nat 3) with 24.
  rewrite !testbit_byte by lia.
  destruct (Z.testbit z n); [|by rewrite !andb_false_r].
  rewrite !andb_true_r.
  destruct (n <? 32) eqn:E; [|done]. cbn [andb].
  destruct (0 <=? n) eqn:E0, (n <? 0 + 8) eqn:E1, (8 <=? n) eqn:E2,
    (n <? 8 + 8) eqn:E3, (16 <=? n) eqn:E4, (n <? 16 + 8) eqn:E5,
    (24 <=? n) eqn:E6, (n <? 24 + 8) eqn:E7; cbn; try done; lia.
Qed.

Lemma readU32_u64le_high pre z post :
  readU32 (pre ++ u64le z ++ post) (bufLength pre + 4)
  = Z.shiftr z 32 mod 2 ^ 32.
Proof.
  unfold readU32.
  replace (bufLength pre + 4 + 1) with (bufLength pre + Z.of_nat 5) by lia.
  replace (bufLength pre + 4 + 2) with (bufLength pre + Z.of_nat 6) by lia.
  replace (bufLength pre + 4 + 3) with (bufLength pre + Z.of_nat 7) by lia.
  change 4 with (Z.of_nat 4).
  rewrite !bufGet_app_r by lia. rewrite !bufGet_u64le by lia.
  apply Z.bits_inj'. intros n Hn.
  rewrite !Z.testbit_mod_pow2 by lia. rewrite !Z.lor_spec.
  change (8 * Z.of_nat 4) with (32 + 0). change (8 * Z.of_nat 5) with (32 + 8).
  change (8 * Z.of_nat 6) with (32 + 16). change (8 * Z.of_nat 7) with (32 + 24).
  rewrite <- !Z.shiftr_shiftr by lia.
  rewrite <- (Z.shiftl_0_r (Z.shiftr (Z.shiftr z 32) 0 mod 256)) at 1.
  rewrite !testbit_byte by lia.
  destruct (Z.testbit (Z.shiftr z 32) n); [|by rewrite !andb_false_r].
  rewrite !andb_true_r.
  destruct (n <? 32) eqn:E; [|done]. cbn [andb].
  destruct (0 <=? n) eqn:E0, (n <? 0 + 8) eqn:E1, (8 <=? n) eqn:E2,
    (n <? 8 + 8) eqn:E3, (16 <=? n) eqn:E4, (n <? 16 + 8) eqn:E5,
    (24 <=? n) eqn:E6, (n <? 24 + 8) eqn:E7; cbn; try done; lia.
Qed.

(** [readU64] at the place where [u64le z] was written. *)
Lemma readU64_u64le pre z post :
  readU64 (pre ++ u64le z ++ post) (bufLength pre) = z mod 2 ^ 64.
Proof.
  unfold readU64. rewrite readU32_u64le_low, readU32_u64le_high.
  apply Z.bits_inj'. intros n Hn.
  rewrite Z.lor_spec, !Z.testbit_mod_pow2 by lia.
  rewrite Z.shiftl_spec by lia.
  destruct (Z.ltb_spec n 32) as [Hlt|Hge].
  - rewrite (Z.testbit_neg_r _ (n - 32)) by lia.
    rewrite orb_false_r. cbn [andb].
    by rewrite (proj2 (Z.ltb_lt n 64)) by lia.
  - cbn [andb orb]. rewrite Z.testbit_mod_pow2 by lia.
    rewrite Z.shiftr_spec by lia. replace (n - 32 + 32) with n by lia.
    f_equal. apply eq_true_iff_eq. rewrite !Z.ltb_lt. lia.
Qed.

(** X5.  [readU64] reads back every unsigned 64-bit value from the
    eight bytes that a little-endian [setBigUint64] writes for it,
    wherever they stand in a buffer. *)
Theorem readU64_round_trip pre z post :
  0 ≤ z < 2 ^ 64 →
  readU64 (pre ++ u64le z ++ post) (bufLength pre) = z.
Proof.
  intros Hz. rewrite readU64_u64le. by apply Z.mod_small.
Qed.

Lemma readU64_round_trip_witness :
  readU64 (bytesOf [7; 7] ++ u64le 18446744073709551615 ++ bytesOf [9])
    (bufLength (bytesOf [7; 7]))
  = 18446744073709551615.
Proof.
  apply (readU64_round_trip (bytesOf [7; 7]) 18446744073709551615 (bytesOf [9])).
  split; [lia|reflexivity].
Defined.

End BinaryFacts.

(** ** Wire-form measurement and entry decoding *)
Section MinimumSize.
Import Binary SolanaTx Entries.

Ltac read_at buffer o v c H :=
  let Hb := fresh "Hb" in
  assert (Hb : 0 ≤ o) by lia;
  pose proof (readCompactU16_range buffer o Hb) as H;
  destruct (readCompactU16 buffer o) as [v c]; clear Hb.

Lemma measureTransactionSize_lower_bound buffer :
  measureTransactionSize buffer ≠ 0 →
  101 ≤ measureTransactionSize buffer ∧ 101 ≤ bufLength buffer.
Proof.
  unfold measureTransactionSize.
  read_at buffer 0 numSigs sigBytes H0.
  destruct ((numSigs =? 0) || (numSigs >? 64)) eqn:Hsigs; [done|].
  apply orb_false_iff in Hsigs as [Hs0 Hs64].
  apply Z.eqb_neq in Hs0. rewrite Z.gtb_ltb in Hs64. apply Z.ltb_ge in Hs64.
  destruct (_ >=? _) eqn:E1; [done|].
  rewrite Z.geb_leb in E1; apply Z.leb_gt in E1.
  destruct (bool_decide _).
  - destruct (_ >? _) eqn:E2; [done|].
    rewrite Z.gtb_ltb in E2; apply Z.ltb_ge in E2.
    match goal with |- context [readCompactU16 buffer ?o] =>
      read_at buffer o numStaticKeys staticKeyBytes H1 end.
    destruct (_ >? _) eqn:E3; [done|].
    rewrite Z.gtb_ltb in E3; apply Z.ltb_ge in E3.
    match goal with |- context [readCompactU16 buffer ?o] =>
      read_at buffer o numInstructions instrBytes H2 end.
    destruct (skipInstructions _ _ _) as [offset1|] eqn:Hins; [|done].
    apply skipInstructions_monotone in Hins.
    pose proof (readCompactU16_nonneg buffer offset1) as [Hv3 Hn3].
    destruct (readCompactU16 buffer offset1) as [numLookups lookupBytes].
    cbn [fst snd] in *.
    destruct (skipLookups _ _ _) as [offset2|] eqn:Hlk; [|done].
    apply skipLookups_monotone in Hlk. intros _. lia.
  - destruct (_ >? _) eqn:E2; [done|].
    rewrite Z.gtb_ltb in E2; apply Z.ltb_ge in E2.
    match goal with |- context [readCompactU16 buffer ?o] =>
      read_at buffer o numKeys keyBytes H1 end.
    destruct (_ >? _) eqn:E3; [done|].
    rewrite Z.gtb_ltb in E3; apply Z.ltb_ge in E3.
    match goal with |- context [readCompactU16 buffer ?o] =>
      read_at buffer o numInstructions instrBytes H2 end.
    destruct (skipInstructions _ _ _) as [offset1|] eqn:Hins; [|done].
    apply skipInstructions_monotone in Hins. intros _. lia.
Qed.

(** X6.  A buffer shorter than 101 bytes (one signature, the header, the
    key count and the block hash) never measures as a transaction:
    [measureTransactionSize] returns 0 for it. *)
Theorem measureTransactionSize_short buffer :
  bufLength buffer < 101 → measureTransactionSize buffer = 0.
Proof.
  intros Hshort.
  destruct (decide (measureTransactionSize buffer = 0)) as [|Hne]; [done|].
  apply measureTransactionSize_lower_bound in Hne. lia.
Qed.

Lemma measureTransactionSize_short_witness :
  measureTransactionSize (take 100 minimalTx) = 0.
Proof.
  apply (measureTransactionSize_short (take 100 minimalTx)). reflexivity.
Defined.

Lemma readTransactions_sizes fuel entriesBytes txCount t offset acc result :
  0 ≤ offset →
  Forall (λ tx : Uint8Array, 101 ≤ bufLength tx) acc →
  readTransactions fuel entriesBytes txCount t offset acc = Some result →
  Forall (λ tx : Uint8Array, 101 ≤ bufLength tx) result.1.
Proof.
  revert t offset acc. induction fuel as [|fuel IH];
    intros t offset acc Hoff Hacc; cbn [readTransactions]; [done|].
  destruct (t <? txCount); [|by intros [= <-]].
  destruct (offset >=? bufLength entriesBytes) eqn:Hend; [by intros [= <-]|].
  destruct (measureTransactionSize (bufSliceFrom entriesBytes offset) =? 0)
    eqn:Hzero; [by intros [= <-]|].
  apply Z.eqb_neq in Hzero.
  apply measureTransactionSize_lower_bound in Hzero as [Hsize Hlen].
  apply IH; [lia|].
  apply Forall_app. split; [done|]. apply Forall_singleton.
  unfold bufSlice, bufSliceFrom, bufLength in *.
  rewrite length_take. lia.
Qed.

Lemma readEntries_sizes fuel entriesBytes length_ i offset acc entries :
  0 ≤ offset →
  Forall (λ e, Forall (λ tx : Uint8Array, 101 ≤ bufLength tx) (transactions e))
    acc →
  readEntries fuel entriesBytes length_ i offset acc = Some (Entries_ entries) →
  Forall (λ e, Forall (λ tx : Uint8Array, 101 ≤ bufLength tx) (transactions e))
    entries.
Proof.
  revert i offset acc. induction fuel as [|fuel IH];
    intros i offset acc Hoff Hacc; cbn [readEntries]; [done|].
  destruct (i <? length_); [|by intros [= <-]].
  destruct (_ >? bufLength entriesBytes); [done|].
  destruct (readU64 entriesBytes (offset + 8 + 32) >? 0).
  - destruct (readTransactions _ _ _ _ _ _) as [[txs offset']|] eqn:Htx; [|done].
    pose proof (readTransactions_returns (S (length entriesBytes)) entriesBytes
                  (readU64 entriesBytes (offset + 8 + 32)) 0
                  (offset + 8 + 32 + 8) [])
      as (txs' & offset'' & Heq & Hle); [lia|unfold bufLength; lia|].
    rewrite Htx in Heq. injection Heq as <- <-.
    apply readTransactions_sizes in Htx; [|lia|done].
    apply IH; [lia|]. apply Forall_app. split; [done|].
    by apply Forall_singleton.
  - apply IH; [lia|]. apply Forall_app. split; [done|].
    by apply Forall_singleton.
Qed.

(** X7.  Every transaction that [deserializeEntries] returns is a slice
    of at least 101 bytes of the payload: the decoder never returns an
    empty or truncated-to-nothing transaction. *)
Theorem deserializeEntries_transaction_sizes entriesBytes :
  match deserializeEntries entriesBytes with
  | Some (Entries_ entries) =>
      Forall
        (λ e, Forall (λ tx : Uint8Array, 101 ≤ bufLength tx) (transactions e))
        entries
  | _ => True
  end.
Proof.
  destruct (deserializeEntries entriesBytes) as [[entries|]|] eqn:Hd; [|done..].
  unfold deserializeEntries in Hd.
  by apply readEntries_sizes in Hd; [|lia|done].
Qed.

End MinimumSize.

Section EntriesRoundTrip.
Import Binary SolanaTx Entries EntriesTest.

Lemma writeEntries_parts entries parts :
  Forall (λ e, length e.(in_hash) = 32%nat) entries →
  ∃ parts',
    writeEntries entries parts = Returns parts'
    ∧ concat parts' = concat parts ++ concat (encodeEntry <$> entries).
Proof.
  revert parts. induction entries as [|e rest IH]; intros parts Hall.
  { exists parts. by rewrite app_nil_r. }
  apply Forall_cons in Hall as [He Hrest]. cbn [writeEntries].
  unfold bufLength. rewrite He.
  change (Z.of_nat 32 =? 32) with true. cbn [negb].
  destruct (IH (((parts ++ [u64le (in_numHashes e)]) ++ [in_hash e])
                  ++ [u64le (in_txCount e)] ++ in_transactions e))
    as (parts' & Hw & Hc); [done|].
  exists parts'. rewrite <- !app_assoc in *. split; [done|].
  rewrite Hc. rewrite !concat_app. cbn [concat fmap list_fmap].
  unfold encodeEntry. rewrite !app_nil_r. by rewrite <- !app_assoc.
Qed.

Lemma u64le_length z : length (u64le z) = 8%nat.
Proof. reflexivity. Qed.

Lemma bufSlice_app pre (l post : Uint8Array) :
  bufSlice (pre ++ l ++ post) (bufLength pre)
    (bufLength pre + Z.of_nat (length l)) = l.
Proof.
  unfold bufSlice, bufLength.
  replace (Z.to_nat (_ + _ - _)) with (length l) by lia.
  rewrite Nat2Z.id, drop_app_length. by rewrite take_app_length.
Qed.

Lemma encoded_entry_facts pre e (tail_ : Uint8Array) :
  emptyEntry e →
  let buf := pre ++ encodeEntry e ++ tail_ in
  readU64 buf (bufLength pre) = in_numHashes e mod 2 ^ 64
  ∧ bufSlice buf (bufLength pre + 8) (bufLength pre + 8 + 32) = in_hash e
  ∧ bufLength buf = bufLength pre + 48 + bufLength tail_
  ∧ readU64 buf (bufLength pre + 8 + 32) = 0
  ∧ bufLength (pre ++ encodeEntry e) = bufLength pre + 8 + 32 + 8.
Proof.
  intros (Hhash & Hcount & Htxs) buf. subst buf. unfold encodeEntry.
  rewrite Hcount, Htxs. cbn [concat]. rewrite app_nil_r.
  rewrite <- !app_assoc. split; [apply readU64_u64le|]. split.
  { rewrite (app_assoc pre (u64le _)).
    replace (bufLength pre + 8) with (bufLength (pre ++ u64le (in_numHashes e)))
      by (unfold bufLength; rewrite length_app, u64le_length; lia).
    replace 32 with (Z.of_nat (length (in_hash e))) by lia.
    by rewrite bufSlice_app. }
  split.
  { unfold bufLength. rewrite !length_app, !u64le_length. lia. }
  split.
  { rewrite (app_assoc (u64le _)), (app_assoc pre).
    replace (bufLength pre + 8 + 32)
      with (bufLength (pre ++ u64le (in_numHashes e) ++ in_hash e))
      by (unfold bufLength; rewrite !length_app, u64le_length; lia).
    by rewrite readU64_u64le. }
  unfold bufLength. rewrite !length_app, !u64le_length. lia.
Qed.

Lemma readEntries_encoded fuel pre rest length_ i acc :
  Forall emptyEntry rest →
  (length rest < fuel)%nat →
  i + Z.of_nat (length rest) = length_ →
  readEntries fuel (pre ++ concat (encodeEntry <$> rest)) length_ i
    (bufLength pre) acc
  = Some (Entries_ (acc ++ (decoded <$> rest))).
Proof.
  revert pre rest i acc. induction fuel as [|fuel IH];
    intros pre rest i acc Hall Hfuel Hi; [lia|].
  destruct rest as [|e rest].
  { cbn [readEntries]. cbn in Hi.
    rewrite (proj2 (Z.ltb_ge _ _)) by lia. by rewrite app_nil_r. }
  apply Forall_cons in Hall as [He Hrest].
  cbn [fmap list_fmap concat].
  change (list_fmap _ _ encodeEntry rest) with (encodeEntry <$> rest).
  destruct (encoded_entry_facts pre e (concat (encodeEntry <$> rest)) He)
    as (H1 & H2 & H3 & H4 & H5).
  specialize (IH (pre ++ encodeEntry e) rest (i + 1)
                (acc ++ [decoded e]) Hrest).
  rewrite <- app_assoc in IH. rewrite H5 in IH.
  remember (pre ++ encodeEntry e ++ concat (encodeEntry <$> rest)) as buf.
  cbn [readEntries]. cbn [length] in *.
  rewrite (proj2 (Z.ltb_lt _ _)) by lia.
  rewrite H1, H2, H3, H4.
  destruct (bufLength pre + 8 + 32 + 8 >? _) eqn:Hgt;
    [apply Z.gtb_lt in Hgt; unfold bufLength in Hgt; lia|].
  change (0 >? 0) with false. cbn iota.
  unfold decoded in *. rewrite IH by lia. by rewrite <- app_assoc.
Qed.

Lemma encoded_length entries :
  (length entries ≤ length (concat (encodeEntry <$> entries)))%nat.
Proof.
  induction entries as [|e rest IH]; [done|].
  cbn [fmap list_fmap concat length]. rewrite length_app.
  unfold encodeEntry at 1. rewrite length_app, u64le_length.
  change (list_fmap _ _ encodeEntry rest) with (encodeEntry <$> rest). lia.
Qed.

(** X8.  Round trip with the encoder of the tests: for entries with a
    32-byte hash and no transactions, [createEntryBytes] succeeds and
    [deserializeEntries] returns the same entries, in order, with the
    hash counts read back modulo [2^64]. *)
Theorem deserializeEntries_createEntryBytes entries :
  Forall emptyEntry entries →
  Z.of_nat (length entries) < 2 ^ 64 →
  ∃ entriesBytes,
    createEntryBytes entries = Returns entriesBytes
    ∧ deserializeEntries entriesBytes = Some (Entries_ (decoded <$> entries)).
Proof.
  intros Hall Hlen. unfold createEntryBytes.
  destruct (writeEntries_parts entries [u64le (Z.of_nat (length entries))])
    as (parts & -> & Hc).
  { eapply Forall_impl; [done|]. by intros e (? & _). }
  cbn [bindOutcome]. eexists. split; [done|].
  rewrite Hc. cbn [concat]. rewrite app_nil_r.
  unfold deserializeEntries.
  pose proof (readU64_u64le [] (Z.of_nat (length entries))
                (concat (encodeEntry <$> entries))) as Hread.
  cbn [app] in Hread. change (bufLength []) with 0 in Hread. rewrite Hread.
  rewrite Z.mod_small by (split; [lia|done]).
  change (0 + 8) with (bufLength (u64le (Z.of_nat (length entries)))).
  rewrite readEntries_encoded; [done|done| |lia].
  rewrite length_app. pose proof (encoded_length entries). lia.
Qed.

Lemma deserializeEntries_createEntryBytes_witness :
  let entries :=
    [mkEntryInput 100 (bytesOf (replicate 32 17)) 0 [];
     mkEntryInput 200 (bytesOf (replicate 32 34)) 0 []] in
  ∃ entriesBytes,
    createEntryBytes entries = Returns entriesBytes
    ∧ deserializeEntries entriesBytes = Some (Entries_ (decoded <$> entries)).
Proof.
  apply (deserializeEntries_createEntryBytes
           [mkEntryInput 100 (bytesOf (replicate 32 17)) 0 [];
            mkEntryInput 200 (bytesOf (replicate 32 34)) 0 []]).
  - repeat constructor.
  - reflexivity.
Defined.

End EntriesRoundTrip.

(** The decoder on a payload that carries a transaction: the entry
    comes back with the 101 bytes of the transaction. *)
Example oneTxPayload_decodes :
  Entries.deserializeEntries oneTxPayload
  = Some (Entries.Entries_
            [Entries.mkSolanaEntry 100 (bytesOf (replicate 32 170)) [minimalTx]])
  ∧ bufLength minimalTx = 101.
Proof. split; by vm_compute. Qed.

(** ** The risk gate and the ledger in double precision *)
Section GateAndLedger.
Import PositionManager64.

Lemma Prim2SF_zero : Prim2SF 0%float = S754_zero false.
Proof. reflexivity. Qed.

(** Adding to 0 changes no comparison: [0 + a] is [a], or [+0] for
    [a = -0]. *)
Lemma ltb_zero_add x a : (x <? 0 + a)%float = (x <? a)%float.
Proof.
  rewrite !ltb_spec, add_spec, Prim2SF_zero.
  unfold SF64add, SFadd.
  destruct (Prim2SF a) as [[]| | |]; try reflexivity;
    destruct (Prim2SF x) as [[]| | |]; reflexivity.
Qed.

Lemma addedTo_snoc sum terms term :
  addedTo sum (terms ++ [term]) = (addedTo sum terms + term)%float.
Proof.
  revert sum. induction terms as [|t terms IH]; intros sum; [done|].
  cbn. apply IH.
Qed.

Lemma costs_snoc positions kv :
  costs (positions ++ [kv]) = costs positions ++ [totalCostUsdc kv.2].
Proof. unfold costs. by rewrite fmap_app. Qed.

Lemma omapSet_Forall {V} (P : string * V → Prop) (m : OrderedMap V) k v :
  Forall P m → P (k, v) → Forall P (omapSet m k v).
Proof.
  intros Hm Hv. induction Hm as [|[k' v'] m Hkv Hm IH]; cbn.
  - by constructor.
  - destruct (bool_decide (k' = k)); by constructor.
Qed.

(** X9.  The risk gate and the ledger update fit together, in the
    double arithmetic of the code.  When [canTrade] allows a buy and
    the buy is recorded with the same amount on the ledger the gate
    has seen (no other trade recorded in between), the position of the
    mint is not above the per-position limit, and a ledger whose
    positions are all within that limit stays so.  When the buy opens a
    position, the total exposure of the new ledger is the sum the gate
    has tested and is not above its limit, and the position was added
    while the number of positions was below the maximum. *)
Theorem canTrade_buy_keeps_limits limits positions mint amountUsdc balance now
    tokenAmount price sig sym :
  allowed (canTrade limits positions mint buy amountUsdc balance).1 = true →
  let positions' :=
    (recordBuy positions now mint tokenAmount amountUsdc price sig sym).1 in
  (∃ p, held positions' mint = Some p
        ∧ (maxPositionSizeUsdc limits <? totalCostUsdc p)%float = false)
  ∧ (sizesWithin limits positions → sizesWithin limits positions')
  ∧ (held positions mint = None →
     (maxTotalExposureUsdc limits <? totalExposure positions')%float = false
     ∧ length positions' = S (length positions)
     ∧ (maxOpenPositions limits
        <=? Number64 (Z.of_nat (length positions)))%float = false).
Proof.
  intros Hallowed positions'. subst positions'.
  unfold canTrade in Hallowed. rewrite getTotalExposure_costs in Hallowed.
  destruct (_ <? minUsdcReserve limits)%float; [done|].
  destruct (maxPositionSizeUsdc limits <? _)%float eqn:Hsize; [done|].
  destruct (maxTotalExposureUsdc limits <? _)%float eqn:Hexposure; [done|].
  destruct (bool_decide (omapGet positions mint = None) && _) eqn:Hcount;
    [done|].
  clear Hallowed. unfold recordBuy. rewrite <- !omapGet_held.
  destruct (omapGet positions mint) as [existing|] eqn:Hp; cbn [fst].
  - split; [|split; [|done]].
    + eexists. split; [apply omapGet_omapSet_eq|]. exact Hsize.
    + intros Hwithin. by apply omapSet_Forall.
  - rewrite ltb_zero_add in Hsize. split; [|split].
    + eexists. split; [apply omapGet_omapSet_eq|]. exact Hsize.
    + intros Hwithin. by apply omapSet_Forall.
    + intros _. rewrite omapSet_absent by done.
      unfold totalExposure. rewrite costs_snoc, addedTo_snoc.
      cbn [snd totalCostUsdc].
      split; [exact Hexposure|]. split.
      * rewrite length_app. cbn. lia.
      * rewrite bool_decide_eq_true_2 in Hcount by done. exact Hcount.
Qed.

End GateAndLedger.

Lemma canTrade_buy_keeps_limits_witness :
  let positions := [positionOf "A" 48%float] in
  let positions' :=
    (PositionManager64.recordBuy positions 0 "B" 6084613 2%float
       (2 / Number64 6084613)%float "copy1" None).1 in
  (∃ p, held positions' "B" = Some p
        ∧ (50 <? PositionManager64.totalCostUsdc p)%float = false)
  ∧ (sizesWithin defaultRiskLimits64 positions
     → sizesWithin defaultRiskLimits64 positions')
  ∧ (held positions "B" = None →
     (200 <? totalExposure positions')%float = false
     ∧ length positions' = 2%nat
     ∧ (10 <=? Number64 1)%float = false).
Proof.
  apply (canTrade_buy_keeps_limits defaultRiskLimits64 [positionOf "A" 48%float]
           "B" 2%float 100%float 0 6084613 (2 / Number64 6084613)%float
           "copy1" None).
  vm_compute. reflexivity.
Defined.

(** A buy into an existing position adds its cost at another place of
    the sum: the gate tests [(0.2 + 0.3) + 0.1], which is [0.6], and
    the ledger then adds up to [(0.2 + 0.1) + 0.3], which is
    [0.6000000000000001] and above the limit of [0.6]. *)
Example recordBuy_existing_rounds_above_limit :
  let limits :=
    PositionManager64.mkRiskLimits 50%float 0.6%float 10%float 0%float in
  let positions := [positionOf "A" 0.2%float; positionOf "B" 0.3%float] in
  let positions' :=
    (PositionManager64.recordBuy positions 0 "A" 1000 0.1%float 0.0001%float
       "buy2" None).1 in
  PositionManager64.allowed
    (PositionManager64.canTrade limits positions "A" buy 0.1%float 100%float).1
  = true
  ∧ PositionManager64.getTotalExposure positions' = 0.6000000000000001%float
  ∧ (0.6 <? PositionManager64.getTotalExposure positions')%float = true.
Proof. repeat split; vm_compute; reflexivity. Qed.

(** ** Ledger accounting *)
Section LedgerAccounting.
Import PositionManager.


Lemma applyOp_wellFormed positions op :
  positiveBuy op → wellFormed positions → wellFormed (applyOp positions op).
Proof.
  intros Hop Hwf k q. destruct op as [now mint raw usdc price sig sym
                                     |mint raw usdc sig]; cbn [applyOp].
  - cbn in Hop. unfold recordBuy.
    destruct (positions !! mint) as [p|] eqn:Hp; cbn [fst].
    + destruct (decide (k = mint)) as [->|Hk].
      * rewrite lookup_insert_eq. intros [= <-].
        destruct (Hwf _ _ Hp) as (? & ? & ? & ? & ?). cbn.
        rewrite length_app. cbn. repeat split; try done; lia.
      * rewrite lookup_insert_ne by done. apply Hwf.
    + destruct (decide (k = mint)) as [->|Hk].
      * rewrite lookup_insert_eq. intros [= <-]. cbn. repeat split; done.
      * rewrite lookup_insert_ne by done. apply Hwf.
  - unfold recordSell.
    destruct (positions !! mint) as [p|] eqn:Hp; cbn [fst snd]; [|apply Hwf].
    destruct (amount p - raw <? 0) eqn:Hneg; cbn [fst snd]; [apply Hwf|].
    destruct (amount p - raw =? 0) eqn:Hzero; cbn [fst snd].
    + intros Hq. apply lookup_delete_Some in Hq as [_ Hq]. by apply Hwf.
    + destruct (decide (k = mint)) as [->|Hk].
      * rewrite lookup_insert_eq. intros [= <-].
        destruct (Hwf _ _ Hp) as (? & ? & ? & ? & ?). cbn.
        rewrite length_app. cbn. repeat split; try done; lia.
      * rewrite lookup_insert_ne by done. apply Hwf.
Qed.

(** X11.  The invariant of the ledger: under any sequence of
    [recordBuy] calls with positive amounts and of [recordSell] calls
    with any arguments, every position is stored under its own mint,
    holds a positive amount, and lists as many trades as its buy and
    sell counters add up to. *)
Theorem ledger_wellFormed ops positions :
  Forall positiveBuy ops →
  wellFormed positions →
  wellFormed (foldl applyOp positions ops).
Proof.
  revert positions. induction ops as [|op ops IH]; intros positions Hops Hwf;
    [done|].
  apply Forall_cons in Hops as [Hop Hops]. cbn [foldl].
  apply IH; [done|]. by apply applyOp_wellFormed.
Qed.




End LedgerAccounting.

Section LedgerWitnesses.
Import PositionManager.

Lemma ledger_wellFormed_witness : wellFormed (foldl applyOp ∅ someOps).
Proof.
  apply (ledger_wellFormed someOps ∅).
  - repeat constructor; cbn; lia.
  - intros mint p Hp. by rewrite lookup_empty in Hp.
Defined.


End LedgerWitnesses.

(** ** Exits *)
Section ExitLadder.
Import PositionManager ExitManager Lifecycle.

Lemma checkTakeProfitsLoop_marks sellToken targets position price profit st t :
  t ∈ tpHit (checkTakeProfitsLoop sellToken targets position price profit st).1
  ↔ t ∈ tpHit st
    ∨ ∃ tp, tp ∈ targets ∧ profitPercent tp = t ∧ (t ≤ profit)%Qc.
Proof.
  revert st. induction targets as [|tp rest IH]; intros st.
  { cbn. split; [by left|]. intros [?|(tp & Htp & _)]; [done|].
    by apply elem_of_nil in Htp. }
  cbn [checkTakeProfitsLoop].
  destruct (geb profit (profitPercent tp)
            && negb (bool_decide (profitPercent tp ∈ tpHit st))) eqn:Hhit.
  - apply andb_true_iff in Hhit as [Hreach _]. apply geb_le in Hreach.
    specialize (IH (mkExitState ({[profitPercent tp]} ∪ tpHit st)
                      (highWaterMark st))).
    destruct (checkTakeProfitsLoop sellToken rest position price profit _)
      as [st' events'].
    cbn [fst tpHit] in *. rewrite IH. split.
    + intros [Hin|(tp' & Htp' & Heq & Hle)].
      * apply elem_of_union in Hin as [Hin|Hin]; [|by left].
        apply elem_of_singleton in Hin as ->. right. exists tp.
        split; [apply list_elem_of_here|done].
      * right. exists tp'. split; [by apply list_elem_of_further|done].
    + intros [Hin|(tp' & Htp' & Heq & Hle)].
      * left. apply elem_of_union. by right.
      * apply elem_of_cons in Htp' as [->|Htp'].
        -- left. apply elem_of_union. left. by apply elem_of_singleton.
        -- right. by exists tp'.
  - rewrite IH. split.
    + intros [Hin|(tp' & Htp' & Heq & Hle)]; [by left|].
      right. exists tp'. split; [by apply list_elem_of_further|done].
    + intros [Hin|(tp' & Htp' & Heq & Hle)]; [by left|].
      apply elem_of_cons in Htp' as [->|Htp']; [|right; by exists tp'].
      left. apply andb_false_iff in Hhit as [Hreach|Hmarked].
      * apply not_true_iff_false in Hreach. exfalso. apply Hreach.
        apply geb_le. by rewrite Heq.
      * apply negb_false_iff, bool_decide_eq_true in Hmarked. by rewrite <- Heq.
Qed.

(** X13.  After a check of the take-profit ladder the marked levels are
    the levels marked before together with every level of the ladder
    that the profit has reached, whatever the executor answered: a
    level whose sell failed is marked like one whose sell went
    through. *)
Theorem checkTakeProfits_marks_reached strategy sellToken position price
    profit st t :
  t ∈ tpHit (checkTakeProfits strategy sellToken position price profit st).1
  ↔ t ∈ tpHit st
    ∨ ∃ tp, tp ∈ takeProfitTargets strategy ∧ profitPercent tp = t
            ∧ (t ≤ profit)%Qc.
Proof. apply checkTakeProfitsLoop_marks. Qed.

Lemma checkTakeProfitsLoop_all_marked sellToken targets position price profit st :
  (∀ tp, tp ∈ targets → (profitPercent tp ≤ profit)%Qc →
         profitPercent tp ∈ tpHit st) →
  checkTakeProfitsLoop sellToken targets position price profit st = (st, []).
Proof.
  induction targets as [|tp rest IH]; intros Hmarked; [done|].
  cbn [checkTakeProfitsLoop].
  destruct (geb profit (profitPercent tp)
            && negb (bool_decide (profitPercent tp ∈ tpHit st))) eqn:Hhit.
  - apply andb_true_iff in Hhit as [Hreach Hnew]. apply geb_le in Hreach.
    apply negb_true_iff, bool_decide_eq_false in Hnew.
    exfalso. apply Hnew, Hmarked; [apply list_elem_of_here|done].
  - apply IH. intros tp' Htp'. apply Hmarked. by apply list_elem_of_further.
Qed.

(** X14.  The ladder sells at most once per level: after a completed
    check at some profit, a check at the same or a lower profit (of any
    position value, at any price, with any executor) triggers no
    take-profit exit and leaves the exit state as it is. *)
Theorem checkTakeProfits_once strategy sellToken sellToken' position position'
    price price' profit profit' st :
  (profit' ≤ profit)%Qc →
  let st' := (checkTakeProfits strategy sellToken position price profit st).1 in
  checkTakeProfits strategy sellToken' position' price' profit' st' = (st', []).
Proof.
  intros Hle st'. unfold checkTakeProfits.
  apply checkTakeProfitsLoop_all_marked. intros tp Htp Hreach.
  subst st'. unfold checkTakeProfits. apply checkTakeProfitsLoop_marks. right.
  exists tp. split; [done|]. split; [done|].
  by apply Qcle_trans with profit'.
Qed.
End ExitLadder.

Section ExitSells.
Import PositionManager ExitManager Lifecycle.

Lemma BigInt_ofNumber_range (pct : number) n :
  (0 ≤ pct)%Qc → (pct ≤ ofZ 100)%Qc →
  BigInt_ofNumber pct = Some n → 0 ≤ n ≤ 100.
Proof.
  unfold BigInt_ofNumber. intros H0 H100.
  destruct (bool_decide (Qden (this pct) = 1%positive)) eqn:Hden; [|done].
  apply bool_decide_eq_true in Hden. intros [= <-].
  unfold Qcle, Qle in H0, H100. cbn in H0, H100. rewrite Hden in *.
  change (Qred 0) with (0 # 1)%Q in H0. cbn in H0. lia.
Qed.

Lemma tokensToSell_range amount n :
  0 ≤ amount → 0 ≤ n ≤ 100 → 0 ≤ Z.quot (amount * n) 100 ≤ amount.
Proof.
  intros Ha Hn. rewrite Z.quot_div_nonneg by lia. split.
  - apply Z.div_pos; lia.
  - apply Z.div_le_upper_bound; [lia|]. nia.
Qed.

(** X15.  An exit never asks the executor for more than the position
    holds: for a sell percentage between 0 and 100 and a position
    amount that is not negative, the events of [executeSell] depend on
    the executor only through its answers for quantities between 0 and
    the amount of the position. *)
Theorem executeSell_within_position sellToken sellToken' position price profit
    (pct : number) type reason :
  0 ≤ amount position →
  (0 ≤ pct)%Qc → (pct ≤ ofZ 100)%Qc →
  (∀ quantity, 0 ≤ quantity ≤ amount position →
     sellToken (tokenMint position) quantity
     = sellToken' (tokenMint position) quantity) →
  executeSell sellToken position price profit pct type reason
  = executeSell sellToken' position price profit pct type reason.
Proof.
  intros Hamount H0 H100 Hsame. unfold executeSell.
  destruct (BigInt_ofNumber pct) as [n|] eqn:Hn; [|done].
  apply BigInt_ofNumber_range in Hn; [|done..].
  by rewrite Hsame by (by apply tokensToSell_range).
Qed.

Lemma executeSell_exitType sellToken position price profit pct type reason e :
  e ∈ executeSell sellToken position price profit pct type reason →
  ev_exitType (exitEventOf e) = type.
Proof.
  unfold executeSell. intros He.
  apply elem_of_cons in He as [->|He]; [done|].
  destruct (BigInt_ofNumber pct) as [n|].
  - destruct (sellToken _ _).
    + apply list_elem_of_singleton in He as ->. done.
    + apply list_elem_of_singleton in He as ->. done.
  - apply list_elem_of_singleton in He as ->. done.
Qed.

Lemma checkTakeProfitsLoop_exitType sellToken targets position price profit st e :
  e ∈ (checkTakeProfitsLoop sellToken targets position price profit st).2 →
  ev_exitType (exitEventOf e) = take_profit.
Proof.
  revert st. induction targets as [|tp rest IH]; intros st; cbn [checkTakeProfitsLoop].
  { intros He. by apply elem_of_nil in He. }
  destruct (geb profit (profitPercent tp) && _).
  - specialize (IH (mkExitState ({[profitPercent tp]} ∪ tpHit st)
                      (highWaterMark st))).
    destruct (checkTakeProfitsLoop sellToken rest position price profit _)
      as [st' events']. cbn [snd] in *.
    intros He. apply elem_of_app in He as [He|He]; [|by apply IH].
    by apply executeSell_exitType in He.
  - apply IH.
Qed.

Lemma exitStateFor_new_high exitStates mint (price : number) :
  (∀ st, exitStates !! mint = Some st → (highWaterMark st ≤ price)%Qc) →
  highWaterMark (exitStateFor exitStates mint price) = price.
Proof.
  intros Hhigh. unfold exitStateFor.
  destruct (exitStates !! mint) as [st|] eqn:Hst.
  - specialize (Hhigh st eq_refl).
    destruct (gtb price (highWaterMark st)) eqn:Hgt; [done|].
    apply ltb_ge in Hgt. by apply Qcle_antisym.
  - cbn [highWaterMark]. by destruct (gtb price price).
Qed.

(** X16.  No trailing stop at a new high, in a run of
    [checkAllPositions] that no other run overlaps (the exit state is
    shared, and the timer does not wait for a run to finish): when the
    price of a check is at least the stored high-water mark (or none is
    stored) and the strategy has a positive trailing-stop percentage,
    the check emits no trailing-stop exit, whatever the other rules
    trigger. *)
Theorem checkPosition_new_high_no_trailing_stop strategy sellToken now
    (prices : gmap string number) exitStates position (price ts : number) :
  prices !! tokenMint position = Some price →
  (∀ st, exitStates !! tokenMint position = Some st →
         (highWaterMark st ≤ price)%Qc) →
  trailingStopPercent strategy = Some ts → (0 < ts)%Qc →
  Forall (λ e, ev_exitType (exitEventOf e) ≠ trailing_stop)
    (checkPosition strategy sellToken now prices exitStates position).2.
Proof.
  intros Hprice Hhigh Hts Hpos. apply Forall_forall. intros e.
  unfold checkPosition. rewrite Hprice.
  destruct (eqb price 0%Qc); [intros He; by apply elem_of_nil in He|].
  pose proof (exitStateFor_new_high _ _ _ Hhigh) as Hhwm.
  unfold checkTakeProfits.
  pose proof (checkTakeProfitsLoop_spec sellToken (takeProfitTargets strategy)
                position price ((price / entryPrice position - 1) * ofZ 100)%Qc
                (exitStateFor exitStates (tokenMint position) price)) as Hloop.
  cbn zeta in Hloop.
  pose proof (checkTakeProfitsLoop_exitType sellToken (takeProfitTargets strategy)
                position price ((price / entryPrice position - 1) * ofZ 100)%Qc
                (exitStateFor exitStates (tokenMint position) price)) as Htype.
  destruct (checkTakeProfitsLoop _ _ _ _ _ _) as [st' ev1].
  cbn [fst snd] in *. destruct Hloop as (_ & Hsame & _).
  intros He. apply elem_of_app in He as [He|He].
  { by rewrite (Htype e He). }
  apply elem_of_app in He as [He|He].
  { unfold checkStopLoss in He. destruct (leb _ _).
    - apply executeSell_exitType in He. by rewrite He.
    - by apply elem_of_nil in He. }
  apply elem_of_app in He as [He|He].
  { unfold checkTimeLimit in He. destruct (negb _); [by apply elem_of_nil in He|].
    destruct (geb _ _).
    - apply executeSell_exitType in He. by rewrite He.
    - by apply elem_of_nil in He. }
  unfold checkTrailingStop in He. rewrite Hts in He.
  destruct (_ || _); [by apply elem_of_nil in He|].
  destruct (ltb _ _); [by apply elem_of_nil in He|].
  rewrite Hsame, Hhwm in He. cbn [default] in He.
  replace ((price - price) / price * ofZ 100)%Qc with 0%Qc in He.
  2:{ unfold Qcminus. rewrite Qcplus_opp_r. unfold Qcdiv.
      by rewrite !Qcmult_0_l. }
  unfold geb, leb in He. rewrite bool_decide_eq_false_2 in He.
  - by apply elem_of_nil in He.
  - by apply Qclt_not_le.
Qed.

Lemma checkAllPositions_no_prices strategy sellToken now positions exitStates :
  checkAllPositions strategy sellToken now ∅ positions exitStates
  = (exitStates, []).
Proof.
  induction positions as [|position rest IH]; [done|].
  cbn [checkAllPositions]. unfold checkPosition at 1.
  rewrite lookup_empty. by rewrite IH.
Qed.

(** X17.  Without prices nothing is checked: when the price request
    fails (network error, HTTP error status or undecodable body), a
    run of [checkAllPositions] triggers no exit at all, not even the
    stop loss or the hold-time limit of a position held too long, and
    leaves every exit state as it is. *)
Theorem checkAllPositions_tick_price_failure strategy sellToken now response
    ledger exitStates :
  priceFetchFailed response →
  checkAllPositions_tick strategy sellToken now response ledger exitStates
  = (exitStates, []).
Proof.
  intros Hfailed. unfold checkAllPositions_tick.
  destruct (getPositions ledger) as [|position rest]; [done|].
  replace (fetchPrices response (tokenMint <$> position :: rest))
    with (∅ : gmap string number).
  - apply checkAllPositions_no_prices.
  - cbn. by destruct response.
Qed.

Lemma checkTakeProfits_once_witness :
  let st' :=
    (checkTakeProfits defaultExitStrategy failingSell onePosition
       (ofFrac 2 1000) (ofZ 62) (mkExitState ∅ (ofFrac 2 1000))).1 in
  checkTakeProfits defaultExitStrategy uncappedSell onePosition
    (ofFrac 19 10000) (ofZ 54) st'
  = (st', []).
Proof.
  apply (checkTakeProfits_once defaultExitStrategy failingSell uncappedSell
           onePosition onePosition (ofFrac 2 1000) (ofFrac 19 10000)
           (ofZ 62) (ofZ 54) (mkExitState ∅ (ofFrac 2 1000))).
  by apply (bool_decide_unpack _).
Defined.

Lemma executeSell_within_position_witness :
  executeSell cappedSell onePosition (ofFrac 2 1000) (ofZ 62) (ofZ 25)
    take_profit (TPHit (ofZ 50))
  = executeSell uncappedSell onePosition (ofFrac 2 1000) (ofZ 62) (ofZ 25)
      take_profit (TPHit (ofZ 50)).
Proof.
  apply (executeSell_within_position cappedSell uncappedSell onePosition
           (ofFrac 2 1000) (ofZ 62) (ofZ 25) take_profit (TPHit (ofZ 50))).
  - cbn. lia.
  - by apply (bool_decide_unpack _).
  - by apply (bool_decide_unpack _).
  - intros quantity Hq. cbn in Hq. unfold cappedSell, uncappedSell.
    by rewrite (proj2 (Z.leb_le _ _)) by lia.
Defined.

Lemma checkPosition_new_high_no_trailing_stop_witness :
  Forall (λ e, ev_exitType (exitEventOf e) ≠ trailing_stop)
    (checkPosition trailingExitStrategy uncappedSell 1000
       {[ tokenMint onePosition := ofFrac 2 1000 ]}
       {[ tokenMint onePosition := mkExitState ∅ (ofFrac 15 10000) ]}
       onePosition).2.
Proof.
  apply (checkPosition_new_high_no_trailing_stop trailingExitStrategy
           uncappedSell 1000 {[ tokenMint onePosition := ofFrac 2 1000 ]}
           {[ tokenMint onePosition := mkExitState ∅ (ofFrac 15 10000) ]}
           onePosition (ofFrac 2 1000) (ofZ 20)).
  - reflexivity.
  - intros st Hst. apply lookup_singleton_Some in Hst as [_ <-].
    by apply (bool_decide_unpack _).
  - reflexivity.
  - by apply (bool_decide_unpack _).
Defined.

Lemma checkAllPositions_tick_price_failure_witness :
  checkAllPositions_tick defaultExitStrategy uncappedSell 90000000
    (PriceHttpStatus 503) oneLedger ∅
  = (∅, []).
Proof.
  apply (checkAllPositions_tick_price_failure defaultExitStrategy uncappedSell
           90000000 (PriceHttpStatus 503) oneLedger ∅).
  exact I.
Defined.

End ExitSells.

(** ** Trade filter *)
Section FilterDecisions.
Import TradeFilter.

Lemma getTokenMetadata_returns cache response now tokenMint :
  ∃ metadata cache',
    getTokenMetadata cache response now tokenMint = Returns (metadata, cache')
    ∧ cache' !! tokenMint = Some metadata
    ∧ (∀ other, other ≠ tokenMint → cache' !! other = cache !! other)
    ∧ (cache !! tokenMint = Some metadata ∧ cache' = cache
       ∨ length (priceHistory metadata) = 1%nat).
Proof.
  unfold getTokenMetadata, fetchTokenMetadata.
  destruct (fetchDexScreenerData_never_throws response now) as [d ->].
  cbn [bindOutcome].
  destruct (cache !! tokenMint) as [cached|] eqn:Hcache.
  - destruct (_ <? _).
    + exists cached, cache. repeat split; try done. by left.
    + eexists _, _. split; [done|]. split; [apply lookup_insert_eq|].
      split; [|by right]. intros other Hother. by apply lookup_insert_ne.
  - eexists _, _. split; [done|]. split; [apply lookup_insert_eq|].
    split; [|by right]. intros other Hother. by apply lookup_insert_ne.
Qed.

(** X18.  With the filter enabled, a mint that is not whitelisted is
    allowed exactly when all five thresholds hold of the metadata the
    call decides with (cached or just fetched): liquidity, token age
    and 24 h volume at least their minimum, estimated price impact and
    recent pump at most their maximum.  The cache afterwards is the one
    the metadata lookup leaves. *)
Theorem shouldCopyTrade_allowed_iff config cache response now tokenMint amt :
  enabled config = true →
  tokenMint ∉ whitelist config →
  ∃ metadata cache',
    getTokenMetadata cache response now tokenMint = Returns (metadata, cache')
    ∧ (shouldCopyTrade config cache response now tokenMint amt).2 = cache'
    ∧ (allowed (shouldCopyTrade config cache response now tokenMint amt).1
       = true
       ↔ passesThresholds config metadata
           (estimatePriceImpact cache' tokenMint amt)
           (detectRecentPump metadata now)).
Proof.
  intros Henabled Hwhite. unfold shouldCopyTrade, passesThresholds.
  rewrite Henabled. cbn [negb]. rewrite bool_decide_eq_false_2 by done.
  unfold shouldCopyTrade_body.
  destruct (getTokenMetadata_returns cache response now tokenMint)
    as (metadata & cache' & -> & _).
  exists metadata, cache'. split; [done|]. cbn [bindOutcome].
  destruct (ltb (liquidity metadata) _) eqn:H1.
  { split; [done|]. split; [done|]. intros (Hc & _).
    apply ltb_lt in H1. by apply Qclt_not_le in H1. }
  destruct (ltb (tokenAge metadata) _) eqn:H2.
  { split; [done|]. split; [done|]. intros (_ & Hc & _).
    apply ltb_lt in H2. by apply Qclt_not_le in H2. }
  destruct (ltb (volume24h metadata) _) eqn:H3.
  { split; [done|]. split; [done|]. intros (_ & _ & Hc & _).
    apply ltb_lt in H3. by apply Qclt_not_le in H3. }
  destruct (gtb (estimatePriceImpact cache' tokenMint amt) _) eqn:H4.
  { split; [done|]. split; [done|]. intros (_ & _ & _ & Hc & _).
    apply gtb_lt in H4. by apply Qclt_not_le in H4. }
  destruct (gtb (detectRecentPump metadata now) _) eqn:H5.
  { split; [done|]. split; [done|]. intros (_ & _ & _ & _ & Hc).
    apply gtb_lt in H5. by apply Qclt_not_le in H5. }
  split; [done|]. split; [|done]. intros _.
  apply ltb_ge in H1, H2, H3, H4, H5. done.
Qed.

(** X19.  Within 60 s of its last update a cached entry answers for the
    network: the decision of [shouldCopyTrade] is the same whatever the
    metadata request would return, and the cache is left as it is. *)
Theorem shouldCopyTrade_fresh_cache config cache response response' now
    tokenMint amt cached :
  cache !! tokenMint = Some cached →
  now - lastUpdated cached < METADATA_CACHE_TTL →
  shouldCopyTrade config cache response now tokenMint amt
  = shouldCopyTrade config cache response' now tokenMint amt
  ∧ (shouldCopyTrade config cache response now tokenMint amt).2 = cache.
Proof.
  intros Hcached Hfresh.
  assert (Hget : ∀ r, getTokenMetadata cache r now tokenMint
                      = Returns (cached, cache)).
  { intros r. unfold getTokenMetadata. rewrite Hcached.
    by rewrite (proj2 (Z.ltb_lt _ _)) by done. }
  unfold shouldCopyTrade, shouldCopyTrade_body. rewrite !Hget.
  split; [done|].
  destruct (negb (enabled config)); [done|].
  destruct (bool_decide _); [done|]. cbn [bindOutcome].
  repeat (match goal with
          | |- context [if ?b then _ else _] => destruct b
          end; [done|]).
  done.
Qed.

Lemma detectRecentPump_single metadata now :
  length (priceHistory metadata) = 1%nat → detectRecentPump metadata now = 0%Qc.
Proof.
  intros Hone. unfold detectRecentPump.
  destruct (priceHistory metadata) as [|p [|]]; try done.
  cbn [filter list_filter]. by destruct (decide _).
Qed.

(** X20.  Metadata that comes from fetches alone never trips the pump
    check: a fetch stores a single price sample, [shouldCopyTrade]
    keeps every cached entry at one sample, and with one sample the
    recent pump is 0, so with a maximum that is not negative no trade
    is rejected as already pumped. *)
Theorem shouldCopyTrade_single_sample_no_pump config cache response now
    tokenMint amt :
  singleSample cache →
  (0 ≤ maxRecentPumpPercent config)%Qc →
  singleSample (shouldCopyTrade config cache response now tokenMint amt).2
  ∧ ∀ pump limit,
      reason (shouldCopyTrade config cache response now tokenMint amt).1
      ≠ Some (AlreadyPumped pump limit).
Proof.
  intros Hsingle Hmax. unfold shouldCopyTrade.
  destruct (negb (enabled config)); [done|].
  destruct (bool_decide _); [done|].
  unfold shouldCopyTrade_body.
  destruct (getTokenMetadata_returns cache response now tokenMint)
    as (metadata & cache' & -> & Hmeta & Hother & Hcase).
  assert (Hone : length (priceHistory metadata) = 1%nat).
  { destruct Hcase as [[Hc _]|Hc]; [by apply (Hsingle tokenMint)|done]. }
  assert (Hsingle' : singleSample cache').
  { intros k m. destruct (decide (k = tokenMint)) as [->|Hk].
    - rewrite Hmeta. by intros [= <-].
    - rewrite Hother by done. apply Hsingle. }
  cbn [bindOutcome]. rewrite (detectRecentPump_single _ _ Hone).
  assert (Hpump : gtb 0%Qc (maxRecentPumpPercent config) = false).
  { by apply ltb_ge. }
  rewrite Hpump.
  repeat (match goal with
          | |- context [if ?b then _ else _] => destruct b
          end; [done|]).
  done.
Qed.

Lemma shouldCopyTrade_allowed_iff_witness :
  ∃ metadata cache',
    getTokenMetadata ∅ sampleResponse 86400000 scenarioMint
    = Returns (metadata, cache')
    ∧ (shouldCopyTrade defaultFilterConfig ∅ sampleResponse 86400000
         scenarioMint (ofZ 2)).2 = cache'
    ∧ (allowed (shouldCopyTrade defaultFilterConfig ∅ sampleResponse 86400000
                  scenarioMint (ofZ 2)).1 = true
       ↔ passesThresholds defaultFilterConfig metadata
           (estimatePriceImpact cache' scenarioMint (ofZ 2))
           (detectRecentPump metadata 86400000)).
Proof.
  apply (shouldCopyTrade_allowed_iff defaultFilterConfig ∅ sampleResponse
           86400000 scenarioMint (ofZ 2)).
  - reflexivity.
  - by apply (bool_decide_unpack _).
Defined.

Lemma shouldCopyTrade_fresh_cache_witness :
  shouldCopyTrade defaultFilterConfig sampleCache NetworkError 59999
    scenarioMint (ofZ 2)
  = shouldCopyTrade defaultFilterConfig sampleCache sampleResponse 59999
      scenarioMint (ofZ 2)
  ∧ (shouldCopyTrade defaultFilterConfig sampleCache NetworkError 59999
       scenarioMint (ofZ 2)).2 = sampleCache.
Proof.
  apply (shouldCopyTrade_fresh_cache defaultFilterConfig sampleCache
           NetworkError sampleResponse 59999 scenarioMint (ofZ 2)
           sampleMetadata).
  - reflexivity.
  - reflexivity.
Defined.

Lemma shouldCopyTrade_single_sample_no_pump_witness :
  singleSample
    (shouldCopyTrade defaultFilterConfig sampleCache sampleResponse 70000
       scenarioMint (ofZ 2)).2
  ∧ ∀ pump limit,
      reason (shouldCopyTrade defaultFilterConfig sampleCache sampleResponse
                70000 scenarioMint (ofZ 2)).1
      ≠ Some (AlreadyPumped pump limit).
Proof.
  apply (shouldCopyTrade_single_sample_no_pump defaultFilterConfig sampleCache
           sampleResponse 70000 scenarioMint (ofZ 2)).
  - intros mint metadata Hm. unfold sampleCache in Hm.
    apply lookup_insert_Some in Hm as [[_ <-]|[_ Hm]].
    + reflexivity.
    + by rewrite lookup_empty in Hm.
  - by apply (bool_decide_unpack _).
Defined.

End FilterDecisions.

Section PriceHistory.
Import TradeFilter.

(** X22.  A price update and the pump figure: [updatePriceHistory]
    keeps the samples of the last five minutes, appends the new one and
    does not touch [lastUpdated]; right afterwards [detectRecentPump]
    compares the new price with the oldest sample kept (when that one
    is not 0) and reports the rise in percent, or 0 for a fall. *)
Theorem updatePriceHistory_then_detectRecentPump cache now tokenMint
    (newPrice : number) metadata oldest others :
  cache !! tokenMint = Some metadata →
  filter (λ p, now - PRICE_HISTORY_WINDOW ≤ timestamp p) (priceHistory metadata)
  = oldest :: others →
  price oldest ≠ 0%Qc →
  ∃ metadata',
    updatePriceHistory cache now tokenMint newPrice !! tokenMint
    = Some metadata'
    ∧ priceHistory metadata'
      = oldest :: others ++ [mkPricePoint newPrice now]
    ∧ lastUpdated metadata' = lastUpdated metadata
    ∧ detectRecentPump metadata' now
      = Math_max ((newPrice / price oldest - 1) * ofZ 100)%Qc 0%Qc.
Proof.
  intros Hcached Hrecent Holdest. unfold updatePriceHistory. rewrite Hcached.
  rewrite lookup_insert_eq. eexists. split; [done|].
  cbn [priceHistory lastUpdated].
  assert (Hhistory :
    filter (λ p, now - PRICE_HISTORY_WINDOW ≤ timestamp p)
      (priceHistory metadata ++ [mkPricePoint newPrice now])
    = oldest :: others ++ [mkPricePoint newPrice now]).
  { rewrite filter_app, Hrecent. cbn [filter list_filter timestamp].
    destruct (decide (now - PRICE_HISTORY_WINDOW ≤ now)) as [_|Hold].
    - done.
    - unfold PRICE_HISTORY_WINDOW in Hold. lia. }
  rewrite Hhistory. split; [done|]. split; [done|].
  unfold detectRecentPump. cbn [priceHistory].
  assert (Hidem :
    filter (λ p, now - PRICE_HISTORY_WINDOW ≤ timestamp p)
      (oldest :: others ++ [mkPricePoint newPrice now])
    = oldest :: others ++ [mkPricePoint newPrice now]).
  { rewrite <- Hhistory. by apply list_filter_filter_l. }
  rewrite Hidem. cbn [length]. rewrite length_app. cbn [length].
  replace (S (length others + 1) <? 2)%nat with false
    by (symmetry; apply Nat.ltb_ge; lia).
  cbn [head fmap option_fmap option_map default].
  rewrite app_comm_cons, last_snoc. cbn [fmap option_fmap option_map default price].
  unfold eqb. by rewrite bool_decide_eq_false_2.
Qed.

Lemma updatePriceHistory_then_detectRecentPump_witness :
  ∃ metadata',
    updatePriceHistory sampleCache 120000 scenarioMint (ofFrac 3 2)
      !! scenarioMint
    = Some metadata'
    ∧ priceHistory metadata'
      = mkPricePoint (ofZ 1) 0 :: [] ++ [mkPricePoint (ofFrac 3 2) 120000]
    ∧ lastUpdated metadata' = lastUpdated sampleMetadata
    ∧ detectRecentPump metadata' 120000
      = Math_max ((ofFrac 3 2 / ofZ 1 - 1) * ofZ 100)%Qc 0%Qc.
Proof.
  apply (updatePriceHistory_then_detectRecentPump sampleCache 120000
           scenarioMint (ofFrac 3 2) sampleMetadata (mkPricePoint (ofZ 1) 0) []).
  - reflexivity.
  - reflexivity.
  - intros Heq. apply (f_equal this) in Heq. by vm_compute in Heq.
Defined.

End PriceHistory.

(** ** Trade analysis *)
Section AnalyzerFacts.
Import TradeAnalyzer.

Lemma pushAddresses_extends addresses indexes keys :
  keys `prefix_of` pushAddresses addresses indexes keys.
Proof.
  unfold pushAddresses. revert keys.
  induction indexes as [|idx rest IH]; intros keys; cbn [fold_left]; [done|].
  destruct (keyAt addresses idx) as [addr|]; [|apply IH].
  etrans; [|apply IH]. by apply prefix_app_r.
Qed.

Lemma resolveLookups_extends rpc lookups cache keys :
  keys `prefix_of` (resolveLookups rpc lookups cache keys).1.
Proof.
  revert cache keys. induction lookups as [|lookup rest IH]; intros cache keys;
    cbn [resolveLookups]; [done|].
  assert (Hadd : ∀ addresses,
    keys `prefix_of`
      pushAddresses addresses (readonlyIndexes lookup)
        (pushAddresses addresses (writableIndexes lookup) keys)).
  { intros addresses. etrans; apply pushAddresses_extends. }
  destruct (cache !! accountKey lookup) as [table|].
  - etrans; [apply Hadd|apply IH].
  - destruct (getAddressLookupTable rpc (accountKey lookup)) as [[table|]|];
      try apply IH.
    etrans; [apply Hadd|apply IH].
Qed.

(** The resolution of lookup tables only appends. *)
Lemma resolveFullAccountKeys_extends rpc cache decodedTx :
  accountKeys decodedTx
    `prefix_of` (resolveFullAccountKeys rpc cache decodedTx).1.
Proof.
  unfold resolveFullAccountKeys, resolveAccountKeys.
  destruct (isVersioned decodedTx); cbn [negb]; [|done].
  destruct (dt_transaction decodedTx) as [instructions lookups|]; [|done].
  destruct lookups as [|lookup rest]; [done|].
  pose proof (resolveLookups_extends rpc (lookup :: rest) cache
                (accountKeys decodedTx)) as Hext.
  by destruct (resolveLookups rpc (lookup :: rest) cache _).
Qed.

(** X23.  A cached lookup table is not requested again: when every
    table a transaction refers to is in the cache, the resolved keys do
    not depend on the RPC provider, and the cache is left as it is. *)
Theorem resolveLookups_cached rpc rpc' lookups cache keys :
  (∀ lookup, lookup ∈ lookups → is_Some (cache !! accountKey lookup)) →
  resolveLookups rpc lookups cache keys = resolveLookups rpc' lookups cache keys
  ∧ (resolveLookups rpc lookups cache keys).2 = cache.
Proof.
  revert keys. induction lookups as [|lookup rest IH]; intros keys Hcached;
    cbn [resolveLookups]; [done|].
  destruct (Hcached lookup (list_elem_of_here _ _)) as [table ->].
  apply IH. intros l Hl. apply Hcached. by apply list_elem_of_further.
Qed.

Lemma head_filter_Some {A} (P : A → Prop) `{∀ x, Decision (P x)} l x :
  head (filter P l) = Some x → x ∈ l ∧ P x.
Proof.
  intros Hhead. apply head_Some_elem_of in Hhead.
  by apply list_elem_of_filter in Hhead as [? ?].
Qed.

Lemma extractTokenBalanceDeltas_nonzero tx user d :
  d ∈ extractTokenBalanceDeltas tx user →
  ∃ x, delta d = Some x ∧ (ofFrac 1 1000000 < Math_abs x)%Qc.
Proof.
  unfold extractTokenBalanceDeltas. intros Hd.
  apply list_elem_of_filter in Hd as [Hnz _].
  unfold notEffectivelyZero in Hnz. destruct (delta d) as [x|]; [|done].
  exists x. split; [done|]. by apply gtb_lt.
Qed.

(** X24.  What every trade event of [analyzeTransaction] carries: the
    signature and slot of the transaction and the time of the analysis,
    a token mint other than USDC, a USDC amount above [0.000001], a
    token amount that is not negative and a recognised aggregator; the
    transaction does not name the vote program, and with a watch list
    that is not empty the user of the trade is a watched address. *)
Theorem analyzeTransaction_trade_shape rpc now trackedUsers cache decodedTx :
  Forall
    (λ event,
       match event with
       | TRADE trade => tradeShape decodedTx now trackedUsers trade
       | ERROR _ => True
       end)
    (analyzeTransaction rpc now trackedUsers cache decodedTx).1.
Proof.
  apply Forall_forall. intros [trade|msg]; [|done]. unfold tradeShape.
  unfold analyzeTransaction.
  destruct (bool_decide (VOTE_PROGRAM_ID ∈ accountKeys decodedTx)) eqn:Hvote.
  { intros He. by apply elem_of_nil in He. }
  apply bool_decide_eq_false in Hvote.
  destruct (resolveFullAccountKeys rpc cache decodedTx) as [fullKeys cache'].
  destruct (negb _ && _) eqn:Hgate.
  { intros He. by apply elem_of_nil in He. }
  assert (Huser : trackedUsers ≠ ∅ →
            ∃ u, (if truthyString (findTrackedUserFromKeys trackedUsers fullKeys)
                  then findTrackedUserFromKeys trackedUsers fullKeys
                  else head (accountKeys decodedTx)) = Some u
                 ∧ u ∈ trackedUsers).
  { intros Hne. apply andb_false_iff in Hgate as [Hfound|Hsize].
    - apply negb_false_iff in Hfound. rewrite Hfound.
      destruct (findTrackedUserFromKeys trackedUsers fullKeys) as [u|] eqn:Hu;
        [|done].
      exists u. split; [done|]. by apply findTrackedUserFromKeys_some in Hu as [_ ?].
    - apply Nat.ltb_ge in Hsize. exfalso. apply Hne.
      apply leibniz_equiv, size_empty_inv. lia. }
  set (user := if truthyString _ then _ else _) in *.
  destruct (parseTradeDetails rpc now decodedTx user fullKeys) as [t|] eqn:Hparse.
  2:{ intros He. by apply elem_of_nil in He. }
  intros He. apply list_elem_of_singleton in He. injection He as <-.
  unfold parseTradeDetails in Hparse.
  set (agg := identifyAggregatorFromInstructions _) in Hparse.
  assert (Hagg : agg ≠ unknown ∧
            parseTradeDetailsFromBalanceDeltas rpc now decodedTx agg user
            = Some trade).
  { by destruct agg. }
  destruct Hagg as [Hagg Hdetails]. clear Hparse.
  unfold parseTradeDetailsFromBalanceDeltas in Hdetails.
  destruct (getParsedTransaction rpc _) as [[tx|]|]; try done.
  destruct (meta tx); [|done].
  destruct (head (filter (λ d, d_mint d = USDC_MINT) _)) as [usdcDelta|] eqn:Husdc;
    [|done].
  destruct (head (filter (λ d, d_mint d ≠ USDC_MINT) _)) as [other|] eqn:Hother;
    [|done].
  apply head_filter_Some in Husdc as [Husdc _].
  apply head_filter_Some in Hother as [_ Hmint].
  apply extractTokenBalanceDeltas_nonzero in Husdc as (x & Hx & Hbig).
  injection Hdetails as <-. cbn. rewrite Hx. cbn.
  repeat split; try done.
  destruct (deltaRaw other <? 0) eqn:Hneg; lia.
Qed.

Lemma byteValue_inj b b' : byteValue b = byteValue b' → b = b'.
Proof.
  unfold byteValue. intros Heq.
  assert (Hn : Byte.to_N b = Byte.to_N b') by lia.
  pose proof (Byte.of_to_N b) as Hb. rewrite Hn, Byte.of_to_N in Hb.
  by injection Hb.
Qed.

Lemma bufGet_eq_head (b b' : byte) (l l' : Uint8Array) (i : Z) :
  0 ≤ i →
  bufGet (b :: l) (i + 1) = bufGet l i.
Proof.
  intros Hi. unfold bufGet.
  rewrite (proj2 (Z.ltb_ge _ _)) by lia. rewrite (proj2 (Z.ltb_ge _ _)) by lia.
  replace (Z.to_nat (i + 1)) with (S (Z.to_nat i)) by lia. done.
Qed.

Lemma prefix8_spec (data discriminator : Uint8Array) :
  (8 ≤ length data)%nat → length discriminator = 8%nat →
  forallb (λ i, bool_decide (bufGet data i = bufGet discriminator i)) (seqZ 0 8)
  = true
  ↔ take 8 data = discriminator.
Proof.
  intros Hdata Hdisc.
  do 8 (destruct data as [|? data]; [cbn in Hdata; lia|]).
  do 8 (destruct discriminator as [|? discriminator]; [done|]).
  destruct discriminator; [|done]. clear.
  change (seqZ 0 8) with [0; 1; 2; 3; 4; 5; 6; 7].
  cbn [forallb take]. unfold bufGet. cbn.
  rewrite !andb_true_iff, !bool_decide_eq_true. split.
  - intros (H0 & H1 & H2 & H3 & H4 & H5 & H6 & H7 & _).
    change (Z.to_nat 0) with 0%nat in *. change (Z.to_nat 1) with 1%nat in *.
    change (Z.to_nat 2) with 2%nat in *. change (Z.to_nat 3) with 3%nat in *.
    change (Z.to_nat 4) with 4%nat in *. change (Z.to_nat 5) with 5%nat in *.
    change (Z.to_nat 6) with 6%nat in *. change (Z.to_nat 7) with 7%nat in *.
    cbn in H0, H1, H2, H3, H4, H5, H6, H7.
    repeat match goal with
           | H : Some _ = Some _ |- _ =>
               injection H as H; apply byteValue_inj in H; subst
           end.
    by rewrite take_0.
  - rewrite take_0. intros [= -> -> -> -> -> -> -> ->]. repeat split; done.
Qed.

Lemma matchesDiscriminator_spec data discriminators :
  Forall (λ d : Uint8Array, length d = 8%nat) discriminators →
  matchesDiscriminator data discriminators = true
  ↔ (8 ≤ length data)%nat ∧ take 8 data ∈ discriminators.
Proof.
  intros Hall. unfold matchesDiscriminator.
  destruct (length data <? 8)%nat eqn:Hlen.
  { apply Nat.ltb_lt in Hlen. split; [done|]. intros [? _]. lia. }
  apply Nat.ltb_ge in Hlen.
  rewrite existsb_exists. split.
  - intros (d & Hd & Hmatch). split; [done|].
    apply list_elem_of_In in Hd.
    rewrite Forall_forall in Hall.
    apply prefix8_spec in Hmatch; [|done|by apply Hall]. by rewrite Hmatch.
  - intros [_ Hin]. exists (take 8 data). split; [by apply list_elem_of_In|].
    apply prefix8_spec; [done| |done].
    rewrite Forall_forall in Hall. by apply Hall.
Qed.

Lemma discriminator_lengths :
  Forall (λ d : Uint8Array, length d = 8%nat) OKX_SWAP_DISCRIMINATORS
  ∧ Forall (λ d : Uint8Array, length d = 8%nat) DFLOW_SWAP_DISCRIMINATORS.
Proof. split; by repeat constructor. Qed.

Lemma isOkxSwapInstruction_spec ix :
  bool_decide (programId ix = OKX_PROGRAM_ID)
  && (8 <=? length (data ix))%nat && isOkxSwapInstruction (data ix) = true
  ↔ swapOf OKX_PROGRAM_ID OKX_SWAP_DISCRIMINATORS ix.
Proof.
  unfold swapOf, isOkxSwapInstruction.
  rewrite !andb_true_iff, bool_decide_eq_true, Nat.leb_le.
  rewrite (matchesDiscriminator_spec _ _ (proj1 discriminator_lengths)).
  tauto.
Qed.

Lemma isDFlowSwapInstruction_spec ix :
  bool_decide (programId ix = DFLOW_PROGRAM_ID)
  && (8 <=? length (data ix))%nat && isDFlowSwapInstruction (data ix) = true
  ↔ swapOf DFLOW_PROGRAM_ID DFLOW_SWAP_DISCRIMINATORS ix.
Proof.
  unfold swapOf, isDFlowSwapInstruction.
  rewrite !andb_true_iff, bool_decide_eq_true, Nat.leb_le.
  rewrite (matchesDiscriminator_spec _ _ (proj2 discriminator_lengths)).
  tauto.
Qed.

(** X25.  The classifier follows the first recognised instruction: an
    instruction is recognised when it belongs to one of the two
    aggregator programs, has at least eight bytes of data and its first
    eight bytes are in that program's own discriminator list.  The
    result is [unknown] exactly when no instruction is recognised, and
    otherwise the aggregator of the first one that is. *)
Theorem identifyAggregatorFromInstructions_spec instructions :
  match identifyAggregatorFromInstructions instructions with
  | unknown => ∀ ix, ix ∈ instructions → ¬ recognised ix
  | found =>
      ∃ before ix after,
        instructions = before ++ ix :: after
        ∧ (∀ ix', ix' ∈ before → ¬ recognised ix')
        ∧ match found with
          | okx => swapOf OKX_PROGRAM_ID OKX_SWAP_DISCRIMINATORS ix
          | _ => swapOf DFLOW_PROGRAM_ID DFLOW_SWAP_DISCRIMINATORS ix
                 ∧ ¬ swapOf OKX_PROGRAM_ID OKX_SWAP_DISCRIMINATORS ix
          end
  end.
Proof.
  induction instructions as [|ix rest IH]; cbn [identifyAggregatorFromInstructions].
  { intros ix Hix. by apply elem_of_nil in Hix. }
  destruct (bool_decide (programId ix = OKX_PROGRAM_ID) && _ && _) eqn:Hokx.
  { apply isOkxSwapInstruction_spec in Hokx.
    exists [], ix, rest. split; [done|]. split; [|done].
    intros ix' Hix'. by apply elem_of_nil in Hix'. }
  apply not_true_iff_false in Hokx. rewrite isOkxSwapInstruction_spec in Hokx.
  destruct (bool_decide (programId ix = DFLOW_PROGRAM_ID) && _ && _) eqn:Hdflow.
  { apply isDFlowSwapInstruction_spec in Hdflow.
    exists [], ix, rest. split; [done|]. split; [|done].
    intros ix' Hix'. by apply elem_of_nil in Hix'. }
  apply not_true_iff_false in Hdflow.
  rewrite isDFlowSwapInstruction_spec in Hdflow.
  assert (Hix : ¬ recognised ix) by (intros [?|?]; done).
  destruct (identifyAggregatorFromInstructions rest).
  - destruct IH as (before & ix0 & after & -> & Hbefore & Hswap).
    exists (ix :: before), ix0, after. split; [done|]. split; [|done].
    intros ix' Hix'. apply elem_of_cons in Hix' as [->|Hix']; [done|].
    by apply Hbefore.
  - destruct IH as (before & ix0 & after & -> & Hbefore & Hswap).
    exists (ix :: before), ix0, after. split; [done|]. split; [|done].
    intros ix' Hix'. apply elem_of_cons in Hix' as [->|Hix']; [done|].
    by apply Hbefore.
  - intros ix' Hix'. apply elem_of_cons in Hix' as [->|Hix']; [done|].
    by apply IH.
Qed.

Lemma resolveLookups_cached_witness :
  resolveLookups failingRpc tableLookups cachedTable ["payer"%string]
  = resolveLookups scenarioRpc tableLookups cachedTable ["payer"%string]
  ∧ (resolveLookups failingRpc tableLookups cachedTable ["payer"%string]).2
    = cachedTable.
Proof.
  apply (resolveLookups_cached failingRpc scenarioRpc tableLookups cachedTable
           ["payer"%string]).
  intros lookup Hlookup. apply list_elem_of_singleton in Hlookup as ->.
  by eexists.
Defined.

End AnalyzerFacts.

Section BalanceDeltas.
Import TradeAnalyzer.

Lemma omapGet_omapSet {V} (m : OrderedMap V) k v k' :
  omapGet (omapSet m k v) k' = if bool_decide (k = k') then Some v else omapGet m k'.
Proof.
  induction m as [|[k0 v0] m IH]; cbn [omapSet omapGet].
  { done. }
  destruct (bool_decide (k0 = k)) eqn:Hk0; cbn [omapGet].
  - apply bool_decide_eq_true in Hk0 as ->. by destruct (bool_decide (k = k')).
  - rewrite IH. apply bool_decide_eq_false in Hk0.
    destruct (bool_decide (k0 = k')) eqn:Hk'; [|done].
    apply bool_decide_eq_true in Hk' as ->.
    by rewrite bool_decide_eq_false_2 by done.
Qed.

Lemma omapSet_keys {V} (m : OrderedMap V) k v k' :
  k' ∈ (omapSet m k v).*1 ↔ k' = k ∨ k' ∈ m.*1.
Proof.
  induction m as [|[k0 v0] m IH]; cbn [omapSet].
  { cbn. rewrite list_elem_of_singleton. split; [by left|].
    intros [?|H]; [done|]. by apply elem_of_nil in H. }
  destruct (bool_decide (k0 = k)) eqn:Hk0.
  - apply bool_decide_eq_true in Hk0 as ->. cbn. rewrite !elem_of_cons. tauto.
  - cbn. rewrite !elem_of_cons, IH. tauto.
Qed.

Lemma omapSet_NoDup {V} (m : OrderedMap V) k v :
  NoDup m.*1 → NoDup (omapSet m k v).*1.
Proof.
  induction m as [|[k0 v0] m IH]; cbn [omapSet]; intros Hnd.
  { cbn. apply NoDup_singleton. }
  cbn in Hnd. apply NoDup_cons in Hnd as [Hk0 Hnd].
  destruct (bool_decide (k0 = k)) eqn:Hk.
  - apply bool_decide_eq_true in Hk as ->. cbn. by apply NoDup_cons.
  - apply bool_decide_eq_false in Hk. cbn. apply NoDup_cons. split; [|by apply IH].
    rewrite omapSet_keys. intros [?|?]; done.
Qed.

Lemma omapGet_elem_of {V} (m : OrderedMap V) k v :
  NoDup m.*1 → (k, v) ∈ m → omapGet m k = Some v.
Proof.
  induction m as [|[k0 v0] m IH]; intros Hnd Hin.
  { by apply elem_of_nil in Hin. }
  cbn in Hnd. apply NoDup_cons in Hnd as [Hk0 Hnd]. cbn [omapGet].
  apply elem_of_cons in Hin as [[= -> ->]|Hin].
  - by rewrite bool_decide_eq_true_2.
  - rewrite bool_decide_eq_false_2; [by apply IH|].
    intros ->. apply Hk0. apply list_elem_of_fmap. by exists (k, v).
Qed.

Lemma balanceOf_cons owner mint b rest :
  balanceOf owner mint (b :: rest)
  = (if bool_decide (tb_owner b = owner ∧ tb_mint b = mint)
     then amountOf b else 0) + balanceOf owner mint rest.
Proof.
  unfold balanceOf. rewrite filter_cons.
  destruct (decide (tb_owner b = owner ∧ tb_mint b = mint)) as [Hb|Hb].
  - by rewrite bool_decide_eq_true_2.
  - rewrite bool_decide_eq_false_2 by done. lia.
Qed.

Lemma balanceOf_absent owner mint balances :
  mint ∉ mintsOf owner balances → balanceOf owner mint balances = 0.
Proof.
  induction balances as [|b rest IH]; [done|].
  unfold mintsOf. rewrite filter_cons, balanceOf_cons. intros Habsent.
  destruct (decide (tb_owner b = owner)) as [Howner|Howner].
  - rewrite fmap_cons in Habsent. apply not_elem_of_cons in Habsent as [Hne Hrest].
    rewrite bool_decide_eq_false_2 by (intros [_ ?]; done).
    by rewrite IH.
  - rewrite bool_decide_eq_false_2 by (intros [? _]; done).
    by rewrite IH.
Qed.

Lemma subtractPre_keeps owner pre m :
  NoDup m.*1 → NoDup (subtractPre owner pre m).*1.
Proof.
  unfold subtractPre. revert m. induction pre as [|b rest IH]; intros m Hnd;
    cbn [fold_left]; [done|].
  apply IH. destruct (bool_decide _); [by apply omapSet_NoDup|done].
Qed.

Lemma addPost_keeps owner post m :
  NoDup m.*1 → NoDup (addPost owner post m).*1.
Proof.
  unfold addPost. revert m. induction post as [|b rest IH]; intros m Hnd;
    cbn [fold_left]; [done|].
  apply IH. destruct (bool_decide _); [by apply omapSet_NoDup|done].
Qed.

Lemma subtractPre_raw owner pre m mint :
  NoDup (mintsOf owner pre) →
  rawOf (subtractPre owner pre m) mint
  = if bool_decide (mint ∈ mintsOf owner pre)
    then - balanceOf owner mint pre
    else rawOf m mint.
Proof.
  unfold subtractPre. revert m. induction pre as [|b rest IH]; intros m Hnd.
  { cbn [fold_left]. by rewrite bool_decide_eq_false_2 by apply not_elem_of_nil. }
  cbn [fold_left]. unfold mintsOf in *. rewrite filter_cons in *.
  rewrite balanceOf_cons.
  destruct (decide (tb_owner b = owner)) as [Howner|Howner].
  - rewrite (bool_decide_eq_true_2 (tb_owner b = owner)) by done.
    rewrite fmap_cons in *. apply NoDup_cons in Hnd as [Hfresh Hnd].
    rewrite IH by done. fold (mintsOf owner rest) in *.
    destruct (decide (mint = tb_mint b)) as [->|Hmint].
    + rewrite (bool_decide_eq_false_2 (tb_mint b ∈ mintsOf owner rest)) by done.
      rewrite (bool_decide_eq_true_2 (tb_mint b ∈ _ :: _)) by apply list_elem_of_here.
      rewrite (bool_decide_eq_true_2 (_ ∧ _)) by done.
      rewrite balanceOf_absent by done.
      unfold rawOf. rewrite omapGet_omapSet, bool_decide_eq_true_2 by done.
      cbn. lia.
    + rewrite (bool_decide_eq_false_2 (_ ∧ _)) by (intros [_ ?]; done).
      destruct (bool_decide (mint ∈ mintsOf owner rest)) eqn:Hin.
      * apply bool_decide_eq_true in Hin.
        rewrite bool_decide_eq_true_2 by (by apply list_elem_of_further). lia.
      * apply bool_decide_eq_false in Hin.
        rewrite bool_decide_eq_false_2
          by (intros H; apply elem_of_cons in H as [?|?]; done).
        unfold rawOf. rewrite omapGet_omapSet.
        by rewrite bool_decide_eq_false_2 by done.
  - rewrite (bool_decide_eq_false_2 (tb_owner b = owner)) by done.
    rewrite (bool_decide_eq_false_2 (_ ∧ _)) by (intros [? _]; done).
    rewrite IH by done. done.
Qed.

Lemma addPost_raw owner post m mint :
  rawOf (addPost owner post m) mint = rawOf m mint + balanceOf owner mint post.
Proof.
  unfold addPost. revert m. induction post as [|b rest IH]; intros m.
  { cbn [fold_left]. unfold balanceOf. cbn. lia. }
  cbn [fold_left]. rewrite IH, balanceOf_cons.
  destruct (decide (tb_owner b = owner)) as [Howner|Howner].
  - rewrite (bool_decide_eq_true_2 (tb_owner b = owner)) by done.
    unfold rawOf at 1. rewrite omapGet_omapSet.
    destruct (decide (tb_mint b = mint)) as [Hmint|Hmint].
    + rewrite bool_decide_eq_true_2 by done.
      rewrite (bool_decide_eq_true_2 (_ ∧ _)) by done.
      cbn [fmap option_fmap option_map default rawDelta]. subst mint.
      unfold rawOf. destruct (omapGet m (tb_mint b)); cbn; lia.
    + rewrite bool_decide_eq_false_2 by done.
      rewrite (bool_decide_eq_false_2 (_ ∧ _)) by (intros [_ ?]; done).
      unfold rawOf. lia.
  - rewrite (bool_decide_eq_false_2 (tb_owner b = owner)) by done.
    rewrite (bool_decide_eq_false_2 (_ ∧ _)) by (intros [? _]; done). lia.
Qed.

(** X26.  For a user who held at most one token account per mint before
    the transaction, the raw delta of every mint that
    [extractTokenBalanceDeltas] reports is the user's balance after
    minus the balance before, summed over the user's token accounts;
    the balances of other owners play no part. *)
Theorem extractTokenBalanceDeltas_raw tx owner :
  let pre := default [] (meta tx ≫= preTokenBalances) in
  let post := default [] (meta tx ≫= postTokenBalances) in
  NoDup (mintsOf owner pre) →
  Forall
    (λ d, deltaRaw d
          = balanceOf owner (d_mint d) post - balanceOf owner (d_mint d) pre)
    (extractTokenBalanceDeltas tx owner).
Proof.
  intros pre post Hnd. apply Forall_forall. intros d.
  unfold extractTokenBalanceDeltas.
  fold pre. fold post. intros Hd.
  apply list_elem_of_filter in Hd as [_ Hd].
  apply list_elem_of_fmap in Hd as ([mint entry] & -> & Hin).
  cbn [deltaRaw d_mint].
  assert (Hkeys : NoDup (addPost owner post (subtractPre owner pre [])).*1).
  { apply addPost_keeps, subtractPre_keeps. apply NoDup_nil_2. }
  apply (omapGet_elem_of _ _ _ Hkeys) in Hin.
  pose proof (addPost_raw owner post (subtractPre owner pre []) mint) as Hraw.
  unfold rawOf at 1 in Hraw. rewrite Hin in Hraw. cbn in Hraw.
  rewrite Hraw, subtractPre_raw by done.
  destruct (bool_decide (mint ∈ mintsOf owner pre)) eqn:Hmint; [lia|].
  apply bool_decide_eq_false in Hmint.
  rewrite (balanceOf_absent _ _ _ Hmint). unfold rawOf. cbn. lia.
Qed.

Lemma extractTokenBalanceDeltas_raw_witness :
  Forall
    (λ d, deltaRaw d
          = balanceOf (Some scenarioUser) (d_mint d)
              (default [] (meta scenarioMeta ≫= postTokenBalances))
            - balanceOf (Some scenarioUser) (d_mint d)
                (default [] (meta scenarioMeta ≫= preTokenBalances)))
    (extractTokenBalanceDeltas scenarioMeta (Some scenarioUser)).
Proof.
  apply (extractTokenBalanceDeltas_raw scenarioMeta (Some scenarioUser)).
  by apply (bool_decide_unpack _).
Defined.

(** With two token accounts of one mint before the transaction the
    later one replaces the earlier: 5 + 7 units before and 12 after
    come out as a delta of 5. *)
Example extractTokenBalanceDeltas_two_accounts :
  deltaRaw
    <$> extractTokenBalanceDeltas twoAccountsMeta
          (Some "8ZhZwcho7jy4Ssnv1EjaNDbEbHSQbFyzFGSCjhzBP7vt"%string)
  = [5].
Proof. by vm_compute. Qed.

End BalanceDeltas.

(** ** Pre-built transactions and the copy pipeline *)
Section PreBuiltRefresh.
Import JupiterExecutor.

(** X27.  The refresh timer leaves a gap: an entry that
    [preBuildTransaction] stored at or after a refresh tick is passed
    over by every tick of [refreshPreBuiltTransactions] before the
    second one after it (30 s later it still has 15 s or more to live,
    and the test is "less than 15 s"), so once its 45 s are over and
    until that second tick a buy finds it expired and takes the
    on-demand path. *)
Theorem refresh_leaves_expiry_gap tick built signature quote blockhash_
    (txCache : gmap string PreBuiltTransaction) allowedTokens tokenMint
    (usdcAmount : number) now :
  tick ≤ built →
  txCache !! tokenMint
  = Some (preBuiltEntry built signature quote blockhash_) →
  built + PREBUILT_TX_TTL ≤ now →
  now < tick + 2 * PREBUILT_TX_REFRESH_INTERVAL →
  (∀ k, 1 ≤ k → tick + k * PREBUILT_TX_REFRESH_INTERVAL ≤ now →
        tokenMint
          ∉ tokensToRefresh (tick + k * PREBUILT_TX_REFRESH_INTERVAL) txCache
              allowedTokens)
  ∧ buyToken_start now txCache tokenMint usdcAmount
    = OnDemand tokenMint usdcAmount.
Proof.
  intros Htick Hentry Hnow Hnext. split.
  - intros k Hk Hpast. unfold tokensToRefresh. rewrite list_elem_of_In, filter_In.
    intros [_ Hneeds]. unfold needsRefresh in Hneeds. rewrite Hentry in Hneeds.
    cbn [expiresAt preBuiltEntry] in Hneeds.
    unfold PREBUILT_TX_TTL, PREBUILT_TX_REFRESH_INTERVAL in *. lia.
  - unfold buyToken_start. rewrite Hentry. cbn [expiresAt preBuiltEntry].
    by rewrite (proj2 (Z.ltb_ge _ _)) by lia.
Qed.

Lemma refresh_leaves_expiry_gap_witness :
  let txCache : gmap string PreBuiltTransaction :=
    {[ WIF_MINT := preBuiltEntry 200 "3dbfKjKZ"
                     (mkQuote USDC_MINT WIF_MINT 2000000 6084613) "hash" ]} in
  (∀ k, 1 ≤ k → 0 + k * PREBUILT_TX_REFRESH_INTERVAL ≤ 50000 →
        WIF_MINT
          ∉ tokensToRefresh (0 + k * PREBUILT_TX_REFRESH_INTERVAL) txCache
              [WIF_MINT])
  ∧ buyToken_start 50000 txCache WIF_MINT (ofZ 2) = OnDemand WIF_MINT (ofZ 2).
Proof.
  apply (refresh_leaves_expiry_gap 0 200 "3dbfKjKZ"
           (mkQuote USDC_MINT WIF_MINT 2000000 6084613) "hash"
           {[ WIF_MINT := preBuiltEntry 200 "3dbfKjKZ"
                            (mkQuote USDC_MINT WIF_MINT 2000000 6084613)
                            "hash" ]}
           [WIF_MINT] WIF_MINT (ofZ 2) 50000).
  - lia.
  - reflexivity.
  - unfold PREBUILT_TX_TTL. lia.
  - unfold PREBUILT_TX_REFRESH_INTERVAL. lia.
Defined.

End PreBuiltRefresh.

Section Pipeline.
Import PositionManager CopyTradePipeline.

Lemma executeCopy_spec e w trade warnings :
  let '(e', events, ledgerEvents) := executeCopy e w trade warnings in
  pendingCopies e' = pendingCopies e ∖ {[ TradeAnalyzer.signature trade ]}
  ∧ disposed (stats e') = disposed (stats e)
  ∧ tradesDetected (stats e') = tradesDetected (stats e)
  ∧ copyAttempts (stats e') = copyAttempts (stats e)
  ∧ 1 ≤ concluded (stats e') - concluded (stats e)
  ∧ (integerOutAmount w →
     concluded (stats e') - concluded (stats e) = 1)
  ∧ (events = [COPY_INITIATED trade; COPY_FAILED trade]
     ∧ positions e' = positions e
     ∨ ∃ copyResult,
         events = [COPY_INITIATED trade; COPY_COMPLETE trade copyResult]
         ∧ copyOutcome w = Returns copyResult
         ∧ TradeAnalyzer.truthyString (cr_error copyResult) = false
         ∧ match riskLimits e with
           | None => positions e' = positions e
           | Some _ =>
               ∃ tokenAmount,
                 cr_outAmount copyResult = Some tokenAmount
                 ∧ positions e'
                   = (CopyTradeEngine.recordCopy (positions e) (recordNow w)
                        (TradeAnalyzer.direction trade)
                        (TradeAnalyzer.tokenMint trade) tokenAmount
                        (tradeAmountUsdc (config e))
                        (cr_signature copyResult)).1
           end).
Proof.
  unfold executeCopy, integerOutAmount, disposed, concluded.
  destruct (copyOutcome w) as [copyResult|msg] eqn:Hout.
  2:{ cbn. repeat split; try done; try lia. by left. }
  destruct (TradeAnalyzer.truthyString (cr_error copyResult)) eqn:Herr.
  { cbn. repeat split; try done; try lia. by left. }
  cbn [riskLimits withStats].
  destruct (riskLimits e) as [limits|] eqn:Hlimits.
  2:{ cbn. repeat split; try done; try lia. right. by exists copyResult. }
  destruct (cr_outAmount copyResult) as [tokenAmount|] eqn:Hamount.
  - cbn [positions config withStats].
    destruct (CopyTradeEngine.recordCopy _ _ _ _ _ _ _) as [ledger ledgerEvents]
      eqn:Hrecord.
    cbn. repeat split; try done; try lia. right. exists copyResult.
    repeat split; try done. exists tokenAmount. by rewrite Hrecord.
  - cbn. repeat split; try done; try lia; [|by left].
    intros Hint. destruct (Hint copyResult eq_refl) as [? ?]. congruence.
Qed.

(** The ways through [processTrade]: skipped by one of the filters,
    rejected by the risk check, or handed to the executor. *)
Lemma processTrade_paths e w trade :
  let e0 := withStats e (detected (stats e)) in
  (∃ reason cache,
     processTrade e w trade = skip (withMetadataCache e0 cache) trade reason)
  ∨ (∃ limits reason info warnings cache,
       riskLimits e = Some limits
       ∧ canTrade limits (positions e) (TradeAnalyzer.tokenMint trade)
           (TradeAnalyzer.direction trade) (tradeAmountUsdc (config e))
           (usdcBalance w)
         = (mkTradeCheckResult false reason info, warnings)
       ∧ processTrade e w trade
         = (withStats (withMetadataCache e0 cache)
              (riskRejected (stats e0)),
            [COPY_SKIPPED trade (risk_limit reason)], warnings))
  ∨ (∃ warnings cache,
       (TradeAnalyzer.signature trade ∉ pendingCopies e)
       ∧ (∀ limits, riskLimits e = Some limits →
            allowed (canTrade limits (positions e)
                       (TradeAnalyzer.tokenMint trade)
                       (TradeAnalyzer.direction trade)
                       (tradeAmountUsdc (config e)) (usdcBalance w)).1 = true)
       ∧ processTrade e w trade
         = executeCopy
             (withStats
                (withPending (withMetadataCache e0 cache)
                   ({[ TradeAnalyzer.signature trade ]} ∪ pendingCopies e))
                (attempted (stats e0)))
             w trade warnings).
Proof.
  intros e0. subst e0. unfold processTrade.
  cbn [config pendingCopies filterConfig metadataCache withStats].
  destruct (copyBuysOnly (config e) && _).
  { left. by exists sell_trade, (metadataCache e). }
  destruct ((0 <? length (allowedTokens (config e)))%nat && _).
  { left. by exists token_not_allowed, (metadataCache e). }
  destruct (ltb _ _).
  { left. by exists below_minimum, (metadataCache e). }
  destruct (bool_decide (_ ∈ pendingCopies e)) eqn:Hpending.
  { left. by exists already_copying, (metadataCache e). }
  apply bool_decide_eq_false in Hpending.
  destruct (match filterConfig e with
            | Some fc => _
            | None => (None, metadataCache e)
            end) as [filterResult cache].
  destruct filterResult as [[[|] reason checks]|];
    [|left; by exists (smart_filter reason), cache|];
    cbn [riskLimits positions config pendingCopies stats withMetadataCache
           withPending withStats];
    (destruct (riskLimits e) as [limits|] eqn:Hlimits;
     [destruct (canTrade limits _ _ _ _ _) as [[[|] rejected info] warnings]
        eqn:Hcheck;
      [right; right; exists warnings, cache;
       split; [done|]; split; [|done];
       intros ? [= <-]; by rewrite Hcheck
      |right; left; by exists limits, rejected, info, warnings, cache]
     |right; right; by exists [], cache]).
Qed.

(** X28.  Every trade is counted once: a call of [processTrade] raises
    [tradesDetected] by one and exactly one of [tradesFiltered],
    [tradesRiskRejected] and [copyAttempts] by one.  An attempt is
    counted as a success or a failure; it is counted as both only when
    the executor's [outAmount] is not an integer literal, and never
    when it is. *)
Theorem processTrade_counts e w trade :
  let st := stats e in
  let st' := stats (processTrade e w trade).1.1 in
  tradesDetected st' = tradesDetected st + 1
  ∧ disposed st' = disposed st + 1
  ∧ copyAttempts st' - copyAttempts st ≤ concluded st' - concluded st
  ∧ (integerOutAmount w →
     copyAttempts st' - copyAttempts st = concluded st' - concluded st).
Proof.
  cbn zeta.
  destruct (processTrade_paths e w trade)
    as [(reason & cache & ->)
       |[(limits & reason & info & warnings & cache & _ & _ & ->)
        |(warnings & cache & _ & _ & ->)]].
  - unfold skip, disposed, concluded. cbn. repeat split; lia.
  - unfold disposed, concluded. cbn. repeat split; lia.
  - match goal with |- context [executeCopy ?e1 w trade warnings] =>
      pose proof (executeCopy_spec e1 w trade warnings) as Hspec;
      destruct (executeCopy e1 w trade warnings) as [[e' events] ledgerEvents]
    end.
    destruct Hspec as (_ & Hdisposed & Hdetected & Hattempts & Hle & Heq & _).
    cbn [fst]. unfold disposed, concluded in *. cbn in *.
    repeat split; try lia. intros Hint. specialize (Heq Hint). lia.
Qed.

(** X29.  One call, one verdict: [processTrade] emits either a single
    [copy_skipped], or [copy_initiated] followed by [copy_failed], or
    [copy_initiated] followed by [copy_complete] for a result of the
    executor without an error.  The ledger changes in the last case
    only, and the set of pending copies is the same after the call as
    before it. *)
Theorem processTrade_events e w trade :
  let '(e', events, _) := processTrade e w trade in
  pendingCopies e' = pendingCopies e
  ∧ ((∃ reason, events = [COPY_SKIPPED trade reason])
     ∧ positions e' = positions e
     ∨ events = [COPY_INITIATED trade; COPY_FAILED trade]
       ∧ positions e' = positions e
     ∨ ∃ copyResult,
         events = [COPY_INITIATED trade; COPY_COMPLETE trade copyResult]
         ∧ copyOutcome w = Returns copyResult
         ∧ TradeAnalyzer.truthyString (cr_error copyResult) = false).
Proof.
  destruct (processTrade_paths e w trade)
    as [(reason & cache & ->)
       |[(limits & reason & info & warnings & cache & _ & _ & ->)
        |(warnings & cache & Hpending & _ & ->)]].
  - cbn. split; [done|]. left. split; [by eexists|done].
  - cbn. split; [done|]. left. split; [by eexists|done].
  - match goal with |- context [executeCopy ?e1 w trade warnings] =>
      pose proof (executeCopy_spec e1 w trade warnings) as Hspec;
      destruct (executeCopy e1 w trade warnings) as [[e' events] ledgerEvents]
    end.
    destruct Hspec as (Hpend & _ & _ & _ & _ & _ & Hevents).
    cbn in Hpend. split.
    + rewrite Hpend. apply leibniz_equiv. intros x.
      rewrite elem_of_difference, elem_of_union, elem_of_singleton.
      split; [intros [[?|?] ?]; done|].
      intros Hx. split; [by right|]. intros ->. done.
    + destruct Hevents as [[-> Hledger]|(copyResult & -> & Hout & Herr & _)].
      * right. left. done.
      * right. right. by exists copyResult.
Qed.

(** A skipped trade does not reach the executor. *)
Lemma processTrade_skipped_without_executor e w trade reason outcome now' :
  (processTrade e w trade).1.2 = [COPY_SKIPPED trade reason] →
  processTrade e
    (mkWorld (filterNow w) (metadataResponse w) (usdcBalance w) outcome now')
    trade
  = processTrade e w trade.
Proof.
  unfold processTrade.
  cbn [filterNow metadataResponse usdcBalance].
  destruct (copyBuysOnly _ && _); [done|].
  destruct ((0 <? _)%nat && _); [done|].
  destruct (ltb _ _); [done|].
  destruct (bool_decide _); [done|].
  destruct (match filterConfig _ with
            | Some fc => _
            | None => _
            end) as [filterResult cache].
  destruct filterResult as [[[|] rejected checks]|]; [|done|];
    (destruct (match riskLimits _ with
               | Some limits => _
               | None => _
               end) as [riskCheck warnings];
     destruct riskCheck as [[[|] rejected' info]|]; [|done|];
     (match goal with |- context [executeCopy ?e1 w trade warnings] =>
        pose proof (executeCopy_spec e1 w trade warnings) as Hspec;
        destruct (executeCopy e1 w trade warnings) as [[e' events] ledgerEvents]
      end;
      destruct Hspec as (_ & _ & _ & _ & _ & _ & Hevents);
      cbn [fst snd]; intros ->;
      destruct Hevents as [[? _]|(? & ? & _)]; done)).
Qed.

(** A call that records its copy: one position of 6084613 units for
    $2. *)
Example processTrade_records_copy :
  (processTrade freshEngine copySent wifBuy).1.2
  = [COPY_INITIATED wifBuy;
     COPY_COMPLETE wifBuy (mkCopyResult None "3dbfKjKZ" (Some 6084613))]
  ∧ amount
      <$> positions (processTrade freshEngine copySent wifBuy).1.1
            !! "EKpQGSJtjMFqKZ9KQanSqYXRcF8fBopzLHYxdM65zcjm"%string
    = Some 6084613.
Proof. split; by vm_compute. Qed.

End Pipeline.
